(** * The annotated-document model of [stanfordnlp/models/common/doc.py]

    A shallow embedding of the classes [Word], [Token], [Sentence], [Span]
    and [Document], followed by the properties of the specification that
    were checked against them.

    Conventions of the embedding.
    - Python values that may be stored in a field are [value]s: [None], a
      [str], an [int] or a sequence (a list or a tuple, which the model does
      not tell apart).
    - A Python [str] is a [string]; each character of the [string] stands for
      the code point of the same number (0 to 255).
    - A call that may raise returns a [result]: [Ok] with the value, or
      [Raise] with the exception class.
    - A dictionary passed to a constructor is an [entry]: one optional value
      for each of the keys the code ever reads. *)

From Stdlib Require Import List String Ascii ZArith Lia Bool.
From Stdlib Require Import DecimalString DecimalZ DecimalPos DecimalN.
Import ListNotations.
Local Open Scope string_scope.
Local Open Scope Z_scope.

Set Implicit Arguments.

(** ** Exceptions *)

Inductive exn : Type :=
| AssertionError
| IndexError
| TypeError
| ValueError
| AttributeError
| Unmodelled.
(* [Unmodelled] is not a Python exception: it marks the inputs on which the
   reflective [setattr] of [init_from_misc] would reach an attribute that is
   not a data field of the object (a method, or one of Python's own
   double-underscore attributes).  The model stops there. *)

Inductive result (A : Type) : Type :=
| Ok (a : A)
| Raise (e : exn).
Arguments Ok {A} a.
Arguments Raise {A} e.

Definition bind {A B : Type} (r : result A) (k : A -> result B) : result B :=
  match r with
  | Ok a => k a
  | Raise e => Raise e
  end.

Declare Scope result_scope.
Delimit Scope result_scope with result.
Notation "x <- r ;; k" := (bind r (fun x => k))
  (at level 61, r at next level, right associativity) : result_scope.
Notation "'assert!' b ;; k" := (if b then k else Raise AssertionError)
  (at level 61, b at next level, right associativity) : result_scope.
Local Open Scope result_scope.

Definition is_ok {A : Type} (r : result A) : bool :=
  match r with Ok _ => true | Raise _ => false end.

(** ** Python values *)

#[local] Set Warnings "-register-all".
Inductive value : Type :=
| VNone
| VStr (s : string)
| VInt (z : Z)
| VSeq (l : list value).

(** [bool(v)]: the truth value used by [assert a and b]. *)
Definition truthy (v : value) : bool :=
  match v with
  | VNone => false
  | VStr s => negb (String.eqb s "")
  | VInt z => negb (Z.eqb z 0)
  | VSeq l => match l with [] => false | _ => true end
  end.

Definition is_None (v : value) : bool :=
  match v with VNone => true | _ => false end.

(** [dict.get(key, None)] on an optional dictionary slot. *)
Definition dget (o : option value) : value :=
  match o with Some v => v | None => VNone end.

(** ** Strings *)

Module Str.

(** [s.split(sep)] for a one-character separator. *)
Fixpoint split_aux (sep : ascii) (cur : string) (s : string) : list string :=
match s with
| EmptyString => [cur]
| String c s' =>
    if Ascii.eqb c sep then cur :: split_aux sep EmptyString s'
    else split_aux sep (cur ++ String c EmptyString) s'
end.

Definition split (sep : ascii) (s : string) : list string :=
split_aux sep EmptyString s.

(** [s.count(c)] for one character. *)
Fixpoint count (c : ascii) (s : string) : nat :=
match s with
| EmptyString => O
| String a s' => (if Ascii.eqb a c then 1 else 0) + count c s'
end.

(** [sep.join(l)]. *)
Fixpoint join (sep : string) (l : list string) : string :=
match l with
| [] => ""
| [x] => x
| x :: l' => x ++ sep ++ join sep l'
end.

(** [s.startswith(p)]. *)
Definition startswith (p s : string) : bool := String.prefix p s.

(** [s[n:]] for [0 <= n]. *)
Fixpoint drop (n : nat) (s : string) : string :=
match n, s with
| O, _ => s
| S n', String _ s' => drop n' s'
| S _, EmptyString => EmptyString
end.

Fixpoint take (n : nat) (s : string) : string :=
match n, s with
| S n', String c s' => String c (take n' s')
| _, _ => EmptyString
end.

(** [s[a:b]] with optional bounds, negative bounds counted from the end
  and every bound clamped to the string, as Python slices do. *)
Definition clamp (len : Z) (i : Z) : Z :=
if i <? 0 then Z.max 0 (len + i) else Z.min len i.

Definition slice (s : string) (a b : option Z) : string :=
let len := Z.of_nat (String.length s) in
let lo := match a with Some i => clamp len i | None => 0 end in
let hi := match b with Some i => clamp len i | None => len end in
take (Z.to_nat (hi - lo)) (drop (Z.to_nat lo) s).

Definition is_digit (c : ascii) : bool :=
let n := nat_of_ascii c in (48 <=? n)%nat && (n <=? 57)%nat.

Definition digit_val (c : ascii) : Z := Z.of_nat (nat_of_ascii c) - 48.

(** The characters [int()] strips on both sides: the code points below 256
  for which [str.isspace] holds. *)
Definition is_space (c : ascii) : bool :=
let n := nat_of_ascii c in
((9 <=? n) && (n <=? 13) || (28 <=? n) && (n <=? 32)
 || (n =? 133) || (n =? 160))%nat.

Fixpoint lstrip (s : string) : string :=
match s with
| String c s' => if is_space c then lstrip s' else s
| EmptyString => EmptyString
end.

Fixpoint rstrip (s : string) : string :=
match s with
| String c s' =>
    match rstrip s' with
    | EmptyString => if is_space c then EmptyString else String c EmptyString
    | r => String c r
    end
| EmptyString => EmptyString
end.

(** Decimal digits, a single underscore allowed between two digits. *)
Fixpoint digits (acc : Z) (after_us : bool) (s : string) : option Z :=
match s with
| EmptyString => if after_us then None else Some acc
| String c s' =>
    if is_digit c then digits (10 * acc + digit_val c) false s'
    else if Ascii.eqb c "_" then
           if after_us then None else digits acc true s'
         else None
end.

Definition unsigned (s : string) : option Z :=
match s with
| String c _ => if is_digit c then digits 0 false s else None
| EmptyString => None
end.

(** [int(s)] for a [str] in base ten; [None] stands for [ValueError]. *)
Definition to_int (s : string) : option Z :=
match rstrip (lstrip s) with
| String "-" s' => option_map Z.opp (unsigned s')
| String "+" s' => unsigned s'
| s' => unsigned s'
end.

(** [str(z)] for an [int]. *)
Definition of_int (z : Z) : string := NilZero.string_of_int (Z.to_int z).

(** The longest prefix of decimal digits and what follows it. *)
Fixpoint span_digits (s : string) : string * string :=
match s with
| String c s' =>
    if is_digit c then let (d, r) := span_digits s' in (String c d, r)
    else (EmptyString, s)
| EmptyString => (EmptyString, EmptyString)
end.

(** [s] contains [p]. *)
Fixpoint contains (p s : string) : bool :=
String.prefix p s ||
match s with
| String _ s' => contains p s'
| EmptyString => false
end.

(** The part of [s] before its first line feed. *)
Fixpoint first_line (s : string) : string :=
match s with
| String c s' => if Ascii.eqb c "010" then EmptyString else String c (first_line s')
| EmptyString => EmptyString
end.

End Str.

(** [int(v)] on a value. *)
Definition py_int (v : value) : result Z :=
  match v with
  | VInt z => Ok z
  | VStr s => match Str.to_int s with Some z => Ok z | None => Raise ValueError end
  | VNone | VSeq _ => Raise TypeError
  end.

(** ** The two regular expressions *)

(** [multi_word_token_id = re.compile(r"([0-9]+)-([0-9]+)")], used through
    [match]: the pattern is anchored at the start only.  The result holds
    [int(m.group(1))] and [int(m.group(2))]. *)
Definition multi_word_token_id (s : string) : option (Z * Z) :=
  let (d1, r1) := Str.span_digits s in
  match d1, r1 with
  | String _ _, String "-" r =>
      let (d2, _) := Str.span_digits r in
      match d2 with
      | String _ _ =>
          match Str.digits 0 false d1, Str.digits 0 false d2 with
          | Some a, Some b => Some (a, b)
          | _, _ => None
          end
      | EmptyString => None
      end
  | _, _ => None
  end.

(** [multi_word_token_misc = re.compile(r".*MWT=Yes.*")], used through
    [match]: [.] does not match a line feed, so the marker has to occur in
    the first line. *)
Definition multi_word_token_misc (s : string) : bool :=
  Str.contains "MWT=Yes" (Str.first_line s).

(** ** Field names and construction dictionaries *)

(** The names under which a Word stores its annotations; they are also the
    keys of the dictionaries that constructors read and [to_dict] writes. *)
Inductive field : Type :=
| ID | TEXT | LEMMA | UPOS | XPOS | FEATS | HEAD | DEPREL | DEPS | MISC | NER.

Definition field_eqb (f g : field) : bool :=
  match f, g with
  | ID, ID | TEXT, TEXT | LEMMA, LEMMA | UPOS, UPOS | XPOS, XPOS
  | FEATS, FEATS | HEAD, HEAD | DEPREL, DEPREL | DEPS, DEPS
  | MISC, MISC | NER, NER => true
  | _, _ => false
  end.

(** A CoNLL-U dictionary: [None] when the key is absent. *)
Record entry : Type := mk_entry {
  e_id : option value;
  e_text : option value;
  e_lemma : option value;
  e_upos : option value;
  e_xpos : option value;
  e_feats : option value;
  e_head : option value;
  e_deprel : option value;
  e_deps : option value;
  e_misc : option value;
  e_ner : option value
}.

Definition empty_entry : entry :=
  mk_entry None None None None None None None None None None None.

Definition entry_lookup (f : field) (e : entry) : option value :=
  match f with
  | ID => e_id e | TEXT => e_text e | LEMMA => e_lemma e | UPOS => e_upos e
  | XPOS => e_xpos e | FEATS => e_feats e | HEAD => e_head e
  | DEPREL => e_deprel e | DEPS => e_deps e | MISC => e_misc e
  | NER => e_ner e
  end.

(** [entry.get(f)] and [entry.get(f, None)]. *)
Definition entry_get (f : field) (e : entry) : value := dget (entry_lookup f e).

(** [entry[ID] = v]. *)
Definition entry_set_id (v : value) (e : entry) : entry :=
  mk_entry (Some v) (e_text e) (e_lemma e) (e_upos e) (e_xpos e) (e_feats e)
           (e_head e) (e_deprel e) (e_deps e) (e_misc e) (e_ner e).

(** [_is_null(value)], the same in both classes. *)
Definition _is_null (v : value) : bool :=
  match v with
  | VNone => true
  | VStr s => String.eqb s "_"
  | _ => false
  end.

(** [value if self._is_null(value) == False else None]. *)
Definition unless_null (v : value) : value :=
  if _is_null v then VNone else v.

(** [d[f] = v] when [v is not None], as [to_dict] does. *)
Definition present (v : value) : option value :=
  if is_None v then None else Some v.

(** What one item of a [misc] string asks for. *)
Inductive misc_item : Type :=
| Skip                                 (* no [=]: [continue] *)
| Unpack_fails                         (* two or more [=] *)
| Pair (key : string) (val : string).

Definition parse_item (item : string) : misc_item :=
  match Str.split "=" item with
  | [_] => Skip
  | [k; v] => Pair k v
  | _ => Unpack_fails
  end.

(** The keys for which [hasattr(self, '_' + key)] finds something that is
    not a data field: the helper [_is_null] and Python's own attributes. *)
Definition reaches_internals (key : string) : bool :=
  String.eqb key "is_null" || Str.startswith "_" key.

(** ** Word *)

Module Word.

Record t : Type := mk {
id : value;
text : value;
lemma : value;
upos : value;
xpos : value;
feats : value;
head : value;
deprel : value;
deps : value;
misc : value;
ner : value
}.

(** [self._f = v], without the property setter. *)
Definition store (f : field) (v : value) (w : t) : t :=
match f with
| ID => mk v (text w) (lemma w) (upos w) (xpos w) (feats w) (head w) (deprel w) (deps w) (misc w) (ner w)
| TEXT => mk (id w) v (lemma w) (upos w) (xpos w) (feats w) (head w) (deprel w) (deps w) (misc w) (ner w)
| LEMMA => mk (id w) (text w) v (upos w) (xpos w) (feats w) (head w) (deprel w) (deps w) (misc w) (ner w)
| UPOS => mk (id w) (text w) (lemma w) v (xpos w) (feats w) (head w) (deprel w) (deps w) (misc w) (ner w)
| XPOS => mk (id w) (text w) (lemma w) (upos w) v (feats w) (head w) (deprel w) (deps w) (misc w) (ner w)
| FEATS => mk (id w) (text w) (lemma w) (upos w) (xpos w) v (head w) (deprel w) (deps w) (misc w) (ner w)
| HEAD => mk (id w) (text w) (lemma w) (upos w) (xpos w) (feats w) v (deprel w) (deps w) (misc w) (ner w)
| DEPREL => mk (id w) (text w) (lemma w) (upos w) (xpos w) (feats w) (head w) v (deps w) (misc w) (ner w)
| DEPS => mk (id w) (text w) (lemma w) (upos w) (xpos w) (feats w) (head w) (deprel w) v (misc w) (ner w)
| MISC => mk (id w) (text w) (lemma w) (upos w) (xpos w) (feats w) (head w) (deprel w) (deps w) v (ner w)
| NER => mk (id w) (text w) (lemma w) (upos w) (xpos w) (feats w) (head w) (deprel w) (deps w) (misc w) v
end.

(** [getattr(word, f)]: every property returns the stored value. *)
Definition getattr (f : field) (w : t) : value :=
match f with
| ID => id w | TEXT => text w | LEMMA => lemma w | UPOS => upos w
| XPOS => xpos w | FEATS => feats w | HEAD => head w
| DEPREL => deprel w | DEPS => deps w | MISC => misc w | NER => ner w
end.

(** [self._text == '_']. *)
Definition text_is_placeholder (w : t) : bool :=
match text w with VStr s => String.eqb s "_" | _ => false end.

(** [setattr(word, f, v)]: the property setters. *)
Definition setattr (f : field) (v : value) (w : t) : result t :=
match f with
| ID | TEXT => Ok (store f v w)
| LEMMA =>
    Ok (store LEMMA
          (if negb (_is_null v) || text_is_placeholder w then v else VNone) w)
| HEAD =>
    if _is_null v then Ok (store HEAD VNone w)
    else z <- py_int v ;; Ok (store HEAD (VInt z) w)
| _ => Ok (store f (unless_null v) w)
end.

Definition blank : t :=
mk VNone VNone VNone VNone VNone VNone VNone VNone VNone VNone VNone.

(** The order in which [__init__] assigns, and the default field list of
  [to_dict]. *)
Definition all_fields : list field :=
[ID; TEXT; LEMMA; UPOS; XPOS; FEATS; HEAD; DEPREL; DEPS; MISC; NER].

(** The attribute [_key] of a Word that a [misc] item [key=value] names. *)
Definition attr_of_key (key : string) : option field :=
if String.eqb key "id" then Some ID
else if String.eqb key "text" then Some TEXT
else if String.eqb key "lemma" then Some LEMMA
else if String.eqb key "upos" then Some UPOS
else if String.eqb key "xpos" then Some XPOS
else if String.eqb key "feats" then Some FEATS
else if String.eqb key "head" then Some HEAD
else if String.eqb key "deprel" then Some DEPREL
else if String.eqb key "deps" then Some DEPS
else if String.eqb key "misc" then Some MISC
else if String.eqb key "ner" then Some NER
else None.

(** One turn of the loop of [init_from_misc].  The key [parent] names the
  attribute [_parent] as well; the back-reference is not a field of the
  model (a Word is found inside its Token) and [_process_tokens], the
  only caller that passes a [misc], assigns it afterwards anyway. *)
Definition init_item (item : string) (w : t) : result t :=
match parse_item item with
| Skip => Ok w
| Unpack_fails => Raise ValueError
| Pair key val =>
    match attr_of_key key with
    | Some f => Ok (store f (VStr val) w)
    | None => if reaches_internals key then Raise Unmodelled else Ok w
    end
end.

Fixpoint init_items (items : list string) (w : t) : result t :=
match items with
| [] => Ok w
| item :: items' => w' <- init_item item w ;; init_items items' w'
end.

Definition init_from_misc (w : t) : result t :=
match misc w with
| VStr m => init_items (Str.split "|" m) w
| _ => Raise AttributeError
end.

Fixpoint assign (e : entry) (fs : list field) (w : t) : result t :=
match fs with
| [] => Ok w
| f :: fs' => w' <- setattr f (entry_get f e) w ;; assign e fs' w'
end.

(** [Word(word_entry)]. *)
Definition init (e : entry) : result t :=
assert! truthy (entry_get ID e) && truthy (entry_get TEXT e) ;;
w <- assign e all_fields blank ;;
if is_None (misc w) then Ok w else init_from_misc w.

(** [word.to_dict()] with the default field list. *)
Definition to_dict (w : t) : entry :=
mk_entry (present (id w)) (present (text w)) (present (lemma w))
         (present (upos w)) (present (xpos w)) (present (feats w))
         (present (head w)) (present (deprel w)) (present (deps w))
         (present (misc w)) (present (ner w)).

End Word.

(** ** Token *)

Module Token.

Record t : Type := mk {
id : value;
text : value;
misc : value;
words : list Word.t;
start_char : option Z;
end_char : option Z
}.

Definition set_id (v : value) (k : t) : t :=
mk v (text k) (misc k) (words k) (start_char k) (end_char k).
Definition set_text (v : value) (k : t) : t :=
mk (id k) v (misc k) (words k) (start_char k) (end_char k).
(** [self._misc = v]. *)
Definition store_misc (v : value) (k : t) : t :=
mk (id k) (text k) v (words k) (start_char k) (end_char k).
(** [token.misc = v], the property setter. *)
Definition set_misc (v : value) (k : t) : t := store_misc (unless_null v) k.
Definition set_words (ws : list Word.t) (k : t) : t :=
mk (id k) (text k) (misc k) ws (start_char k) (end_char k).
Definition set_start_char (z : Z) (k : t) : t :=
mk (id k) (text k) (misc k) (words k) (Some z) (end_char k).
Definition set_end_char (z : Z) (k : t) : t :=
mk (id k) (text k) (misc k) (words k) (start_char k) (Some z).

(** One turn of the loop of [init_from_misc].  A key [words] puts a [str]
  where the list of Words is, and the constructor returns with it; the
  model has no such Token and stops there, so what is stated of the Words
  of constructed Tokens is stated for entries without that key
  ([keeps_word_list] below). *)
Definition init_item (item : string) (k : t) : result t :=
match parse_item item with
| Skip => Ok k
| Unpack_fails => Raise ValueError
| Pair key val =>
    if String.eqb key "start_char" then
      z <- py_int (VStr val) ;; Ok (set_start_char z k)
    else if String.eqb key "end_char" then
      z <- py_int (VStr val) ;; Ok (set_end_char z k)
    else if String.eqb key "id" then Ok (set_id (VStr val) k)
    else if String.eqb key "text" then Ok (set_text (VStr val) k)
    else if String.eqb key "misc" then Ok (store_misc (VStr val) k)
    else if String.eqb key "words" then Raise Unmodelled
    else if reaches_internals key then Raise Unmodelled
    else Ok k
end.

Fixpoint init_items (items : list string) (k : t) : result t :=
match items with
| [] => Ok k
| item :: items' => k' <- init_item item k ;; init_items items' k'
end.

Definition init_from_misc (k : t) : result t :=
match misc k with
| VStr m => init_items (Str.split "|" m) k
| _ => Raise AttributeError
end.

(** [Token(token_entry, words=ws)]; [words=None] is [ws = []]. *)
Definition init (e : entry) (ws : list Word.t) : result t :=
assert! truthy (entry_get ID e) && truthy (entry_get TEXT e) ;;
let k := mk (entry_get ID e) (entry_get TEXT e)
            (unless_null (entry_get MISC e)) ws None None in
if is_None (misc k) then Ok k else init_from_misc k.

(** The dictionary of the token itself: the fields [ID, TEXT, MISC]. *)
Definition own_dict (k : t) : entry :=
mk_entry (present (id k)) (present (text k)) None None None None None None
         None (present (misc k)) None.

(** [token.to_dict()]. *)
Definition to_dict (k : t) : list entry :=
(if (List.length (words k) =? 1)%nat then [] else [own_dict k])
  ++ map Word.to_dict (words k).

End Token.

(** ** Python lists *)

(** [l[i]], a negative [i] counting from the end; [None] is [IndexError]. *)
Definition py_index {A : Type} (l : list A) (i : Z) : option A :=
  let n := Z.of_nat (List.length l) in
  if i <? 0 then
    if n + i <? 0 then None else nth_error l (Z.to_nat (n + i))
  else nth_error l (Z.to_nat i).

(** [l[-1]]. *)
Fixpoint py_last {A : Type} (l : list A) : option A :=
  match l with
  | [] => None
  | [x] => Some x
  | _ :: l' => py_last l'
  end.

(** ** Sentence *)

Module Sentence.

(** One edge of the dependency graph: [(head, deprel, word)]. *)
Definition edge : Type := (Word.t * value * Word.t)%type.

Record t : Type := mk {
tokens : list Token.t;
words : list Word.t;
dependencies : list edge;
text : option string
}.

Definition set_tokens (ks : list Token.t) (s : t) : t :=
mk ks (words s) (dependencies s) (text s).
Definition set_words (ws : list Word.t) (s : t) : t :=
mk (tokens s) ws (dependencies s) (text s).
Definition set_dependencies (ds : list edge) (s : t) : t :=
mk (tokens s) (words s) ds (text s).
Definition set_text (x : option string) (s : t) : t :=
mk (tokens s) (words s) (dependencies s) x.

(** [sentence.to_dict()]. *)
Definition to_dict (s : t) : list entry := flat_map Token.to_dict (tokens s).

(** The dictionary of the synthetic root: [{ID: "0", TEXT: "ROOT"}]. *)
Definition root_entry : entry :=
mk_entry (Some (VStr "0")) (Some (VStr "ROOT"))
         None None None None None None None None None.

(** The Word that [Word(root_entry)] builds. *)
Definition ROOT : Word.t :=
Word.mk (VStr "0") (VStr "ROOT") VNone VNone VNone VNone VNone VNone VNone
        VNone VNone.

(** The governor that [build_dependencies] finds for [w] among [ws]. *)
Definition governor (ws : list Word.t) (w : Word.t) : result Word.t :=
h <- py_int (Word.head w) ;;
if h =? 0 then Word.init root_entry
else
  match py_index ws (h - 1) with
  | None => Raise IndexError
  | Some g =>
      h' <- py_int (Word.head w) ;;
      i <- py_int (Word.id g) ;;
      assert! (h' =? i) ;;
      Ok g
  end.

(** The loop of [build_dependencies] over the Words still to visit; an
  exception leaves the edges appended so far. *)
Fixpoint build_from (todo : list Word.t) (s : t) : t * result unit :=
match todo with
| [] => (s, Ok tt)
| w :: todo' =>
    match governor (words s) w with
    | Raise x => (s, Raise x)
    | Ok g =>
        build_from todo'
          (set_dependencies (dependencies s ++ [(g, Word.deprel w, w)]) s)
    end
end.

Definition build_dependencies (s : t) : t * result unit :=
build_from (words s) (set_dependencies [] s).

(** [tokens[-1].words.append(w)]. *)
Fixpoint append_to_last (w : Word.t) (ks : list Token.t) : option (list Token.t) :=
match ks with
| [] => None
| [k] => Some [Token.set_words (Token.words k ++ [w]) k]
| k :: ks' => option_map (cons k) (append_to_last w ks')
end.

(** [n] of [_process_tokens]: whether the [misc] of the entry carries the
  marker. *)
Definition misc_match (e : entry) : result bool :=
match entry_get MISC e with
| VNone => Ok false
| VStr m => Ok (multi_word_token_misc m)
| _ => Raise TypeError
end.

(** One turn of the loop of [_process_tokens] on the entry at position [i].
  [en] is the end of the last range seen ([st] is assigned by the code
  and never read); the new [en] is returned.  The dictionary is read
  after [entry[ID] = str(i+1)], where that applies. *)
Definition step (i : nat) (e0 : entry) (en : Z) (s : t) : t * result Z :=
let e := match e_id e0 with
         | None => entry_set_id (VStr (Str.of_int (Z.of_nat i + 1))) e0
         | Some _ => e0
         end in
match entry_get ID e with
| VStr ident =>
    let m := multi_word_token_id ident in
    match misc_match e with
    | Raise x => (s, Raise x)
    | Ok n =>
        if (match m with Some _ => true | None => false end) || n then
          let en' := match m with Some (_, b) => b | None => en end in
          match Token.init e [] with
          | Raise x => (s, Raise x)
          | Ok k => (set_tokens (tokens s ++ [k]) s, Ok en')
          end
        else
          match Word.init e with
          | Raise x => (s, Raise x)
          | Ok w =>
              let s1 := set_words (words s ++ [w]) s in
              match Str.to_int ident with
              | None => (s1, Raise ValueError)
              | Some idx =>
                  if idx <=? en then
                    match append_to_last w (tokens s1) with
                    | None => (s1, Raise IndexError)
                    | Some ks => (set_tokens ks s1, Ok en)
                    end
                  else
                    match Token.init e [w] with
                    | Raise x => (s1, Raise x)
                    | Ok k => (set_tokens (tokens s1 ++ [k]) s1, Ok en)
                    end
              end
          end
    end
| _ => (s, Raise TypeError)
end.

Fixpoint scan (i : nat) (es : list entry) (en : Z) (s : t) : t * result unit :=
match es with
| [] => (s, Ok tt)
| e :: es' =>
    match step i e en s with
    | (s', Raise x) => (s', Raise x)
    | (s', Ok en') => scan (S i) es' en' s'
    end
end.

Definition has_dependency (w : Word.t) : bool :=
negb (is_None (Word.head w)) && negb (is_None (Word.deprel w)).

(** [sentence._process_tokens(tokens)]: the Sentence afterwards (also when
  an exception stopped the call) and how the call ended. *)
Definition _process_tokens (es : list entry) (self : t) : t * result unit :=
match scan 0 es (-1) (set_words [] (set_tokens [] self)) with
| (s, Raise x) => (s, Raise x)
| (s, Ok _) =>
    let is_complete_dependencies := forallb has_dependency (words s) in
    match py_last (words s) with
    | None => (s, Raise IndexError)
    | Some w =>
        match py_int (Word.id w) with
        | Raise x => (s, Raise x)
        | Ok n =>
            let is_complete_words := Z.of_nat (List.length (words s)) =? n in
            if is_complete_dependencies && is_complete_words
            then build_dependencies s
            else (s, Ok tt)
        end
    end
end.

Definition blank : t := mk [] [] [] None.

(** [Sentence(tokens)]. *)
Definition init (es : list entry) : result t :=
match _process_tokens es blank with
| (s, Ok _) => Ok s
| (_, Raise x) => Raise x
end.

End Sentence.

(** ** Span *)

(** A reference to a Word of a Document: the number of its Sentence and its
    position in [sentence.words], both counted from zero. *)
Definition wref : Type := (nat * nat)%type.

(** A Word met by a scan of the Document: where it is, the Word, and the
    Token that [word.parent] refers to. *)
Record located : Type := mk_located {
  l_ref : wref;
  l_word : Word.t;
  l_parent : Token.t
}.

Module Span.

Record t : Type := mk {
text : string;
type : string;
start_char : option Z;
end_char : option Z;
words : list wref
}.

(** [Span(words=ws, type=ty, doc=doc)], where [doc_text] is [doc.text]:
  the path through [init_from_words]. *)
Definition init (ws : list located) (ty : option string)
              (doc_text : option string) : result t :=
assert! (match ty with Some _ => true | None => false end) ;;
match ws, py_last ws, ty with
| first :: _, Some last, Some ty' =>
    let a := Token.start_char (l_parent first) in
    let b := Token.end_char (l_parent last) in
    match doc_text with
    | None => Raise TypeError
    | Some txt => Ok (mk (Str.slice txt a b) ty' a b (map l_ref ws))
    end
| _, _, _ => Raise AssertionError
end.

End Span.

(** ** Document *)

Module Document.

Record t : Type := mk {
sentences : list Sentence.t;
text : option string;
num_words : Z;
ents : list Span.t
}.

Definition set_sentences (ss : list Sentence.t) (d : t) : t :=
mk ss (text d) (num_words d) (ents d).
Definition set_num_words (n : Z) (d : t) : t :=
mk (sentences d) (text d) n (ents d).
Definition set_ents (es : list Span.t) (d : t) : t :=
mk (sentences d) (text d) (num_words d) es.

(** [sum([len(sentence.words) for sentence in self.sentences])]. *)
Definition count_words (ss : list Sentence.t) : Z :=
fold_right (fun s n => Z.of_nat (List.length (Sentence.words s)) + n) 0 ss.

(** The second half of the body of the loop of [_process_sentences]: the
  Sentence just appended gets its text when the offsets are known. *)
Definition with_text (doc_text : option string) (s : Sentence.t)
: result Sentence.t :=
match Sentence.tokens s, py_last (Sentence.tokens s) with
| k0 :: _, Some k1 =>
    match doc_text, Token.start_char k0, Token.end_char k1 with
    | Some txt, Some a, Some b =>
        Ok (Sentence.set_text (Some (Str.slice txt (Some a) (Some b))) s)
    | _, _, _ => Ok s
    end
| _, _ => Raise IndexError
end.

Fixpoint append_sentences (ess : list (list entry)) (d : t) : t * result unit :=
match ess with
| [] => (d, Ok tt)
| es :: ess' =>
    match Sentence.init es with
    | Raise x => (d, Raise x)
    | Ok s =>
        match with_text (text d) s with
        | Raise x => (set_sentences (sentences d ++ [s]) d, Raise x)
        | Ok s' => append_sentences ess' (set_sentences (sentences d ++ [s']) d)
        end
    end
end.

(** [doc._process_sentences(sentences)]. *)
Definition _process_sentences (ess : list (list entry)) (d : t) : t * result unit :=
match append_sentences ess (set_sentences [] d) with
| (d', Raise x) => (d', Raise x)
| (d', Ok _) => (set_num_words (count_words (sentences d')) d', Ok tt)
end.

(** [Document(sentences, text)]. *)
Definition init (ess : list (list entry)) (txt : option string) : result t :=
match _process_sentences ess (mk [] txt 0 []) with
| (d, Ok _) => Ok (set_ents [] d)
| (_, Raise x) => Raise x
end.

(** [doc.to_dict()]. *)
Definition to_dict (d : t) : list (list entry) :=
map Sentence.to_dict (sentences d).

(** The entry that [get] produces for one Word. *)
Definition project (fields : list field) (w : Word.t) : value :=
match fields with
| [f] => Word.getattr f w
| _ => VSeq (map (fun f => Word.getattr f w) fields)
end.

(** [doc.get(fields, as_sentences=True)]. *)
Definition get_as_sentences (fields : list field) (d : t)
: result (list (list value)) :=
assert! (1 <=? List.length fields)%nat ;;
Ok (map (fun s => map (project fields) (Sentence.words s)) (sentences d)).

(** [doc.get(fields)]. *)
Definition get (fields : list field) (d : t) : result (list value) :=
r <- get_as_sentences fields d ;; Ok (List.concat r).

(** Iterating over a value, as [zip] does with [contents[cidx]]. *)
Definition iterate (v : value) : result (list value) :=
match v with
| VSeq l => Ok l
| VStr x => Ok (map (fun c => VStr (String c EmptyString)) (list_ascii_of_string x))
| VNone | VInt _ => Raise TypeError
end.

Fixpoint write_pairs (fcs : list (field * value)) (w : Word.t) : result Word.t :=
match fcs with
| [] => Ok w
| (f, c) :: fcs' => w' <- Word.setattr f c w ;; write_pairs fcs' w'
end.

(** The body of the inner loop of [set] for one Word and its content. *)
Definition write (fields : list field) (content : value) (w : Word.t)
: result Word.t :=
match fields with
| [f] => Word.setattr f content w
| _ => cs <- iterate content ;; write_pairs (combine fields cs) w
end.

(** The inner loop of [set]; the contents still to be read stand for
  [cidx], and running out of them is the [IndexError] of
  [contents[cidx]]. *)
Fixpoint write_words (fields : list field) (cs : list value) (ws : list Word.t)
{struct ws} : result (list Word.t * list value) :=
match ws with
| [] => Ok ([], cs)
| w :: ws' =>
    match cs with
    | [] => Raise IndexError
    | c :: cs' =>
        w' <- write fields c w ;;
        r <- write_words fields cs' ws' ;;
        Ok (w' :: fst r, snd r)
    end
end.

(** The Words of [sentence.words] are the objects held by the Tokens, so
  a write to one is seen through the other: the Tokens take the written
  Words back, position by position. *)
Fixpoint share (ks : list Token.t) (ws : list Word.t) : list Token.t :=
match ks with
| [] => []
| k :: ks' =>
    let n := List.length (Token.words k) in
    Token.set_words (firstn n ws) k :: share ks' (skipn n ws)
end.

Fixpoint write_sentences (fields : list field) (cs : list value)
                       (ss : list Sentence.t) : result (list Sentence.t) :=
match ss with
| [] => Ok []
| s :: ss' =>
    r <- write_words fields cs (Sentence.words s) ;;
    let s' := Sentence.set_tokens (share (Sentence.tokens s) (fst r))
                (Sentence.set_words (fst r) s) in
    ss'' <- write_sentences fields (snd r) ss' ;;
    Ok (s' :: ss'')
end.

(** [doc.set(fields, contents)]: the Document after a call that returned.
  What a call that raised has already written is not kept. *)
Definition set (fields : list field) (contents : list value) (d : t) : result t :=
assert! (1 <=? List.length fields)%nat ;;
assert! (num_words d =? Z.of_nat (List.length contents)) ;;
ss <- write_sentences fields contents (sentences d) ;;
Ok (set_sentences ss d).

(** *** Multi-word tokens *)

(** [m or n]: whether the id of the Token is a range or its [misc]
  carries the marker. *)
Definition is_mwt (k : Token.t) : result bool :=
match Token.id k with
| VStr ident =>
    let m := match multi_word_token_id ident with Some _ => true | None => false end in
    match Token.misc k with
    | VNone => Ok m
    | VStr x => Ok (m || multi_word_token_misc x)
    | _ => Raise TypeError
    end
| _ => Raise TypeError
end.

(** [[x for x in e.split(' ') if len(x) > 0]]. *)
Definition expansion_words (e : string) : list string :=
filter (fun x => negb (String.eqb x "")) (Str.split " " e).

(** The new [misc] of an expanded Token, before the setter. *)
Definition strip_marker (v : value) : result value :=
match v with
| VStr x =>
    if String.eqb x "MWT=Yes" then Ok VNone
    else Ok (VStr (Str.join "|"
               (filter (fun i => negb (String.eqb i "MWT=Yes")) (Str.split "|" x))))
| _ => Raise AttributeError
end.

(** [Word({ID: str(idx_w + i), TEXT: e_word})] for every [e_word]. *)
Fixpoint fresh_words (idx : Z) (texts : list string) : result (list Word.t) :=
match texts with
| [] => Ok []
| x :: texts' =>
    w <- Word.init (mk_entry (Some (VStr (Str.of_int idx))) (Some (VStr x))
                      None None None None None None None None None) ;;
    ws <- fresh_words (idx + 1) texts' ;;
    Ok (w :: ws)
end.

(** [word.id = str(idx_w); word.head, word.deprel = None, None]. *)
Definition renumber (idx_w : Z) (w : Word.t) : Word.t :=
Word.store DEPREL VNone (Word.store HEAD VNone (Word.store ID (VStr (Str.of_int idx_w)) w)).

(** What the loop over the Tokens of a Sentence does to one of them. *)
Record expanded : Type := mk_expanded {
x_token : Token.t;          (* the Token afterwards *)
x_old_words : list Word.t;  (* the Words it held before, as they are afterwards *)
x_idx_w : Z;
x_idx_e : nat
}.

(** The body of the loop for one Token; [idx_w] has been incremented.
  Every exception comes before the first write to the Token. *)
Definition expand_token (expansions : list string) (idx_w : Z) (idx_e : nat)
                      (k : Token.t) : result expanded :=
mwt <- is_mwt k ;;
if negb mwt then
  let ws := map (renumber idx_w) (Token.words k) in
  Ok (mk_expanded (Token.set_words ws k) ws idx_w idx_e)
else
  match nth_error expansions idx_e with
  | None => Raise IndexError
  | Some e =>
      let expanded := expansion_words e in
      let idx_w_end := idx_w + Z.of_nat (List.length expanded) - 1 in
      misc' <- strip_marker (Token.misc k) ;;
      ws <- fresh_words idx_w expanded ;;
      let ident := VStr (Str.of_int idx_w ++ "-" ++ Str.of_int idx_w_end) in
      Ok (mk_expanded
            (Token.set_words ws (Token.set_id ident (Token.set_misc misc' k)))
            (Token.words k) idx_w_end (S idx_e))
  end.

(** The loop over the Tokens of one Sentence: the Tokens and the old Words
  ([sentence.words] still lists them) afterwards, [idx_e], and how the
  loop ended. *)
Fixpoint expand_tokens (expansions : list string) (idx_w : Z) (idx_e : nat)
                     (ks : list Token.t)
: list Token.t * list Word.t * nat * result unit :=
match ks with
| [] => ([], [], idx_e, Ok tt)
| k :: ks' =>
    match expand_token expansions (idx_w + 1) idx_e k with
    | Raise x => (ks, flat_map Token.words ks, idx_e, Raise x)
    | Ok r =>
        let '(ks'', ws'', e, out) :=
          expand_tokens expansions (x_idx_w r) (x_idx_e r) ks' in
        (x_token r :: ks'', (x_old_words r ++ ws'')%list, e, out)
    end
end.

(** The body of the outer loop: one Sentence is rewritten and processed
  again from its own dictionaries. *)
Definition expand_sentence (expansions : list string) (idx_e : nat)
                         (s : Sentence.t) : Sentence.t * nat * result unit :=
let '(ks, ws, e, out) := expand_tokens expansions 0 idx_e (Sentence.tokens s) in
let s1 := Sentence.set_words ws (Sentence.set_tokens ks s) in
match out with
| Raise x => (s1, e, Raise x)
| Ok _ =>
    let (s2, out2) := Sentence._process_tokens (Sentence.to_dict s1) s1 in
    (s2, e, out2)
end.

Fixpoint expand_sentences (expansions : list string) (idx_e : nat)
                        (ss : list Sentence.t)
: list Sentence.t * nat * result unit :=
match ss with
| [] => ([], idx_e, Ok tt)
| s :: ss' =>
    match expand_sentence expansions idx_e s with
    | (s', e, Raise x) => (s' :: ss', e, Raise x)
    | (s', e, Ok _) =>
        let '(ss'', e', out) := expand_sentences expansions e ss' in
        (s' :: ss'', e', out)
    end
end.

(** [doc.set_mwt_expansions(expansions)]: the Document afterwards (also
  when an exception stopped the call) and how the call ended. *)
Definition set_mwt_expansions (expansions : list string) (d : t) : t * result unit :=
let '(ss, idx_e, out) := expand_sentences expansions 0 (sentences d) in
let d1 := set_sentences ss d in
match out with
| Raise x => (d1, Raise x)
| Ok _ =>
    match _process_sentences (to_dict d1) d1 with
    | (d2, Raise x) => (d2, Raise x)
    | (d2, Ok _) =>
        if (idx_e =? List.length expansions)%nat then (d2, Ok tt)
        else (d2, Raise AssertionError)
    end
end.

(** [' '.join([word.text for word in token.words])]. *)
Fixpoint texts (ws : list Word.t) : result (list string) :=
match ws with
| [] => Ok []
| w :: ws' =>
    match Word.text w with
    | VStr x => xs <- texts ws' ;; Ok (x :: xs)
    | _ => Raise TypeError
    end
end.

Fixpoint token_expansions (ks : list Token.t) : result (list (value * string)) :=
match ks with
| [] => Ok []
| k :: ks' =>
    mwt <- is_mwt k ;;
    if mwt then
      xs <- texts (Token.words k) ;;
      r <- token_expansions ks' ;;
      Ok ((Token.text k, Str.join " " xs) :: r)
    else token_expansions ks'
end.

(** [doc.get_mwt_expansions(evaluation=False)]: the pairs [[src, dst]]. *)
Definition get_mwt_expansions (d : t) : result (list (value * string)) :=
token_expansions (flat_map Sentence.tokens (sentences d)).

(** [doc.get_mwt_expansions(evaluation=True)]. *)
Definition get_mwt_expansions_evaluation (d : t) : result (list value) :=
r <- get_mwt_expansions d ;; Ok (map fst r).

(** *** Entities *)

(** [word.parent] for every Word of [sentence.words]: the Token whose list
  holds the Word. *)
Definition parents (s : Sentence.t) : list Token.t :=
flat_map (fun k => map (fun _ => k) (Token.words k)) (Sentence.tokens s).

(** The Words of Sentence number [si] as a scan meets them.  A Sentence
  whose two lists of Words have come apart (a call of
  [set_mwt_expansions] that raised half-way leaves such a Sentence) is
  outside the model. *)
Definition locate (si : nat) (s : Sentence.t) : result (list located) :=
let ws := Sentence.words s in
let ps := parents s in
if (List.length ws =? List.length ps)%nat then
  Ok (map (fun x => mk_located (si, fst x) (fst (snd x)) (snd (snd x)))
          (combine (seq 0 (List.length ws)) (combine ws ps)))
else Raise Unmodelled.

(** The variables of [build_ents]: [self.ents], [ent_words], [cur_type]. *)
Record scan : Type := mk_scan {
found : list Span.t;
ent_words : list located;
cur_type : option string
}.

Definition set_ent_words (ws : list located) (st : scan) : scan :=
mk_scan (found st) ws (cur_type st).
Definition set_cur_type (ty : string) (st : scan) : scan :=
mk_scan (found st) (ent_words st) (Some ty).

(** The inner function [flush]. *)
Definition flush (doc_text : option string) (st : scan) : scan * result unit :=
match ent_words st with
| [] => (st, Ok tt)
| _ =>
    match Span.init (ent_words st) (cur_type st) doc_text with
    | Raise x => (st, Raise x)
    | Ok sp => (mk_scan (found st ++ [sp]) (ent_words st) (cur_type st), Ok tt)
    end
end.

(** [flush()] and then the rest of the branch. *)
Definition flush_then (doc_text : option string) (st : scan)
                    (k : scan -> scan * result unit) : scan * result unit :=
match flush doc_text st with
| (st', Raise x) => (st', Raise x)
| (st', Ok _) => k st'
end.

(** The body of the inner loop of [build_ents] for one Word. *)
Definition tag (doc_text : option string) (w : located) (st : scan)
: scan * result unit :=
match Word.ner (l_word w) with
| VNone => (st, Ok tt)
| VStr ner =>
    if String.eqb ner "O" then
      flush_then doc_text st (fun st1 => (set_ent_words [] st1, Ok tt))
    else if Str.startswith "B-" ner then
      flush_then doc_text st (fun st1 =>
        (set_cur_type (Str.drop 2 ner) (set_ent_words [w] st1), Ok tt))
    else if Str.startswith "I-" ner then
      (set_cur_type (Str.drop 2 ner) (set_ent_words (ent_words st ++ [w]) st), Ok tt)
    else if Str.startswith "E-" ner then
      flush_then doc_text
        (set_cur_type (Str.drop 2 ner) (set_ent_words (ent_words st ++ [w]) st))
        (fun st1 => (set_ent_words [] st1, Ok tt))
    else if Str.startswith "S-" ner then
      flush_then doc_text st (fun st1 =>
        flush_then doc_text
          (set_cur_type (Str.drop 2 ner) (set_ent_words [w] st1))
          (fun st2 => (set_ent_words [] st2, Ok tt)))
    else (st, Ok tt)
| VInt _ | VSeq _ => (st, Raise AttributeError)
end.

Fixpoint tag_words (doc_text : option string) (ws : list located) (st : scan)
: scan * result unit :=
match ws with
| [] => (st, Ok tt)
| w :: ws' =>
    match tag doc_text w st with
    | (st', Raise x) => (st', Raise x)
    | (st', Ok _) => tag_words doc_text ws' st'
    end
end.

(** The body of the outer loop: the Words of one Sentence, then the flush
  that ends the Sentence. *)
Definition tag_sentence (doc_text : option string) (si : nat) (s : Sentence.t)
                      (st : scan) : scan * result unit :=
match locate si s with
| Raise x => (st, Raise x)
| Ok ws =>
    match tag_words doc_text ws st with
    | (st', Raise x) => (st', Raise x)
    | (st', Ok _) =>
        flush_then doc_text st' (fun st1 => (set_ent_words [] st1, Ok tt))
    end
end.

Fixpoint tag_sentences (doc_text : option string) (si : nat)
                     (ss : list Sentence.t) (st : scan) : scan * result unit :=
match ss with
| [] => (st, Ok tt)
| s :: ss' =>
    match tag_sentence doc_text si s st with
    | (st', Raise x) => (st', Raise x)
    | (st', Ok _) => tag_sentences doc_text (S si) ss' st'
    end
end.

(** [doc.build_ents()]: the Document afterwards and the number returned. *)
Definition build_ents (d : t) : t * result Z :=
match tag_sentences (text d) 0 (sentences d) (mk_scan [] [] None) with
| (st, Raise x) => (set_ents (found st) d, Raise x)
| (st, Ok _) => (set_ents (found st) d, Ok (Z.of_nat (List.length (found st))))
end.

(** [doc.iter_words()] and [doc.iter_tokens()], as the lists of what the
    generators yield. *)
Definition iter_words (d : t) : list Word.t :=
  flat_map Sentence.words (sentences d).

Definition iter_tokens (d : t) : list Token.t :=
  flat_map Sentence.tokens (sentences d).

End Document.

(** ** Auxiliary definitions of the proofs *)

(** Every character of [s] satisfies [p]. *)
Fixpoint all_chars (p : ascii -> bool) (s : string) : bool :=
  match s with
  | EmptyString => true
  | String c s' => p c && all_chars p s'
  end.

(** The number that the decimal digits [u] denote after the digits already
    read, which denote [acc]. *)
Fixpoint uint_val (acc : Z) (u : Decimal.uint) : Z :=
  match u with
  | Decimal.Nil => acc
  | Decimal.D0 u' => uint_val (10 * acc + 0) u'
  | Decimal.D1 u' => uint_val (10 * acc + 1) u'
  | Decimal.D2 u' => uint_val (10 * acc + 2) u'
  | Decimal.D3 u' => uint_val (10 * acc + 3) u'
  | Decimal.D4 u' => uint_val (10 * acc + 4) u'
  | Decimal.D5 u' => uint_val (10 * acc + 5) u'
  | Decimal.D6 u' => uint_val (10 * acc + 6) u'
  | Decimal.D7 u' => uint_val (10 * acc + 7) u'
  | Decimal.D8 u' => uint_val (10 * acc + 8) u'
  | Decimal.D9 u' => uint_val (10 * acc + 9) u'
  end.

(** ** Predicates used by the statements *)

(** Every Word of the Span is a Word of Sentence number [si]. *)
Definition span_within (si : nat) (sp : Span.t) : Prop :=
  Forall (fun r : wref => fst r = si) (Span.words sp).

(** The Span has a Word, and its Words come from one Sentence. *)
Definition single_sentence (sp : Span.t) : Prop :=
  Span.words sp <> [] /\ exists si, span_within si sp.

(** The entities found so far are well-formed and the entity in progress
    lies in Sentence number [si]. *)
Definition scan_inv (si : nat) (st : Document.scan) : Prop :=
  Forall single_sentence (Document.found st)
  /\ Forall (fun w => fst (l_ref w) = si) (Document.ent_words st).

(** Between two Sentences no entity is in progress. *)
Definition scan_idle (st : Document.scan) : Prop :=
  Forall single_sentence (Document.found st) /\ Document.ent_words st = [].

(** A value that the setter of field [f] stores as it is: anything for
    [id] and [text], [None] or an [int] for [head], anything but the
    placeholder ['_'] for the other fields. *)
Definition storable (f : field) (v : value) : bool :=
  match f with
  | ID | TEXT => true
  | HEAD => match v with VNone | VInt _ => true | _ => false end
  | _ => negb (match v with VStr x => String.eqb x "_" | _ => false end)
  end.

Fixpoint storable_row (fs : list field) (row : list value) : bool :=
  match fs, row with
  | [], [] => true
  | f :: fs', v :: row' => storable f v && storable_row fs' row'
  | _, _ => false
  end.

(** The content for one Word, as [set] expects it for the field list [fs]:
    a storable value for a single field, a sequence of as many storable
    values as there are fields otherwise. *)
Definition fits (fs : list field) (c : value) : bool :=
  match fs with
  | [f] => storable f c
  | _ => match c with VSeq row => storable_row fs row | _ => false end
  end.

(** No field name occurs twice. *)
Fixpoint distinct (fs : list field) : bool :=
  match fs with
  | [] => true
  | f :: fs' => negb (existsb (field_eqb f) fs') && distinct fs'
  end.

(** [num_words] is the number of Words the Sentences hold. *)
Definition counted (d : Document.t) : Prop :=
  Document.num_words d = Document.count_words (Document.sentences d).

(** ** Regular input *)

(** The entries of a Sentence, grouped the way [_process_tokens] groups
    them: an entry that becomes a Token with its one Word, or the entry of
    a multi-word token followed by the entries of its Words. *)
Inductive group : Type :=
| Single (e : entry)
| Multi (tok : entry) (ws : list entry).

Definition entries_of (g : group) : list entry :=
  match g with
  | Single e => [e]
  | Multi t ws => t :: ws
  end.

Definition flatten (gs : list group) : list entry := flat_map entries_of gs.

(** A key of a [misc] item that names an attribute of a Word or of a Token
    or reaches the internals of the object. *)
Definition private_key (key : string) : bool :=
  (match Word.attr_of_key key with Some _ => true | None => false end)
  || String.eqb key "words" || reaches_internals key.

(** A [misc] item that overrides nothing: it has at most one [=], its key
    is not a private one, and an offset it gives is a number. *)
Definition inert_item (item : string) : bool :=
  match parse_item item with
  | Skip => true
  | Unpack_fails => false
  | Pair key val =>
      negb (private_key key)
      && (if String.eqb key "start_char" || String.eqb key "end_char"
          then match Str.to_int val with Some _ => true | None => false end
          else true)
  end.

Definition inert_misc (v : value) : bool :=
  match v with
  | VNone => true
  | VStr m => forallb inert_item (Str.split "|" m)
  | _ => false
  end.

(** The [misc] carries the multi-word marker. *)
Definition marked (v : value) : bool :=
  match v with
  | VStr m => multi_word_token_misc m
  | _ => false
  end.

(** A [head] that the setter accepts. *)
Definition head_ok (v : value) : bool := _is_null v || is_ok (py_int v).

(** The number of a regular Word entry: the id is a numeral and not a
    range, the text is there, the [misc] is inert and unmarked, the head is
    acceptable. *)
Definition word_index (e : entry) : option Z :=
  match e_id e with
  | Some (VStr ident) =>
      match multi_word_token_id ident with
      | Some _ => None
      | None =>
          if truthy (entry_get TEXT e) && inert_misc (entry_get MISC e)
             && negb (marked (entry_get MISC e)) && head_ok (entry_get HEAD e)
          then Str.to_int ident
          else None
      end
  | _ => None
  end.

(** The end of range after a regular entry of a multi-word token, where
    [en] is the one before: the id and the text are there, the [misc] is
    inert, and the id is a range or the [misc] is marked. *)
Definition shell_end (en : Z) (e : entry) : option Z :=
  match e_id e with
  | Some (VStr ident) =>
      if truthy (VStr ident) && truthy (entry_get TEXT e)
         && inert_misc (entry_get MISC e)
      then
        match multi_word_token_id ident with
        | Some (_, b) => Some b
        | None => if marked (entry_get MISC e) then Some en else None
        end
      else None
  | _ => None
  end.

(** A regular Word entry whose number lies within the open range. *)
Definition attached (en : Z) (e : entry) : bool :=
  match word_index e with
  | Some idx => idx <=? en
  | None => false
  end.

(** Regular groups, [en] being the end of the last range seen: a single
    entry has a number beyond [en]; a multi-word token has no Word or
    several, each with a number within its range. *)
Fixpoint regular (en : Z) (gs : list group) : bool :=
  match gs with
  | [] => true
  | Single e :: gs' =>
      match word_index e with
      | Some idx => (en <? idx) && regular en gs'
      | None => false
      end
  | Multi t ws :: gs' =>
      match shell_end en t with
      | Some en' =>
          negb (List.length ws =? 1)%nat && forallb (attached en') ws
          && regular en' gs'
      | None => false
      end
  end.

(** The [head] and the [lemma] that the setters store. *)
Definition normal_head (v : value) : value :=
  if _is_null v then VNone
  else match py_int v with Ok z => VInt z | Raise _ => VNone end.

Definition normal_lemma (text v : value) : value :=
  if negb (_is_null v)
     || (match text with VStr x => String.eqb x "_" | _ => false end)
  then v else VNone.

(** The Word of a regular Word entry. *)
Definition word_of (e : entry) : Word.t :=
  Word.mk (entry_get ID e) (entry_get TEXT e)
          (normal_lemma (entry_get TEXT e) (entry_get LEMMA e))
          (unless_null (entry_get UPOS e)) (unless_null (entry_get XPOS e))
          (unless_null (entry_get FEATS e)) (normal_head (entry_get HEAD e))
          (unless_null (entry_get DEPREL e)) (unless_null (entry_get DEPS e))
          (unless_null (entry_get MISC e)) (unless_null (entry_get NER e)).

(** The Token of a regular entry, holding the Words [ws]. *)
Definition token_of (e : entry) (ws : list Word.t) : Token.t :=
  match Token.init e ws with
  | Ok k => k
  | Raise _ => Token.mk VNone VNone VNone ws None None
  end.

Definition token_of_group (g : group) : Token.t :=
  match g with
  | Single e => token_of e [word_of e]
  | Multi t ws => token_of t (map word_of ws)
  end.

Definition words_of_group (g : group) : list Word.t :=
  match g with
  | Single e => [word_of e]
  | Multi _ ws => map word_of ws
  end.

(** The dictionaries that [to_dict] gives back for a group. *)
Definition canon (g : group) : group :=
  match g with
  | Single e => Single (Word.to_dict (word_of e))
  | Multi t ws =>
      Multi (Token.own_dict (token_of t []))
            (map (fun e => Word.to_dict (word_of e)) ws)
  end.

(** The dictionaries of the Words that [set_mwt_expansions] makes for the
    texts of one expansion, numbered from [idx]. *)
Fixpoint fresh_entries (idx : Z) (texts : list string) : list entry :=
  match texts with
  | [] => []
  | x :: texts' =>
      mk_entry (Some (VStr (Str.of_int idx))) (Some (VStr x))
               None None None None None None None None None
      :: fresh_entries (idx + 1) texts'
  end.

(** The destination that [get_mwt_expansions] reports for an expansion. *)
Definition joined (e : string) : string :=
  Str.join " " (Document.expansion_words e).

(** The texts of the multi-word tokens among regular groups. *)
Definition sources (gs : list group) : list value :=
  flat_map (fun g => match g with
                     | Single _ => []
                     | Multi t _ => [entry_get TEXT t]
                     end) gs.

(** Sentence [s] holds the Tokens of the regular groups [gs]. *)
Definition holds (s : Sentence.t) (gs : list group) : Prop :=
  regular (-1) gs = true /\ Sentence.tokens s = map token_of_group gs.

(** The Words of the Sentence are those of its Tokens, in order. *)
Definition consistent (s : Sentence.t) : Prop :=
  Sentence.words s = flat_map Token.words (Sentence.tokens s).

(** The text that [_process_sentences] gives a Sentence of a Document with
    raw text [txt]. *)
Definition sliced (txt : option string) (s : Sentence.t) : option string :=
  match txt, Sentence.tokens s, py_last (Sentence.tokens s) with
  | Some x, k0 :: _, Some k1 =>
      match Token.start_char k0, Token.end_char k1 with
      | Some a, Some b => Some (Str.slice x (Some a) (Some b))
      | _, _ => None
      end
  | _, _, _ => None
  end.

(** Edge [e] is the edge of Word [w] in a graph over the Words [ws]: its
    dependent is [w], its relation that of [w], and its governor the
    synthetic root when the head of [w] is 0, the Word at position
    [head - 1] otherwise, whose id is the head. *)
Definition edge_of (ws : list Word.t) (w : Word.t) (e : Sentence.edge) : Prop :=
  snd e = w
  /\ snd (fst e) = Word.deprel w
  /\ ((py_int (Word.head w) = Ok 0 /\ fst (fst e) = Sentence.ROOT)
      \/ (exists h, py_int (Word.head w) = Ok h /\ h <> 0
                    /\ py_index ws (h - 1) = Some (fst (fst e))
                    /\ py_int (Word.id (fst (fst e))) = Ok h)).

(** The entry as the loop of [_process_tokens] reads it at position [i]:
    an entry without id has been given the number [i + 1] for id. *)
Definition number (i : nat) (e : entry) : entry :=
  match e_id e with
  | None => entry_set_id (VStr (Str.of_int (Z.of_nat i + 1))) e
  | Some _ => e
  end.

Fixpoint numbered (i : nat) (es : list entry) : list entry :=
  match es with
  | [] => []
  | e :: es' => number i e :: numbered (S i) es'
  end.

(** A Word entry that gives no id: the text is there, the [misc] is inert
    and unmarked, the head is acceptable. *)
Definition anonymous (e : entry) : bool :=
  match e_id e with
  | None =>
      truthy (entry_get TEXT e) && inert_misc (entry_get MISC e)
      && negb (marked (entry_get MISC e)) && head_ok (entry_get HEAD e)
  | Some _ => false
  end.

(** The content iterates to at most [n] values. *)
Definition short (n : nat) (c : value) : Prop :=
  exists row, Document.iterate c = Ok row /\ (List.length row <= n)%nat.

(** The Word that a reference points at. *)
Definition word_at (d : Document.t) (r : wref) : option Word.t :=
  match nth_error (Document.sentences d) (fst r) with
  | Some s => nth_error (Sentence.words s) (snd r)
  | None => None
  end.

(** The entity type that the tag of a Word names: the tag without its
    prefix, for a tag that starts with [B-], [I-], [E-] or [S-]. *)
Definition chunk_type (w : Word.t) : option string :=
  match Word.ner w with
  | VStr ner =>
      if String.eqb ner "O" then None
      else if Str.startswith "B-" ner || Str.startswith "I-" ner
              || Str.startswith "E-" ner || Str.startswith "S-" ner
           then Some (Str.drop 2 ner)
           else None
  | _ => None
  end.

(** Every Word of the Span carries a tag that names a type, and the type
    of the Span is the one that the tag of its last Word names. *)
Definition typed_by_last (d : Document.t) (sp : Span.t) : Prop :=
  Forall (fun r => exists w ty, word_at d r = Some w /\ chunk_type w = Some ty)
         (Span.words sp)
  /\ exists r w, py_last (Span.words sp) = Some r /\ word_at d r = Some w
                 /\ chunk_type w = Some (Span.type sp).

(** The Word that a scan met is the one at its reference, and its tag
    names a type. *)
Definition chunked (d : Document.t) (w : located) : Prop :=
  word_at d (l_ref w) = Some (l_word w)
  /\ exists ty, chunk_type (l_word w) = Some ty.

(** The entities found so far are typed by their last Word, and so is the
    entity in progress. *)
Definition scan_typed (d : Document.t) (st : Document.scan) : Prop :=
  Forall (typed_by_last d) (Document.found st)
  /\ Forall (chunked d) (Document.ent_words st)
  /\ (forall w, py_last (Document.ent_words st) = Some w ->
                Document.cur_type st = chunk_type (l_word w)).

(** The Word has no head and no relation. *)
Definition headless (w : Word.t) : Prop :=
  Word.head w = VNone /\ Word.deprel w = VNone.

(** The dictionary gives no head and no relation. *)
Definition bare_entry (e : entry) : Prop :=
  entry_get HEAD e = VNone /\ entry_get DEPREL e = VNone.

(** No item of the [misc] of the entry has the key [words]: a Token made
    from the entry keeps a list for its Words. *)
Definition keeps_word_list (e : entry) : bool :=
  match entry_get MISC e with
  | VStr m =>
      forallb (fun item => match parse_item item with
                           | Pair key _ => negb (String.eqb key "words")
                           | _ => true
                           end)
              (Str.split "|" m)
  | _ => true
  end.

(** The fields whose setter only maps the placeholder to [None]. *)
Definition optional (f : field) : bool :=
  match f with
  | UPOS | XPOS | FEATS | DEPREL | DEPS | MISC | NER => true
  | ID | TEXT | LEMMA | HEAD => false
  end.

(** ** Dictionaries and documents used as examples *)

Module Examples.

(** [{'id': i, 'text': t}]. *)
Definition plain (i t : string) : entry :=
mk_entry (Some (VStr i)) (Some (VStr t)) None None None None None None None
         None None.

(** The Word of entry [e] as a scan of the first Sentence meets it at
  position [i], its parent the Token made from the same entry. *)
Definition met (i : nat) (e : entry) : located :=
mk_located (0%nat, i) (word_of e) (token_of e [word_of e]).

(** [{'text': t}]. *)
Definition bare (t : string) : entry :=
mk_entry None (Some (VStr t)) None None None None None None None None None.

(** [{'id': i, 'text': t, 'head': h, 'deprel': r}]. *)
Definition parsed (i t : string) (h : Z) (r : string) : entry :=
mk_entry (Some (VStr i)) (Some (VStr t)) None None None None
         (Some (VInt h)) (Some (VStr r)) None None None.

(** [{'id': i, 'text': t, 'misc': m}]. *)
Definition with_misc (i t m : string) : entry :=
mk_entry (Some (VStr i)) (Some (VStr t)) None None None None None None None
         (Some (VStr m)) None.

(** [{'id': i, 'text': t, 'ner': n}]. *)
Definition tagged (i t n : string) : entry :=
mk_entry (Some (VStr i)) (Some (VStr t)) None None None None None None None
         None (Some (VStr n)).

(** The Sentence or Document of a constructor call that is known to
  return. *)
Definition sentence_of (es : list entry) : Sentence.t :=
match Sentence.init es with Ok s => s | Raise _ => Sentence.blank end.

Definition document_of (ess : list (list entry)) (txt : option string)
: Document.t :=
match Document.init ess txt with
| Ok d => d
| Raise _ => Document.mk [] txt 0 []
end.

(** Three Words with heads 2, 0, 2. *)
Definition she_reads_books : list entry :=
[parsed "1" "She" 2 "nsubj"; parsed "2" "reads" 0 "root";
 parsed "3" "books" 2 "obj"].

(** A name with a middle initial that carries no tag, and the same with
  the initial tagged [O]. *)
Definition kennedy_unset : Document.t :=
document_of [[tagged "1" "John" "B-PER"; plain "2" "F.";
              tagged "3" "Kennedy" "I-PER"]] (Some "John F. Kennedy").

Definition kennedy_O : Document.t :=
document_of [[tagged "1" "John" "B-PER"; tagged "2" "F." "O";
              tagged "3" "Kennedy" "I-PER"]] (Some "John F. Kennedy").

(** A first Sentence that ends inside a location and a second one that
  starts with a continuation tag. *)
Definition two_sentences_LOC : Document.t :=
document_of [[tagged "1" "in" "O"; tagged "2" "Paris" "I-LOC"];
             [tagged "1" "Texas" "I-LOC"; tagged "2" "wins" "O"]]
            (Some "in Paris Texas wins").

(** A parsed one-word Sentence and the same Word without its head. *)
Definition parsed_go : list entry := [parsed "1" "Go" 0 "root"].
Definition unparsed_go : list entry := [plain "1" "Go"].

(** A parsed Sentence followed by one that holds a multi-word token. *)
Definition go_then_du_pain : Document.t :=
document_of [parsed_go; [with_misc "1" "du" "MWT=Yes"; plain "2" "pain"]] None.

(** One-sentence Documents. *)
Definition go : Document.t := document_of [unparsed_go] None.
Definition she_reads : Document.t := document_of [she_reads_books] None.

(** The Document that [set] returns, when it returns. *)
Definition after_set (fs : list field) (cs : list value) (d : Document.t)
: Document.t :=
match Document.set fs cs d with Ok d' => d' | Raise _ => d end.

(** A Sentence whose first token the tokenizer marked as multi-word. *)
Definition du_pain : Document.t :=
document_of [[with_misc "1" "du" "MWT=Yes"; plain "2" "pain"]] None.

(** What can be seen of a Document from outside: for every Sentence the
  ids of its Tokens, the [misc] of its Tokens and the ids, heads and
  relations of its Words; and the word count. *)
Definition outline (d : Document.t)
: list (list value * list value * list (value * value * value)) * Z :=
(map (fun s => (map Token.id (Sentence.tokens s),
                map Token.misc (Sentence.tokens s),
                map (fun w => (Word.id w, Word.head w, Word.deprel w))
                    (Sentence.words s)))
     (Document.sentences d),
 Document.num_words d).

(** Two ranges that overlap, and a Word whose [misc] overrides its own
    [misc] attribute. *)
Definition overlapping_ranges : list (list entry) :=
  [[plain "1-3" "abc"; plain "2-3" "bc"; plain "2" "b"]].

Definition misc_override : list (list entry) :=
  [[with_misc "1" "a" "misc=_"]].

(** A multi-word token with its two Words, then a Word. *)
Definition du_pain_expanded : list (list group) :=
  [[Multi (plain "1-2" "du") [plain "1" "de"; plain "2" "le"];
    Single (plain "3" "pain")]].

(** The numbers of Sentences, Tokens and Words of a Document. *)
Definition sizes (d : Document.t) : nat * nat * Z :=
  (List.length (Document.sentences d),
   List.length (flat_map Sentence.tokens (Document.sentences d)),
   Document.num_words d).

(** The values of field [f] over the Words of a Document. *)
Definition column (f : field) (d : Document.t) : list value :=
  map (Word.getattr f) (flat_map Sentence.words (Document.sentences d)).

(** The entries of [du_pain], grouped. *)
Definition du_pain_groups : list (list group) :=
  [[Multi (with_misc "1" "du" "MWT=Yes") []; Single (plain "2" "pain")]].

End Examples.

(** * Properties *)

(** ** Results *)

Lemma bind_ok {A B : Type} (r : result A) (k : A -> result B) (b : B) :
  bind r k = Ok b -> exists a, r = Ok a /\ k a = Ok b.
Proof. destruct r as [a|x]; simpl; intros H; [eauto | discriminate]. Qed.

Lemma is_ok_false {A : Type} (r : result A) :
  is_ok r = false <-> forall a, r <> Ok a.
Proof.
  destruct r as [a|x]; simpl; split; intros H.
  - discriminate.
  - exfalso; apply (H a); reflexivity.
  - intros a; discriminate.
  - reflexivity.
Qed.

(** ** The [misc] mini-language *)

Lemma length_split_aux c cur s :
  List.length (Str.split_aux c cur s) = S (Str.count c s).
Proof.
  revert cur; induction s as [|a s IH]; intros cur; simpl; [reflexivity|].
  destruct (Ascii.eqb a c); simpl; rewrite IH; reflexivity.
Qed.

Lemma length_split c s : List.length (Str.split c s) = S (Str.count c s).
Proof. apply length_split_aux. Qed.

Lemma parse_item_skip item : parse_item item = Skip <-> Str.count "=" item = O.
Proof.
  unfold parse_item. pose proof (length_split "=" item) as L.
  destruct (Str.split "=" item) as [|a [|b [|c l]]]; simpl in L; split; intros H;
    try discriminate; try lia; try reflexivity.
Qed.

Lemma parse_item_unpack_fails item :
  (2 <= Str.count "=" item)%nat -> parse_item item = Unpack_fails.
Proof.
  unfold parse_item. pose proof (length_split "=" item) as L.
  destruct (Str.split "=" item) as [|a [|b [|c l]]]; simpl in L; intros H;
    try lia; reflexivity.
Qed.

Lemma word_init_items_fail items item w :
  In item items -> parse_item item = Unpack_fails ->
  is_ok (Word.init_items items w) = false.
Proof.
  revert w; induction items as [|i items IH]; intros w Hin Hp; [destruct Hin|].
  simpl. destruct Hin as [->|Hin].
  - unfold Word.init_item. rewrite Hp. reflexivity.
  - destruct (Word.init_item i w) as [w'|x]; simpl; [apply IH; assumption | reflexivity].
Qed.

Lemma token_init_items_fail items item k :
  In item items -> parse_item item = Unpack_fails ->
  is_ok (Token.init_items items k) = false.
Proof.
  revert k; induction items as [|i items IH]; intros k Hin Hp; [destruct Hin|].
  simpl. destruct Hin as [->|Hin].
  - unfold Token.init_item. rewrite Hp. reflexivity.
  - destruct (Token.init_item i k) as [k'|x]; simpl; [apply IH; assumption | reflexivity].
Qed.

(** ** Word construction *)

(** The Word that the eleven assignments of [__init__] build. *)
Lemma word_assign_all e :
  Word.assign e Word.all_fields Word.blank =
  let lem := entry_get LEMMA e in
  let w h := Word.mk (entry_get ID e) (entry_get TEXT e)
      (if negb (_is_null lem)
          || (match entry_get TEXT e with VStr s => String.eqb s "_" | _ => false end)
       then lem else VNone)
      (unless_null (entry_get UPOS e)) (unless_null (entry_get XPOS e))
      (unless_null (entry_get FEATS e)) h
      (unless_null (entry_get DEPREL e)) (unless_null (entry_get DEPS e))
      (unless_null (entry_get MISC e)) (unless_null (entry_get NER e)) in
  if _is_null (entry_get HEAD e) then Ok (w VNone)
  else z <- py_int (entry_get HEAD e) ;; Ok (w (VInt z)).
Proof.
  unfold Word.assign, Word.all_fields. cbn.
  destruct (_is_null (entry_get HEAD e)); cbn; [reflexivity|].
  destruct (py_int (entry_get HEAD e)); reflexivity.
Qed.

Lemma word_assign_misc e w :
  Word.assign e Word.all_fields Word.blank = Ok w ->
  Word.misc w = unless_null (entry_get MISC e).
Proof.
  rewrite word_assign_all. cbv zeta.
  destruct (_is_null (entry_get HEAD e)).
  - intros [= <-]; reflexivity.
  - destruct (py_int (entry_get HEAD e)); simpl; [intros [= <-]; reflexivity | discriminate].
Qed.

Lemma unless_null_marked m item :
  In item (Str.split "|" m) -> (2 <= Str.count "=" item)%nat ->
  unless_null (VStr m) = VStr m.
Proof.
  intros Hin Hc. unfold unless_null, _is_null.
  destruct (String.eqb m "_") eqn:E; [|reflexivity].
  apply String.eqb_eq in E; subst m. simpl in Hin.
  destruct Hin as [<-|[]]. simpl in Hc. lia.
Qed.

(** C10. A [misc] item with two or more [=] makes the two-element unpacking
    of [init_from_misc] fail, in [Word] and in [Token] alike, so that no
    Word and no Token is constructed from such an entry; the only items
    that the loop passes over with [continue] are those with no [=]. *)
Theorem misc_item_with_two_equal_signs_is_rejected :
  forall (e : entry) (m item : string),
    entry_get MISC e = VStr m ->
    In item (Str.split "|" m) ->
    (2 <= Str.count "=" item)%nat ->
    parse_item item = Unpack_fails
    /\ (forall w, Word.init_item item w = Raise ValueError)
    /\ (forall k, Token.init_item item k = Raise ValueError)
    /\ is_ok (Word.init e) = false
    /\ (forall ws, is_ok (Token.init e ws) = false)
    /\ (forall i, parse_item i = Skip <-> Str.count "=" i = O).
Proof.
  intros e m item Hm Hin Hc.
  pose proof (parse_item_unpack_fails item Hc) as Hp.
  pose proof (unless_null_marked m item Hin Hc) as Hn.
  repeat split.
  - exact Hp.
  - intros w. unfold Word.init_item. rewrite Hp. reflexivity.
  - intros k. unfold Token.init_item. rewrite Hp. reflexivity.
  - unfold Word.init.
    destruct (truthy (entry_get ID e) && truthy (entry_get TEXT e)); [|reflexivity].
    destruct (Word.assign e Word.all_fields Word.blank) as [w|x] eqn:A; [|reflexivity].
    simpl. pose proof (word_assign_misc e A) as Hw. rewrite Hm, Hn in Hw.
    unfold Word.init_from_misc. rewrite Hw. simpl.
    apply word_init_items_fail with (item := item); assumption.
  - intros ws. unfold Token.init.
    destruct (truthy (entry_get ID e) && truthy (entry_get TEXT e)); [|reflexivity].
    cbn [Token.misc]. rewrite Hm, Hn. simpl.
    unfold Token.init_from_misc. cbn [Token.misc].
    apply token_init_items_fail with (item := item); assumption.
  - apply parse_item_skip.
  - apply parse_item_skip.
Qed.

Lemma misc_item_with_two_equal_signs_is_rejected_witness :
  is_ok (Word.init (mk_entry (Some (VStr "1")) (Some (VStr "a")) None None None
                      None None None None (Some (VStr "x|key=a=b")) None)) = false.
Proof.
  refine (proj1 (proj2 (proj2 (proj2
    (@misc_item_with_two_equal_signs_is_rejected _ "x|key=a=b" "key=a=b" _ _ _))))).
  - reflexivity.
  - simpl. right. left. reflexivity.
  - simpl. lia.
Defined.

(** ** Sentence construction *)

Lemma build_from_keeps todo s s' r :
  Sentence.build_from todo s = (s', r) ->
  Sentence.words s' = Sentence.words s /\ Sentence.tokens s' = Sentence.tokens s
  /\ Sentence.text s' = Sentence.text s.
Proof.
  revert s; induction todo as [|w todo IH]; intros s; simpl.
  - intros [= <- <-]; auto.
  - destruct (Sentence.governor (Sentence.words s) w) as [g|x].
    + intros H. apply IH in H. simpl in H. exact H.
    + intros [= <- <-]; auto.
Qed.

Lemma build_dependencies_keeps s s' r :
  Sentence.build_dependencies s = (s', r) ->
  Sentence.words s' = Sentence.words s /\ Sentence.tokens s' = Sentence.tokens s
  /\ Sentence.text s' = Sentence.text s.
Proof. unfold Sentence.build_dependencies. intros H. apply build_from_keeps in H. exact H. Qed.

Lemma py_last_None {A : Type} (l : list A) : py_last l = None <-> l = [].
Proof.
  induction l as [|a l IH]; simpl; [tauto|].
  destruct l as [|b l]; [split; discriminate|].
  split; [|discriminate]. intros H. apply IH in H. discriminate.
Qed.

(** What a call of [_process_tokens] that returned has established. *)
Lemma process_tokens_ok es self s :
  Sentence._process_tokens es self = (s, Ok tt) ->
  exists s0 en,
    Sentence.scan 0 es (-1) (Sentence.set_words [] (Sentence.set_tokens [] self)) = (s0, Ok en)
    /\ Sentence.words s = Sentence.words s0
    /\ Sentence.tokens s = Sentence.tokens s0
    /\ Sentence.text s = Sentence.text s0
    /\ Sentence.words s0 <> [].
Proof.
  unfold Sentence._process_tokens.
  destruct (Sentence.scan 0 es (-1) _) as [s0 [en|x]] eqn:S; [|discriminate].
  destruct (py_last (Sentence.words s0)) as [w|] eqn:L; [|discriminate].
  assert (Sentence.words s0 <> []) as NE.
  { intros E. rewrite E in L. discriminate. }
  destruct (py_int (Word.id w)) as [n|x]; [|discriminate].
  destruct (_ && _).
  - intros H. apply build_dependencies_keeps in H. destruct H as (H1 & H2 & H3).
    exists s0, en. auto.
  - intros [= <-]. exists s0, en. auto.
Qed.

Lemma sentence_init_ok es s :
  Sentence.init es = Ok s -> Sentence.words s <> [].
Proof.
  unfold Sentence.init.
  destruct (Sentence._process_tokens es Sentence.blank) as [s' [[]|x]] eqn:P; [|discriminate].
  intros [= <-]. apply process_tokens_ok in P.
  destruct P as (s0 & en & _ & W & _ & _ & NE). rewrite W. exact NE.
Qed.

Lemma with_text_words txt s s' :
  Document.with_text txt s = Ok s' ->
  Sentence.words s' = Sentence.words s /\ Sentence.tokens s' = Sentence.tokens s
  /\ Sentence.dependencies s' = Sentence.dependencies s.
Proof.
  unfold Document.with_text.
  destruct (Sentence.tokens s) as [|k0 ks] eqn:T; [discriminate|].
  destruct (py_last (k0 :: ks)) as [k1|]; [|discriminate].
  destruct txt as [txt|]; [|intros [= <-]; rewrite T; auto].
  destruct (Token.start_char k0); [|intros [= <-]; rewrite T; auto].
  destruct (Token.end_char k1); intros [= <-]; simpl; rewrite ?T; auto.
Qed.

Lemma append_sentences_nonempty ess d d' :
  Document.append_sentences ess d = (d', Ok tt) ->
  Forall (fun s => Sentence.words s <> []) (Document.sentences d) ->
  Forall (fun s => Sentence.words s <> []) (Document.sentences d').
Proof.
  revert d; induction ess as [|es ess IH]; intros d; simpl.
  - intros [= <-]; auto.
  - destruct (Sentence.init es) as [s|x] eqn:I; [|discriminate].
    destruct (Document.with_text (Document.text d) s) as [s'|x] eqn:T; [|discriminate].
    intros H F. apply IH in H; [exact H|]. simpl.
    apply Forall_app; split; [exact F|]. constructor; [|constructor].
    apply with_text_words in T. destruct T as (-> & _). apply sentence_init_ok with es. exact I.
Qed.

(** C9. A Sentence is never constructed without a Word: the completeness
    check indexes the last Word unconditionally, so an entry list that
    yields no Word (the empty list, for one) raises [IndexError], and so
    does the construction of a Document that contains such a list. *)
Theorem constructed_sentence_has_a_word :
  (forall es s, Sentence.init es = Ok s -> Sentence.words s <> [])
  /\ (forall ess txt d, Document.init ess txt = Ok d ->
        Forall (fun s => Sentence.words s <> []) (Document.sentences d))
  /\ Sentence.init [] = Raise IndexError
  /\ (forall txt, Document.init [[]] txt = Raise IndexError).
Proof.
  split; [exact sentence_init_ok|]. split; [|split; [reflexivity|intros; reflexivity]].
  intros ess txt d. unfold Document.init, Document._process_sentences.
  destruct (Document.append_sentences ess _) as [d' [[]|x]] eqn:A; [|discriminate].
  intros [= <-]. simpl. apply append_sentences_nonempty in A; [exact A|constructor].
Qed.

Lemma constructed_sentence_has_a_word_witness :
  Sentence.words (Examples.sentence_of Examples.she_reads_books) <> [].
Proof.
  apply (proj1 constructed_sentence_has_a_word Examples.she_reads_books).
  vm_compute; reflexivity.
Defined.

(** ** The dependency graph *)

(** C7. For three Words with heads 2, 0, 2 and relations nsubj, root, obj,
    [build_dependencies] yields the edges (word2, nsubj, word1),
    (ROOT, root, word2), (word2, obj, word3) in this order, where ROOT is
    the Word built from [{id: "0", text: "ROOT"}].  Of the ids only that of
    the second Word is read, by the consistency check. *)
Theorem dependencies_of_three_words :
  forall (s : Sentence.t) (w1 w2 w3 : Word.t),
    Sentence.words s = [w1; w2; w3] ->
    Word.id w2 = VStr "2" ->
    Word.head w1 = VInt 2 -> Word.head w2 = VInt 0 -> Word.head w3 = VInt 2 ->
    Word.deprel w1 = VStr "nsubj" -> Word.deprel w2 = VStr "root" ->
    Word.deprel w3 = VStr "obj" ->
    Word.init Sentence.root_entry = Ok Sentence.ROOT
    /\ Word.id Sentence.ROOT = VStr "0" /\ Word.text Sentence.ROOT = VStr "ROOT"
    /\ Sentence.build_dependencies s =
         (Sentence.set_dependencies
            [(w2, VStr "nsubj", w1); (Sentence.ROOT, VStr "root", w2);
             (w2, VStr "obj", w3)] s, Ok tt).
Proof.
  intros s w1 w2 w3 W I2 H1 H2 H3 D1 D2 D3.
  split; [reflexivity|]. split; [reflexivity|]. split; [reflexivity|].
  unfold Sentence.build_dependencies. rewrite W.
  unfold Sentence.build_from, Sentence.governor. cbn [Sentence.words Sentence.set_dependencies].
  rewrite H1, H2, H3, D1, D2, D3. cbn.
  unfold py_index. cbn. rewrite !W.
  change (Pos.to_nat 1) with 1%nat. cbn. rewrite I2. cbn. reflexivity.
Qed.

Lemma dependencies_of_three_words_witness :
  let s := Examples.sentence_of Examples.she_reads_books in
  let w i := nth i (Sentence.words s) Word.blank in
  Sentence.build_dependencies s =
    (Sentence.set_dependencies
       [(w 1%nat, VStr "nsubj", w 0%nat); (Sentence.ROOT, VStr "root", w 1%nat);
        (w 1%nat, VStr "obj", w 2%nat)] s, Ok tt).
Proof.
  intros s w.
  apply (@dependencies_of_three_words s (w 0%nat) (w 1%nat) (w 2%nat));
    vm_compute; reflexivity.
Defined.

(** ** Entities *)

Lemma tag_words_app txt ws1 ws2 st :
  Document.tag_words txt (ws1 ++ ws2) st =
  match Document.tag_words txt ws1 st with
  | (st', Raise x) => (st', Raise x)
  | (st', Ok _) => Document.tag_words txt ws2 st'
  end.
Proof.
  revert st; induction ws1 as [|w ws1 IH]; intros st; simpl; [reflexivity|].
  destruct (Document.tag txt w st) as [st' [[]|x]]; [apply IH | reflexivity].
Qed.

Lemma tag_unset txt w st :
  Word.ner (l_word w) = VNone -> Document.tag txt w st = (st, Ok tt).
Proof. intros H. unfold Document.tag. rewrite H. reflexivity. Qed.

(** C4, as the code has it.  A Word whose [ner] is unset is passed over
    with [continue]: wherever it stands among the Words of a scan, the
    entities found, the entity in progress and its type are what they are
    without it.  Only the tag [O] flushes the entity in progress and empties
    it. *)
Theorem unset_ner_is_skipped :
  forall (txt : option string) (ws1 ws2 : list located) (w : located)
         (st : Document.scan),
    Word.ner (l_word w) = VNone ->
    Document.tag_words txt (ws1 ++ w :: ws2) st = Document.tag_words txt (ws1 ++ ws2) st
    /\ (forall o, Word.ner (l_word o) = VStr "O" ->
          Document.tag txt o st =
          Document.flush_then txt st
            (fun st1 => (Document.set_ent_words [] st1, Ok tt))).
Proof.
  intros txt ws1 ws2 w st H. split.
  - rewrite !tag_words_app. destruct (Document.tag_words txt ws1 st) as [st' [[]|x]];
      [|reflexivity].
    simpl. rewrite (tag_unset txt w st' H). reflexivity.
  - intros o Ho. unfold Document.tag. rewrite Ho. reflexivity.
Qed.

Lemma unset_ner_is_skipped_witness :
  let john := Examples.met 0 (Examples.tagged "1" "John" "B-PER") in
  let f := Examples.met 1 (Examples.plain "2" "F.") in
  let kennedy := Examples.met 2 (Examples.tagged "3" "Kennedy" "I-PER") in
  let start := Document.mk_scan [] [] None in
  Document.tag_words (Some "John F. Kennedy") ([john] ++ f :: [kennedy]) start
  = Document.tag_words (Some "John F. Kennedy") ([john] ++ [kennedy]) start
  /\ Document.ent_words
       (fst (Document.tag_words (Some "John F. Kennedy") ([john] ++ f :: [kennedy]) start))
     = [john; kennedy]
  /\ Document.ent_words
       (fst (Document.tag_words (Some "John F. Kennedy")
               ([john] ++ Examples.met 1 (Examples.tagged "2" "F." "O") :: [kennedy]) start))
     = [kennedy].
Proof.
  intros john f kennedy start. split.
  - apply (proj1 (@unset_ner_is_skipped (Some "John F. Kennedy"%string)
                    [john] [kennedy] f start ltac:(vm_compute; reflexivity))).
  - split; vm_compute; reflexivity.
Defined.

(** C4, as the specification has it, fails: with the middle Word untagged
    the scan of B-PER, unset, I-PER yields one entity made of the first and
    the third Word, where B-PER, O, I-PER yields two. *)
Lemma unset_ner_does_not_flush :
  let unset := fst (Document.build_ents Examples.kennedy_unset) in
  let marked := fst (Document.build_ents Examples.kennedy_O) in
  snd (Document.build_ents Examples.kennedy_unset) = Ok 1
  /\ map Span.words (Document.ents unset) = [[(0, 0); (0, 2)]]%nat
  /\ snd (Document.build_ents Examples.kennedy_O) = Ok 2
  /\ map Span.words (Document.ents marked) = [[(0, 0)]; [(0, 2)]]%nat.
Proof. vm_compute. repeat split. Qed.

Lemma locate_refs si s ws :
  Document.locate si s = Ok ws -> Forall (fun w => fst (l_ref w) = si) ws.
Proof.
  unfold Document.locate. destruct (_ =? _)%nat; [|discriminate].
  intros [= <-]. apply Forall_forall. intros w Hin.
  apply in_map_iff in Hin. destruct Hin as (x & <- & _). reflexivity.
Qed.

Lemma span_init_words ws ty txt sp :
  Span.init ws ty txt = Ok sp -> Span.words sp = map l_ref ws /\ ws <> [].
Proof.
  unfold Span.init. destruct ty as [ty|]; [|discriminate].
  destruct ws as [|w ws]; [discriminate|].
  destruct (py_last (w :: ws)); [|discriminate].
  destruct txt; [|discriminate]. intros [= <-]. split; [reflexivity | discriminate].
Qed.

Lemma flush_inv txt si st :
  scan_inv si st -> scan_inv si (fst (Document.flush txt st)).
Proof.
  intros I. unfold Document.flush.
  destruct (Document.ent_words st) as [|w ws] eqn:W; [exact I|].
  destruct (Span.init _ _ _) as [sp|x] eqn:S; simpl; [|exact I].
  apply span_init_words in S. destruct S as [S NE].
  destruct I as [F E]. rewrite W in E.
  split; simpl; [|exact E].
  apply Forall_app. split; [exact F|]. constructor; [|constructor].
  split.
  - rewrite S. discriminate.
  - exists si. unfold span_within. rewrite S. apply Forall_map with (f := l_ref). exact E.
Qed.

Lemma flush_then_inv txt si st k :
  scan_inv si st ->
  (forall st1, scan_inv si st1 -> scan_inv si (fst (k st1))) ->
  scan_inv si (fst (Document.flush_then txt st k)).
Proof.
  intros I K. unfold Document.flush_then.
  pose proof (flush_inv txt I) as F.
  destruct (Document.flush txt st) as [st' [[]|x]]; simpl in *; [apply K|]; exact F.
Qed.

Lemma set_ent_words_inv si ws st :
  scan_inv si st -> Forall (fun w => fst (l_ref w) = si) ws ->
  scan_inv si (Document.set_ent_words ws st).
Proof. intros [F _] W. split; assumption. Qed.

Lemma set_cur_type_inv si ty st :
  scan_inv si st -> scan_inv si (Document.set_cur_type ty st).
Proof. intros [F E]. split; assumption. Qed.

Lemma tag_inv txt si w st :
  scan_inv si st -> fst (l_ref w) = si -> scan_inv si (fst (Document.tag txt w st)).
Proof.
  intros I R. unfold Document.tag.
  assert (Forall (fun w0 => fst (l_ref w0) = si) [w]) as W1 by (constructor; [exact R | constructor]).
  assert (Forall (fun w0 => fst (l_ref w0) = si) (Document.ent_words st ++ [w])) as W2.
  { apply Forall_app; split; [apply I | exact W1]. }
  destruct (Word.ner (l_word w)) as [|ner|z|l]; try exact I.
  destruct (String.eqb ner "O").
  { apply flush_then_inv; [exact I|]. intros st1 I1. simpl.
    apply set_ent_words_inv; [exact I1 | constructor]. }
  destruct (Str.startswith "B-" ner).
  { apply flush_then_inv; [exact I|]. intros st1 I1. simpl.
    apply set_cur_type_inv, set_ent_words_inv; assumption. }
  destruct (Str.startswith "I-" ner).
  { simpl. apply set_cur_type_inv, set_ent_words_inv; assumption. }
  destruct (Str.startswith "E-" ner).
  { apply flush_then_inv.
    - apply set_cur_type_inv, set_ent_words_inv; assumption.
    - intros st1 I1. simpl. apply set_ent_words_inv; [exact I1 | constructor]. }
  destruct (Str.startswith "S-" ner); [|exact I].
  apply flush_then_inv; [exact I|]. intros st1 I1.
  apply flush_then_inv.
  - apply set_cur_type_inv, set_ent_words_inv; assumption.
  - intros st2 I2. simpl. apply set_ent_words_inv; [exact I2 | constructor].
Qed.

Lemma tag_words_inv txt si ws st :
  scan_inv si st -> Forall (fun w => fst (l_ref w) = si) ws ->
  scan_inv si (fst (Document.tag_words txt ws st)).
Proof.
  revert st; induction ws as [|w ws IH]; intros st I F; simpl; [exact I|].
  pose proof (Forall_inv F) as R. pose proof (Forall_inv_tail F) as F'.
  pose proof (tag_inv txt w I R) as T.
  destruct (Document.tag txt w st) as [st' [[]|x]]; simpl in *; [apply IH; assumption | exact T].
Qed.

Lemma tag_sentence_inv txt si s st :
  scan_idle st ->
  Forall single_sentence (Document.found (fst (Document.tag_sentence txt si s st)))
  /\ (forall u, snd (Document.tag_sentence txt si s st) = Ok u ->
        scan_idle (fst (Document.tag_sentence txt si s st))).
Proof.
  intros [F E]. unfold Document.tag_sentence.
  destruct (Document.locate si s) as [ws|x] eqn:L; simpl; [|split; [exact F | discriminate]].
  apply locate_refs in L.
  assert (scan_inv si st) as I by (split; [exact F | rewrite E; constructor]).
  pose proof (tag_words_inv txt I L) as T.
  destruct (Document.tag_words txt ws st) as [st' [[]|x]]; simpl in *;
    [|split; [apply T | discriminate]].
  unfold Document.flush_then. pose proof (flush_inv txt T) as FI.
  destruct (Document.flush txt st') as [st1 [[]|x]]; simpl in *.
  - split; [apply FI|]. intros _ _. split; [apply FI | reflexivity].
  - split; [apply FI | discriminate].
Qed.

Lemma tag_sentences_inv txt ss : forall si st,
  scan_idle st ->
  Forall single_sentence (Document.found (fst (Document.tag_sentences txt si ss st))).
Proof.
  induction ss as [|s ss IH]; intros si st I; simpl; [apply I|].
  pose proof (tag_sentence_inv txt si s I) as [F K].
  destruct (Document.tag_sentence txt si s st) as [st' [[]|x]]; simpl in *; [|exact F].
  apply IH. apply (K tt). reflexivity.
Qed.

(** C5. Whatever the tags, every entity that [build_ents] records (also by
    a call that an exception stops) holds Words of one Sentence only, since
    the entity in progress is flushed and emptied at the end of every
    Sentence.  A first Sentence that ends with I-LOC and a second one that
    starts with I-LOC give two entities, one Word each. *)
Theorem entities_stay_within_a_sentence :
  (forall d : Document.t,
     Forall single_sentence (Document.ents (fst (Document.build_ents d))))
  /\ snd (Document.build_ents Examples.two_sentences_LOC) = Ok 2
  /\ map Span.words (Document.ents (fst (Document.build_ents Examples.two_sentences_LOC)))
     = [[(0, 1)]; [(1, 0)]]%nat.
Proof.
  split; [|vm_compute; split; reflexivity].
  intros d. unfold Document.build_ents.
  pose proof (@tag_sentences_inv (Document.text d) (Document.sentences d) 0%nat
                (Document.mk_scan [] [] None)) as H.
  destruct (Document.tag_sentences _ _ _ _) as [st [[]|x]]; simpl in *;
    apply H; split; [constructor | reflexivity | constructor | reflexivity].
Qed.

(** ** Dependencies across processing *)

Lemma step_keeps i e en s s' r :
  Sentence.step i e en s = (s', r) ->
  Sentence.dependencies s' = Sentence.dependencies s
  /\ Sentence.text s' = Sentence.text s.
Proof.
  unfold Sentence.step.
  destruct (entry_get ID _) as [|ident| |]; try (intros [= <- <-]; auto).
  destruct (Sentence.misc_match _) as [n|x]; [|intros [= <- <-]; auto].
  destruct (_ || n).
  - destruct (Token.init _ []) as [k|x]; intros [= <- <-]; auto.
  - destruct (Word.init _) as [w|x]; [|intros [= <- <-]; auto].
    destruct (Str.to_int ident) as [idx|]; [|intros [= <- <-]; auto].
    destruct (idx <=? en).
    + destruct (Sentence.append_to_last _ _); intros [= <- <-]; auto.
    + destruct (Token.init _ [w]); intros [= <- <-]; auto.
Qed.

Lemma scan_keeps es : forall i en s s' r,
  Sentence.scan i es en s = (s', r) ->
  Sentence.dependencies s' = Sentence.dependencies s
  /\ Sentence.text s' = Sentence.text s.
Proof.
  induction es as [|e es IH]; intros i en s s' r; simpl.
  - intros [= <- <-]; auto.
  - destruct (Sentence.step i e en s) as [s1 [en'|x]] eqn:S; apply step_keeps in S.
    + intros H. apply IH in H. destruct S, H. split; congruence.
    + intros [= <- <-]. exact S.
Qed.

(** Processing a Sentence again leaves its graph alone when some Word has no
    head or no relation: the graph of the Words it had before stays. *)
Lemma process_tokens_incomplete es self s :
  Sentence._process_tokens es self = (s, Ok tt) ->
  forallb Sentence.has_dependency (Sentence.words s) = false ->
  Sentence.dependencies s = Sentence.dependencies self.
Proof.
  unfold Sentence._process_tokens.
  destruct (Sentence.scan 0 es (-1) _) as [s0 [en|x]] eqn:S; [|discriminate].
  apply scan_keeps in S. simpl in S. destruct S as [S _].
  destruct (py_last (Sentence.words s0)) as [w|]; [|discriminate].
  destruct (py_int (Word.id w)) as [n|x]; [|discriminate].
  destruct (forallb Sentence.has_dependency (Sentence.words s0)) eqn:C; simpl.
  - destruct (_ =? n).
    + intros H. pose proof (build_dependencies_keeps _ H) as (W & _).
      rewrite W, C. discriminate.
    + intros [= <-]. rewrite C. discriminate.
  - intros [= <-] _. exact S.
Qed.

(** C6, where the code departs from it.  A Sentence built from a parsed
    Word has one edge.  Processing it again from the same Word without its
    head returns normally and leaves that edge in [dependencies], although
    no Word has a head any more.  [set_mwt_expansions] does exactly this to
    the first Sentence of a Document before it fails on the second one for
    want of an expansion. *)
Theorem reprocessing_keeps_the_old_graph :
  let s := Examples.sentence_of Examples.parsed_go in
  let s' := fst (Sentence._process_tokens Examples.unparsed_go s) in
  let d' := fst (Document.set_mwt_expansions [] Examples.go_then_du_pain) in
  snd (Sentence._process_tokens Examples.unparsed_go s) = Ok tt
  /\ map Word.head (Sentence.words s') = [VNone]
  /\ List.length (Sentence.dependencies s') = 1%nat
  /\ snd (Document.set_mwt_expansions [] Examples.go_then_du_pain) = Raise IndexError
  /\ map (fun x => (map Word.head (Sentence.words x),
                    List.length (Sentence.dependencies x)))
         (Document.sentences d')
     = [([VNone], 1%nat); ([VNone], 0%nat)].
Proof. vm_compute. repeat split. Qed.

(** ** Writing and reading fields *)

Lemma field_eqb_sym f g : field_eqb f g = field_eqb g f.
Proof. destruct f, g; reflexivity. Qed.

Lemma getattr_store_same f v w : Word.getattr f (Word.store f v w) = v.
Proof. destruct f; reflexivity. Qed.

Lemma getattr_store_other f g v w :
  field_eqb f g = false -> Word.getattr g (Word.store f v w) = Word.getattr g w.
Proof. destruct f, g; intros H; try discriminate; reflexivity. Qed.

(** A storable value is stored as it is, and no other field changes. *)
Lemma setattr_storable f v w :
  storable f v = true ->
  exists w', Word.setattr f v w = Ok w'
             /\ Word.getattr f w' = v
             /\ forall g, field_eqb f g = false -> Word.getattr g w' = Word.getattr g w.
Proof.
  intros S.
  assert (forall u, (exists w', Ok (Word.store f u w) = Ok w' /\ Word.getattr f w' = u
            /\ forall g, field_eqb f g = false -> Word.getattr g w' = Word.getattr g w)) as K.
  { intros u. exists (Word.store f u w). split; [reflexivity|].
    split; [apply getattr_store_same | intros g; apply getattr_store_other]. }
  destruct f; simpl in S; unfold Word.setattr.
  1-2: apply K.
  - (* lemma *)
    replace (if negb (_is_null v) || Word.text_is_placeholder w then v else VNone) with v;
      [apply K|].
    destruct v as [|x| |]; simpl in *; try reflexivity.
    + destruct (Word.text_is_placeholder w); reflexivity.
    + destruct (String.eqb x "_"); [discriminate|reflexivity].
  - replace (unless_null v) with v; [apply K|].
    unfold unless_null, _is_null. destruct v as [|x| |]; try reflexivity.
    simpl in S. destruct (String.eqb x "_"); [discriminate|reflexivity].
  - replace (unless_null v) with v; [apply K|].
    unfold unless_null, _is_null. destruct v as [|x| |]; try reflexivity.
    simpl in S. destruct (String.eqb x "_"); [discriminate|reflexivity].
  - replace (unless_null v) with v; [apply K|].
    unfold unless_null, _is_null. destruct v as [|x| |]; try reflexivity.
    simpl in S. destruct (String.eqb x "_"); [discriminate|reflexivity].
  - (* head *)
    destruct v as [|x|z|l]; try discriminate; simpl; apply K.
  - replace (unless_null v) with v; [apply K|].
    unfold unless_null, _is_null. destruct v as [|x| |]; try reflexivity.
    simpl in S. destruct (String.eqb x "_"); [discriminate|reflexivity].
  - replace (unless_null v) with v; [apply K|].
    unfold unless_null, _is_null. destruct v as [|x| |]; try reflexivity.
    simpl in S. destruct (String.eqb x "_"); [discriminate|reflexivity].
  - replace (unless_null v) with v; [apply K|].
    unfold unless_null, _is_null. destruct v as [|x| |]; try reflexivity.
    simpl in S. destruct (String.eqb x "_"); [discriminate|reflexivity].
  - replace (unless_null v) with v; [apply K|].
    unfold unless_null, _is_null. destruct v as [|x| |]; try reflexivity.
    simpl in S. destruct (String.eqb x "_"); [discriminate|reflexivity].
Qed.

Lemma write_pairs_row fs : forall row w,
  distinct fs = true -> storable_row fs row = true ->
  exists w', Document.write_pairs (combine fs row) w = Ok w'
             /\ map (fun f => Word.getattr f w') fs = row
             /\ forall g, existsb (field_eqb g) fs = false ->
                          Word.getattr g w' = Word.getattr g w.
Proof.
  induction fs as [|f fs IH]; intros row w D S.
  - destruct row; [|discriminate]. exists w. simpl. auto.
  - destruct row as [|v row]; [discriminate|]. simpl in *.
    apply andb_prop in D. destruct D as [Df D].
    apply andb_prop in S. destruct S as [Sf S].
    apply negb_true_iff in Df.
    destruct (setattr_storable f v w Sf) as (w1 & E1 & G1 & O1).
    destruct (IH row w1 D S) as (w' & E' & G' & O').
    exists w'. rewrite E1. simpl. split; [exact E'|]. split.
    + rewrite G', (O' f Df), G1. reflexivity.
    + intros g Hg. apply orb_false_elim in Hg. destruct Hg as [Hgf Hg].
      rewrite (O' g Hg). apply O1. rewrite field_eqb_sym. exact Hgf.
Qed.

Lemma write_fits fs c w :
  fs <> [] -> distinct fs = true -> fits fs c = true ->
  exists w', Document.write fs c w = Ok w' /\ Document.project fs w' = c.
Proof.
  intros NE D F. destruct fs as [|f [|g fs]]; [contradiction| |].
  - simpl in F. destruct (setattr_storable f c w F) as (w' & E & G & _).
    exists w'. split; assumption.
  - unfold fits in F. destruct c as [| | |row]; try discriminate.
    destruct (write_pairs_row (f :: g :: fs) row w D F) as (w' & E & G & _).
    exists w'. unfold Document.write, Document.project. simpl Document.iterate.
    cbn [bind]. split; [exact E|]. rewrite G. reflexivity.
Qed.

Lemma write_words_fits fs : forall ws cs,
  fs <> [] -> distinct fs = true ->
  (List.length ws <= List.length cs)%nat ->
  Forall (fun c => fits fs c = true) cs ->
  exists ws', Document.write_words fs cs ws = Ok (ws', skipn (List.length ws) cs)
              /\ map (Document.project fs) ws' = firstn (List.length ws) cs.
Proof.
  induction ws as [|w ws IH]; intros cs NE D L F.
  - exists []. split; reflexivity.
  - destruct cs as [|c cs]; [simpl in L; lia|]. simpl in L.
    pose proof (Forall_inv F) as Fc. pose proof (Forall_inv_tail F) as F'.
    destruct (@write_fits fs c w NE D Fc) as (w' & E & P).
    destruct (IH cs NE D ltac:(lia) F') as (ws' & E' & P').
    exists (w' :: ws'). simpl. rewrite E. simpl. rewrite E'. simpl.
    split; [reflexivity|]. rewrite P, P'. reflexivity.
Qed.

Lemma count_words_nonneg ss : 0 <= Document.count_words ss.
Proof. induction ss; simpl; lia. Qed.

Lemma write_sentences_fits fs : forall ss cs,
  fs <> [] -> distinct fs = true ->
  Document.count_words ss = Z.of_nat (List.length cs) ->
  Forall (fun c => fits fs c = true) cs ->
  exists ss', Document.write_sentences fs cs ss = Ok ss'
              /\ List.concat (map (fun s => map (Document.project fs) (Sentence.words s)) ss')
                 = cs.
Proof.
  induction ss as [|s ss IH]; intros cs NE D C F.
  - simpl in C. destruct cs; [|simpl in C; lia]. exists []. simpl. auto.
  - simpl in C. pose proof (count_words_nonneg ss) as N.
    destruct (@write_words_fits fs (Sentence.words s) cs NE D ltac:(lia) F)
      as (ws' & E & P).
    assert (Forall (fun c => fits fs c = true) (skipn (List.length (Sentence.words s)) cs)) as F'.
    { apply Forall_forall. intros c Hc. apply (proj1 (Forall_forall _ _) F).
      rewrite <- (firstn_skipn (List.length (Sentence.words s)) cs).
      apply in_or_app. right. exact Hc. }
    destruct (IH (skipn (List.length (Sentence.words s)) cs) NE D) as (ss' & E' & P').
    { rewrite length_skipn. lia. }
    { exact F'. }
    simpl. rewrite E. simpl. rewrite E'. simpl. eexists. split; [reflexivity|].
    simpl. rewrite P, P'. apply firstn_skipn.
Qed.

(** C1, as the code has it.  For a Document whose word count is up to
    date, a non-empty list of distinct field names and one content for each
    Word, [set] returns and [get] on the same fields gives the contents
    back, provided every written value is one that its setter stores as it
    is: any value for [id] and [text], [None] or an integer for [head],
    anything but the placeholder ['_'] for the other fields; with several
    fields each content is a sequence with one such value for each field. *)
Theorem set_then_get :
  forall (d : Document.t) (fs : list field) (cs : list value),
    fs <> [] ->
    distinct fs = true ->
    counted d ->
    Document.num_words d = Z.of_nat (List.length cs) ->
    Forall (fun c => fits fs c = true) cs ->
    exists d', Document.set fs cs d = Ok d' /\ Document.get fs d' = Ok cs.
Proof.
  intros d fs cs NE D C L F.
  destruct (@write_sentences_fits fs (Document.sentences d) cs NE D) as (ss' & E & P).
  { rewrite <- C. exact L. }
  { exact F. }
  exists (Document.set_sentences ss' d). split.
  - unfold Document.set. destruct fs as [|f fs]; [contradiction|].
    cbn [List.length Nat.leb]. rewrite L, Z.eqb_refl, E. reflexivity.
  - unfold Document.get, Document.get_as_sentences.
    destruct fs as [|f fs]; [contradiction|].
    cbn [List.length Nat.leb bind Document.sentences Document.set_sentences].
    rewrite P. reflexivity.
Qed.

Lemma set_then_get_witness :
  exists d',
    Document.set [UPOS; HEAD]
      [VSeq [VStr "PRON"; VInt 2]; VSeq [VStr "VERB"; VInt 0]; VSeq [VStr "NOUN"; VNone]]
      Examples.she_reads = Ok d'
    /\ Document.get [UPOS; HEAD] d'
       = Ok [VSeq [VStr "PRON"; VInt 2]; VSeq [VStr "VERB"; VInt 0];
             VSeq [VStr "NOUN"; VNone]].
Proof.
  apply set_then_get.
  - discriminate.
  - reflexivity.
  - vm_compute; reflexivity.
  - vm_compute; reflexivity.
  - repeat constructor.
Defined.

(** C1, as the specification has it, fails: the placeholder ['_'] written
    to [upos] reads back as [None], and the string ['1'] written to [head]
    reads back as the integer 1. *)
Lemma set_then_get_changes_the_contents :
  Document.set [UPOS] [VStr "_"] Examples.go
    = Ok (Examples.after_set [UPOS] [VStr "_"] Examples.go)
  /\ Document.get [UPOS] (Examples.after_set [UPOS] [VStr "_"] Examples.go)
     = Ok [VNone]
  /\ Document.set [HEAD] [VStr "1"] Examples.go
     = Ok (Examples.after_set [HEAD] [VStr "1"] Examples.go)
  /\ Document.get [HEAD] (Examples.after_set [HEAD] [VStr "1"] Examples.go)
     = Ok [VInt 1]
  /\ Ok [VNone] <> Ok [VStr "_"] /\ Ok [VInt 1] <> Ok [VStr "1"].
Proof.
  split; [vm_compute; reflexivity|].
  split; [vm_compute; reflexivity|].
  split; [vm_compute; reflexivity|].
  split; [vm_compute; reflexivity|].
  split; discriminate.
Qed.

(** ** Expansion of multi-word tokens *)

Lemma expand_token_surplus used extra idx_w idx_e k r :
  Document.expand_token used idx_w idx_e k = Ok r ->
  Document.expand_token (used ++ extra) idx_w idx_e k = Ok r.
Proof.
  unfold Document.expand_token.
  destruct (Document.is_mwt k) as [mwt|x]; [|discriminate]. simpl.
  destruct mwt; simpl; [|trivial].
  destruct (nth_error used idx_e) as [e|] eqn:N; [|discriminate].
  rewrite nth_error_app1 by (apply nth_error_Some; congruence).
  rewrite N. trivial.
Qed.

Lemma expand_tokens_surplus used extra ks : forall idx_w idx_e ks' ws' e',
  Document.expand_tokens used idx_w idx_e ks = (ks', ws', e', Ok tt) ->
  Document.expand_tokens (used ++ extra) idx_w idx_e ks = (ks', ws', e', Ok tt).
Proof.
  induction ks as [|k ks IH]; intros idx_w idx_e ks' ws' e'; simpl; [trivial|].
  destruct (Document.expand_token used (idx_w + 1) idx_e k) as [r|x] eqn:T;
    [|discriminate].
  rewrite (expand_token_surplus _ extra _ _ _ T).
  destruct (Document.expand_tokens used (Document.x_idx_w r) (Document.x_idx_e r) ks)
    as [[[ks1 ws1] e1] [[]|x]] eqn:R; [|discriminate].
  rewrite (IH _ _ _ _ _ R). trivial.
Qed.

Lemma expand_sentence_surplus used extra idx_e s s' e' :
  Document.expand_sentence used idx_e s = (s', e', Ok tt) ->
  Document.expand_sentence (used ++ extra) idx_e s = (s', e', Ok tt).
Proof.
  unfold Document.expand_sentence.
  destruct (Document.expand_tokens used 0 idx_e (Sentence.tokens s))
    as [[[ks1 ws1] e1] [[]|x]] eqn:R; [|discriminate].
  rewrite (expand_tokens_surplus _ extra _ _ _ R). trivial.
Qed.

Lemma expand_sentences_surplus used extra ss : forall idx_e ss' e',
  Document.expand_sentences used idx_e ss = (ss', e', Ok tt) ->
  Document.expand_sentences (used ++ extra) idx_e ss = (ss', e', Ok tt).
Proof.
  induction ss as [|s ss IH]; intros idx_e ss' e'; simpl; [trivial|].
  destruct (Document.expand_sentence used idx_e s) as [[s1 e1] [[]|x]] eqn:S;
    [|discriminate].
  rewrite (expand_sentence_surplus _ extra _ _ S).
  destruct (Document.expand_sentences used e1 ss) as [[ss1 e2] [[]|x]] eqn:R;
    [|discriminate].
  rewrite (IH _ _ _ R). trivial.
Qed.

(** C3, as the code has it.  The count of the expansions is compared with
    the number consumed only after every Sentence has been rewritten and
    the Document processed again, and nothing is undone.  So a call that
    fails on that comparison leaves the Document rewritten: it is the
    Document that the call with the consumed expansions alone returns. *)
Theorem surplus_expansions_fail_after_the_rewrite :
  forall (d d' : Document.t) (used extra : list string),
    Document.set_mwt_expansions used d = (d', Ok tt) ->
    extra <> [] ->
    Document.set_mwt_expansions (used ++ extra) d = (d', Raise AssertionError).
Proof.
  intros d d' used extra H NE. unfold Document.set_mwt_expansions in *.
  destruct (Document.expand_sentences used 0 (Document.sentences d))
    as [[ss e] [[]|x]] eqn:S; [|discriminate].
  rewrite (expand_sentences_surplus _ extra _ _ S).
  destruct (Document._process_sentences _ _) as [d2 [[]|x]]; [|discriminate].
  destruct (e =? List.length used)%nat eqn:E; [|discriminate].
  apply Nat.eqb_eq in E. injection H as <-.
  replace (e =? List.length (used ++ extra))%nat with false; [reflexivity|].
  symmetry. apply Nat.eqb_neq. rewrite length_app.
  destruct extra; [contradiction | simpl; lia].
Qed.

Lemma surplus_expansions_fail_after_the_rewrite_witness :
  Document.set_mwt_expansions (["de le"] ++ ["la"]) Examples.du_pain
  = (fst (Document.set_mwt_expansions ["de le"] Examples.du_pain), Raise AssertionError).
Proof.
  apply surplus_expansions_fail_after_the_rewrite.
  - vm_compute; reflexivity.
  - discriminate.
Defined.

(** C3, as the specification has it, fails: with one expansion too many the
    call raises [AssertionError], and the token ids, the [misc] of the
    token, the Words and the word count are no longer what they were. *)
Lemma failed_expansion_has_rewritten_the_document :
  snd (Document.set_mwt_expansions ["de le"; "la"] Examples.du_pain)
    = Raise AssertionError
  /\ Examples.outline Examples.du_pain
     = ([([VStr "1"; VStr "2"], [VStr "MWT=Yes"; VNone],
          [(VStr "2", VNone, VNone)])], 1)
  /\ Examples.outline (fst (Document.set_mwt_expansions ["de le"; "la"] Examples.du_pain))
     = ([([VStr "1-2"; VStr "3"], [VNone; VNone],
          [(VStr "1", VNone, VNone); (VStr "2", VNone, VNone);
           (VStr "3", VNone, VNone)])], 3).
Proof. vm_compute. repeat split. Qed.

(** ** Decimal numerals *)

Lemma digits_string_of_uint u : forall acc,
  Str.digits acc false (NilEmpty.string_of_uint u) = Some (uint_val acc u).
Proof. induction u; intros acc; simpl; try reflexivity; apply IHu. Qed.

Lemma all_digits_string_of_uint u :
  all_chars Str.is_digit (NilEmpty.string_of_uint u) = true.
Proof. induction u; simpl; try reflexivity; exact IHu. Qed.

Lemma uint_val_acc u : forall p,
  uint_val (Zpos p) u = Zpos (Pos.of_uint_acc u p).
Proof.
  induction u; intros p; cbn [uint_val Pos.of_uint_acc]; try reflexivity;
    rewrite <- IHu; f_equal; lia.
Qed.

Lemma uint_val_of_uint u : uint_val 0 u = Z.of_N (Pos.of_uint u).
Proof.
  induction u; cbn [uint_val Pos.of_uint]; try reflexivity; try exact IHu;
    cbn [Z.of_N]; rewrite <- uint_val_acc; f_equal.
Qed.

(** The numeral of a natural number: a non-empty string of digits that
    denotes it. *)
Lemma of_int_nonneg z :
  0 <= z ->
  exists u, u <> Decimal.Nil
            /\ Str.of_int z = NilEmpty.string_of_uint u
            /\ uint_val 0 u = z.
Proof.
  intros Hz. destruct z as [|p|p]; [| |lia].
  - exists (Decimal.D0 Decimal.Nil). repeat split. discriminate.
  - exists (Pos.to_uint p). split; [apply DecimalPos.Unsigned.to_uint_nonnil|]. split.
    + unfold Str.of_int. simpl. unfold NilZero.string_of_uint.
      pose proof (DecimalPos.Unsigned.to_uint_nonnil p) as NN.
      destruct (Pos.to_uint p); try reflexivity. contradiction.
    + rewrite uint_val_of_uint, DecimalPos.Unsigned.of_to. reflexivity.
Qed.

Lemma of_int_neg p :
  exists u, u <> Decimal.Nil
            /\ Str.of_int (Zneg p) = String "-" (NilEmpty.string_of_uint u)
            /\ uint_val 0 u = Zpos p.
Proof.
  exists (Pos.to_uint p). split; [apply DecimalPos.Unsigned.to_uint_nonnil|]. split.
  - unfold Str.of_int. simpl. unfold NilZero.string_of_uint.
    pose proof (DecimalPos.Unsigned.to_uint_nonnil p) as NN.
    destruct (Pos.to_uint p); try reflexivity. contradiction.
  - rewrite uint_val_of_uint, DecimalPos.Unsigned.of_to. reflexivity.
Qed.

Lemma digit_not_space c : Str.is_digit c = true -> Str.is_space c = false.
Proof.
  unfold Str.is_digit, Str.is_space. intros H.
  apply andb_prop in H. destruct H as [H1 H2].
  apply Nat.leb_le in H1. apply Nat.leb_le in H2.
  repeat match goal with
         | |- context [(?a <=? ?b)%nat] => destruct (Nat.leb_spec a b)
         | |- context [(?a =? ?b)%nat] => destruct (Nat.eqb_spec a b)
         end; simpl; try reflexivity; lia.
Qed.

Lemma rstrip_no_space s :
  all_chars (fun c => negb (Str.is_space c)) s = true -> Str.rstrip s = s.
Proof.
  induction s as [|c s IH]; simpl; [reflexivity|]. intros H.
  apply andb_prop in H. destruct H as [Hc Hs]. rewrite (IH Hs).
  destruct s; [|reflexivity]. apply negb_true_iff in Hc. rewrite Hc. reflexivity.
Qed.

Lemma all_chars_impl (p q : ascii -> bool) s :
  (forall c, p c = true -> q c = true) ->
  all_chars p s = true -> all_chars q s = true.
Proof.
  intros I. induction s as [|c s IH]; simpl; [trivial|]. intros H.
  apply andb_prop in H. destruct H as [Hc Hs]. rewrite (I c Hc), (IH Hs). reflexivity.
Qed.

Lemma digits_no_space s :
  all_chars Str.is_digit s = true ->
  all_chars (fun c => negb (Str.is_space c)) s = true.
Proof.
  apply all_chars_impl. intros c H. rewrite (digit_not_space c H). reflexivity.
Qed.

Lemma string_of_uint_head u :
  u <> Decimal.Nil ->
  exists c r, NilEmpty.string_of_uint u = String c r /\ Str.is_digit c = true.
Proof.
  intros NN. destruct u; [contradiction| | | | | | | | | |]; simpl; eexists; eexists;
    split; reflexivity.
Qed.

Lemma unsigned_string_of_uint u :
  u <> Decimal.Nil ->
  Str.unsigned (NilEmpty.string_of_uint u) = Some (uint_val 0 u).
Proof.
  intros NN. destruct (string_of_uint_head NN) as (c & r & E & D).
  unfold Str.unsigned. rewrite <- (digits_string_of_uint u 0). rewrite E, D. reflexivity.
Qed.

(** [int(str(z)) == z]. *)
Lemma to_int_of_int z : Str.to_int (Str.of_int z) = Some z.
Proof.
  unfold Str.to_int. destruct (Z_le_gt_dec 0 z) as [Hz|Hz].
  - destruct (of_int_nonneg Hz) as (u & NN & -> & V).
    destruct (string_of_uint_head NN) as (c & r & E & D).
    pose proof (all_digits_string_of_uint u) as A.
    assert (Str.lstrip (NilEmpty.string_of_uint u) = NilEmpty.string_of_uint u) as L.
    { rewrite E. simpl. rewrite (digit_not_space c D). reflexivity. }
    rewrite L, (rstrip_no_space _ (digits_no_space _ A)).
    pose proof (unsigned_string_of_uint NN) as U. rewrite V in U.
    rewrite E in *. destruct c as [[] [] [] [] [] [] [] []]; try discriminate D; exact U.
  - destruct z as [|p|p]; try lia.
    destruct (of_int_neg p) as (u & NN & -> & V).
    pose proof (all_digits_string_of_uint u) as A.
    assert (Str.lstrip (String "-" (NilEmpty.string_of_uint u))
            = String "-" (NilEmpty.string_of_uint u)) as L by reflexivity.
    rewrite L.
    assert (Str.rstrip (String "-" (NilEmpty.string_of_uint u))
            = String "-" (NilEmpty.string_of_uint u)) as R.
    { apply rstrip_no_space. simpl. apply digits_no_space. exact A. }
    rewrite R. rewrite (unsigned_string_of_uint NN), V. reflexivity.
Qed.

(** ** The id patterns on numerals *)

Lemma span_digits_app ds rest :
  all_chars Str.is_digit ds = true ->
  match rest with String c _ => Str.is_digit c = false | EmptyString => True end ->
  Str.span_digits (ds ++ rest) = (ds, rest).
Proof.
  intros D R. induction ds as [|c ds IH]; simpl.
  - destruct rest as [|c r]; [reflexivity|]. simpl. rewrite R. reflexivity.
  - simpl in D. apply andb_prop in D. destruct D as [Dc D].
    rewrite Dc, (IH D). reflexivity.
Qed.

Lemma string_app_nil_r (s : string) : s ++ "" = s.
Proof. induction s as [|c s IH]; simpl; [reflexivity | rewrite IH; reflexivity]. Qed.

Lemma string_app_assoc (a b c : string) : (a ++ b) ++ c = a ++ (b ++ c).
Proof. induction a as [|x a IH]; simpl; [reflexivity | rewrite IH; reflexivity]. Qed.

(** The numeral of an integer is not a range. *)
Lemma id_of_int_is_no_range z : multi_word_token_id (Str.of_int z) = None.
Proof.
  unfold multi_word_token_id. destruct (Z_le_gt_dec 0 z) as [Hz|Hz].
  - destruct (of_int_nonneg Hz) as (u & NN & -> & V).
    rewrite <- (string_app_nil_r (NilEmpty.string_of_uint u)).
    rewrite (span_digits_app _ "" (all_digits_string_of_uint u) I).
    destruct (NilEmpty.string_of_uint u); reflexivity.
  - destruct z as [|p|p]; try lia.
    destruct (of_int_neg p) as (u & NN & -> & V). reflexivity.
Qed.

(** The id that [set_mwt_expansions] writes is a range, and is read back as
    the two numbers it was made from. *)
Lemma id_of_range a b :
  0 <= a -> 0 <= b ->
  multi_word_token_id (Str.of_int a ++ "-" ++ Str.of_int b) = Some (a, b).
Proof.
  intros Ha Hb. unfold multi_word_token_id.
  destruct (of_int_nonneg Ha) as (ua & NNa & -> & Va).
  destruct (of_int_nonneg Hb) as (ub & NNb & -> & Vb).
  rewrite (span_digits_app _ ("-" ++ NilEmpty.string_of_uint ub)
             (all_digits_string_of_uint ua)) by reflexivity.
  destruct (string_of_uint_head NNa) as (ca & ra & Ea & Da).
  destruct (string_of_uint_head NNb) as (cb & rb & Eb & Db).
  pose proof (digits_string_of_uint ua 0) as Pa. rewrite Va in Pa.
  pose proof (digits_string_of_uint ub 0) as Pb. rewrite Vb in Pb.
  pose proof (span_digits_app _ "" (all_digits_string_of_uint ub) I) as Sb.
  rewrite string_app_nil_r in Sb.
  rewrite Ea in *. cbn [append]. rewrite Sb, Pa.
  rewrite Eb in *. rewrite Pb. reflexivity.
Qed.

(** ** Splitting and joining *)

Lemma split_aux_nonempty c cur s : Str.split_aux c cur s <> [].
Proof.
  revert cur; induction s as [|a s IH]; intros cur; simpl; [discriminate|].
  destruct (Ascii.eqb a c); [discriminate | apply IH].
Qed.

Lemma join_cons sep x l : l <> [] -> Str.join sep (x :: l) = x ++ sep ++ Str.join sep l.
Proof. destruct l; [contradiction | reflexivity]. Qed.

Lemma join_split_aux c cur s :
  Str.join (String c "") (Str.split_aux c cur s) = cur ++ s.
Proof.
  revert cur; induction s as [|a s IH]; intros cur; simpl.
  - symmetry. apply string_app_nil_r.
  - destruct (Ascii.eqb_spec a c) as [->|N].
    + rewrite join_cons by apply split_aux_nonempty. rewrite IH. reflexivity.
    + rewrite IH, string_app_assoc. reflexivity.
Qed.

(** [c.join(s.split(c)) == s]. *)
Lemma join_split c s : Str.join (String c "") (Str.split c s) = s.
Proof. unfold Str.split. rewrite join_split_aux. reflexivity. Qed.

Lemma count_app c a b : Str.count c (a ++ b) = (Str.count c a + Str.count c b)%nat.
Proof. induction a as [|x a IH]; simpl; [reflexivity | rewrite IH; lia]. Qed.

Lemma split_aux_items c s : forall cur,
  Str.count c cur = O ->
  Forall (fun x => Str.count c x = O) (Str.split_aux c cur s).
Proof.
  induction s as [|a s IH]; intros cur H; simpl.
  - constructor; [exact H | constructor].
  - destruct (Ascii.eqb a c) eqn:E.
    + constructor; [exact H | apply IH; reflexivity].
    + apply IH. rewrite count_app, H. simpl. rewrite E. reflexivity.
Qed.

(** The items of a split do not hold the separator. *)
Lemma split_items c s : Forall (fun x => Str.count c x = O) (Str.split c s).
Proof. apply split_aux_items. reflexivity. Qed.

Lemma split_aux_prefix c x : forall cur rest,
  Str.count c x = O ->
  Str.split_aux c cur (x ++ rest) = Str.split_aux c (cur ++ x) rest.
Proof.
  induction x as [|a x IH]; intros cur rest H; simpl.
  - rewrite string_app_nil_r. reflexivity.
  - simpl in H. destruct (Ascii.eqb a c); [discriminate|].
    rewrite IH by exact H. rewrite string_app_assoc. reflexivity.
Qed.

(** [c.join(l).split(c) == l] for a non-empty list of items without [c]. *)
Lemma split_join c l :
  l <> [] -> Forall (fun x => Str.count c x = O) l ->
  Str.split c (Str.join (String c "") l) = l.
Proof.
  induction l as [|x l IH]; intros NE F; [contradiction|].
  pose proof (Forall_inv F) as Fx. pose proof (Forall_inv_tail F) as Fl.
  destruct l as [|y l].
  - simpl. unfold Str.split.
    pose proof (@split_aux_prefix c x "" "" Fx) as H.
    rewrite string_app_nil_r in H. rewrite H. reflexivity.
  - rewrite join_cons by discriminate. unfold Str.split.
    rewrite split_aux_prefix by exact Fx. cbn [append Str.split_aux].
    rewrite Ascii.eqb_refl. f_equal. apply IH; [discriminate | exact Fl].
Qed.

Unset Implicit Arguments.

(** ** Regular entries *)

Lemma to_int_nonempty s z : Str.to_int s = Some z -> s <> "".
Proof. intros H E. subst s. discriminate. Qed.

Lemma word_init_items_inert items w :
  forallb inert_item items = true -> Word.init_items items w = Ok w.
Proof.
  induction items as [|item items IH]; simpl; [reflexivity|]. intros H.
  apply andb_prop in H. destruct H as [Hi H].
  assert (Word.init_item item w = Ok w) as E.
  { unfold Word.init_item. unfold inert_item in Hi.
    destruct (parse_item item) as [| |key val]; [reflexivity | discriminate |].
    apply andb_prop in Hi. destruct Hi as [P _]. apply negb_true_iff in P.
    unfold private_key in P. apply orb_false_elim in P. destruct P as [P R].
    apply orb_false_elim in P. destruct P as [P _].
    destruct (Word.attr_of_key key); [discriminate|]. rewrite R. reflexivity. }
  rewrite E. simpl. apply IH. exact H.
Qed.

Lemma inert_unless_null v : inert_misc v = true -> inert_misc (unless_null v) = true.
Proof.
  unfold unless_null. destruct (_is_null v); [reflexivity | trivial].
Qed.

Lemma word_finish w :
  inert_misc (Word.misc w) = true ->
  (if is_None (Word.misc w) then Ok w else Word.init_from_misc w) = Ok w.
Proof.
  unfold Word.init_from_misc, inert_misc.
  destruct (Word.misc w) as [|m| |]; try discriminate; simpl; [reflexivity|].
  apply word_init_items_inert.
Qed.

(** A regular Word entry is constructed, as [word_of] says. *)
Lemma word_init_regular e idx :
  word_index e = Some idx -> Word.init e = Ok (word_of e).
Proof.
  unfold word_index. destruct (e_id e) as [[|ident| |]|] eqn:I; try discriminate.
  destruct (multi_word_token_id ident); [discriminate|].
  destruct (truthy (entry_get TEXT e)) eqn:T; [|discriminate].
  destruct (inert_misc (entry_get MISC e)) eqn:M; [|discriminate].
  destruct (marked (entry_get MISC e)); [discriminate|].
  destruct (head_ok (entry_get HEAD e)) eqn:H; [|discriminate]. simpl.
  intros Hz. unfold Word.init.
  assert (entry_get ID e = VStr ident) as EI by (unfold entry_get; simpl; rewrite I; reflexivity).
  pose proof (@to_int_nonempty ident idx Hz) as NE.
  assert (truthy (VStr ident) = true) as TI.
  { simpl. destruct (String.eqb_spec ident ""); [contradiction | reflexivity]. }
  rewrite EI, T, TI. cbn [andb].
  rewrite word_assign_all. cbv zeta. rewrite EI.
  apply inert_unless_null in M.
  unfold word_of, normal_head, head_ok in *. rewrite EI.
  destruct (_is_null (entry_get HEAD e)); cbn [orb bind] in H |- *;
    [apply word_finish; exact M|].
  destruct (py_int (entry_get HEAD e)); [|discriminate]. cbn [bind].
  apply word_finish; exact M.
Qed.

Lemma public_key_is_no_attribute key :
  private_key key = false ->
  String.eqb key "id" = false /\ String.eqb key "text" = false
  /\ String.eqb key "misc" = false /\ String.eqb key "words" = false
  /\ reaches_internals key = false.
Proof.
  unfold private_key. intros P.
  apply orb_false_elim in P. destruct P as [P R].
  apply orb_false_elim in P. destruct P as [P W].
  unfold Word.attr_of_key in P.
  destruct (String.eqb key "id"); [discriminate|].
  destruct (String.eqb key "text"); [discriminate|].
  destruct (String.eqb key "lemma"); [discriminate|].
  destruct (String.eqb key "upos"); [discriminate|].
  destruct (String.eqb key "xpos"); [discriminate|].
  destruct (String.eqb key "feats"); [discriminate|].
  destruct (String.eqb key "head"); [discriminate|].
  destruct (String.eqb key "deprel"); [discriminate|].
  destruct (String.eqb key "deps"); [discriminate|].
  destruct (String.eqb key "misc"); [discriminate|].
  auto.
Qed.

(** What an inert item does to a Token: at most an offset is set. *)
Lemma token_init_item_inert item k :
  inert_item item = true ->
  exists a b, Token.init_item item k
              = Ok (Token.mk (Token.id k) (Token.text k) (Token.misc k)
                             (Token.words k) a b).
Proof.
  unfold inert_item, Token.init_item.
  destruct (parse_item item) as [| |key val]; [|discriminate|].
  - intros _. exists (Token.start_char k), (Token.end_char k). destruct k; reflexivity.
  - intros H. apply andb_prop in H. destruct H as [P O].
    apply negb_true_iff in P.
    destruct (public_key_is_no_attribute _ P) as (K1 & K2 & K3 & K4 & K5).
    destruct (String.eqb key "start_char") eqn:S; simpl in O.
    { unfold py_int. destruct (Str.to_int val) as [z|]; [|discriminate].
      eexists; eexists; reflexivity. }
    destruct (String.eqb key "end_char") eqn:E.
    { unfold py_int. destruct (Str.to_int val) as [z|]; [|discriminate].
      eexists; eexists; reflexivity. }
    rewrite K1, K2, K3, K4, K5.
    exists (Token.start_char k), (Token.end_char k). destruct k; reflexivity.
Qed.

Lemma token_init_items_inert items : forall k,
  forallb inert_item items = true ->
  exists a b, Token.init_items items k
              = Ok (Token.mk (Token.id k) (Token.text k) (Token.misc k)
                             (Token.words k) a b).
Proof.
  induction items as [|item items IH]; intros k H; simpl.
  - exists (Token.start_char k), (Token.end_char k). destruct k; reflexivity.
  - simpl in H. apply andb_prop in H. destruct H as [Hi H].
    destruct (token_init_item_inert item k Hi) as (a & b & ->). simpl.
    destruct (IH (Token.mk (Token.id k) (Token.text k) (Token.misc k)
                           (Token.words k) a b) H) as (a' & b' & ->).
    exists a', b'. reflexivity.
Qed.

(** The offsets apart, an inert [misc] leaves the Token as [__init__]
    filled it. *)
Lemma token_init_inert e ws :
  truthy (entry_get ID e) = true -> truthy (entry_get TEXT e) = true ->
  inert_misc (entry_get MISC e) = true ->
  exists a b, Token.init e ws
              = Ok (Token.mk (entry_get ID e) (entry_get TEXT e)
                             (unless_null (entry_get MISC e)) ws a b).
Proof.
  intros TI TT M. unfold Token.init. rewrite TI, TT. cbn [andb Token.misc].
  apply inert_unless_null in M. unfold Token.init_from_misc. cbn [Token.misc].
  destruct (unless_null (entry_get MISC e)) as [|m| |] eqn:U; try discriminate.
  - exists None, None. reflexivity.
  - cbn [is_None]. simpl in M.
    destruct (token_init_items_inert (Str.split "|" m)
                (Token.mk (entry_get ID e) (entry_get TEXT e) (VStr m) ws None None) M)
      as (a & b & ->).
    exists a, b. reflexivity.
Qed.

(** The Words handed to [Token(...)] do not influence the rest of the
    Token. *)
Lemma token_init_item_words item ws k :
  Token.init_item item (Token.set_words ws k)
  = match Token.init_item item k with
    | Ok k' => Ok (Token.set_words ws k')
    | Raise x => Raise x
    end.
Proof.
  unfold Token.init_item. destruct (parse_item item) as [| |key val]; try reflexivity.
  destruct (String.eqb key "start_char").
  { destruct (py_int (VStr val)); reflexivity. }
  destruct (String.eqb key "end_char").
  { destruct (py_int (VStr val)); reflexivity. }
  destruct (String.eqb key "id"); [reflexivity|].
  destruct (String.eqb key "text"); [reflexivity|].
  destruct (String.eqb key "misc"); [reflexivity|].
  destruct (String.eqb key "words"); [reflexivity|].
  destruct (reaches_internals key); reflexivity.
Qed.

Lemma token_init_items_words items ws : forall k,
  Token.init_items items (Token.set_words ws k)
  = match Token.init_items items k with
    | Ok k' => Ok (Token.set_words ws k')
    | Raise x => Raise x
    end.
Proof.
  induction items as [|item items IH]; intros k; simpl; [reflexivity|].
  rewrite token_init_item_words. destruct (Token.init_item item k); simpl;
    [apply IH | reflexivity].
Qed.

Lemma token_init_words e ws ws' :
  Token.init e ws'
  = match Token.init e ws with
    | Ok k => Ok (Token.set_words ws' k)
    | Raise x => Raise x
    end.
Proof.
  unfold Token.init. destruct (_ && _); [|reflexivity]. cbn [Token.misc].
  destruct (is_None (unless_null (entry_get MISC e))) eqn:N; [reflexivity|].
  unfold Token.init_from_misc. cbn [Token.misc].
  destruct (unless_null (entry_get MISC e)) as [|m| |]; try reflexivity.
  apply (token_init_items_words (Str.split "|" m) ws'
           (Token.mk (entry_get ID e) (entry_get TEXT e) (VStr m) ws None None)).
Qed.

(** [Token(...)] reads the id, the text and the [misc] of the entry only. *)
Lemma token_init_ext e e' ws :
  entry_get ID e = entry_get ID e' -> entry_get TEXT e = entry_get TEXT e' ->
  unless_null (entry_get MISC e) = unless_null (entry_get MISC e') ->
  Token.init e ws = Token.init e' ws.
Proof. intros I T M. unfold Token.init. rewrite I, T, M. reflexivity. Qed.

(** ** Scanning regular groups *)

Local Open Scope list_scope.

Lemma word_index_inv e idx :
  word_index e = Some idx ->
  exists ident,
    e_id e = Some (VStr ident) /\ multi_word_token_id ident = None
    /\ truthy (VStr ident) = true
    /\ truthy (entry_get TEXT e) = true /\ inert_misc (entry_get MISC e) = true
    /\ marked (entry_get MISC e) = false /\ head_ok (entry_get HEAD e) = true
    /\ Str.to_int ident = Some idx.
Proof.
  unfold word_index. destruct (e_id e) as [[|ident| |]|]; try discriminate.
  destruct (multi_word_token_id ident) eqn:E1; [discriminate|].
  destruct (truthy (entry_get TEXT e)) eqn:E2; [|discriminate].
  destruct (inert_misc (entry_get MISC e)) eqn:E3; [|discriminate].
  destruct (marked (entry_get MISC e)) eqn:E4; [discriminate|].
  destruct (head_ok (entry_get HEAD e)) eqn:E5; [|discriminate]. simpl.
  intros Hz. exists ident.
  pose proof (@to_int_nonempty ident idx Hz) as NE.
  assert (truthy (VStr ident) = true) as TI.
  { simpl. destruct (String.eqb_spec ident ""); [contradiction | reflexivity]. }
  auto 10.
Qed.

Lemma shell_end_inv en t en' :
  shell_end en t = Some en' ->
  exists ident,
    e_id t = Some (VStr ident) /\ truthy (VStr ident) = true
    /\ truthy (entry_get TEXT t) = true /\ inert_misc (entry_get MISC t) = true
    /\ ((exists a, multi_word_token_id ident = Some (a, en'))
        \/ (multi_word_token_id ident = None /\ marked (entry_get MISC t) = true
            /\ en' = en)).
Proof.
  unfold shell_end. destruct (e_id t) as [[|ident| |]|]; try discriminate.
  destruct (truthy (VStr ident)) eqn:E1; [|discriminate].
  destruct (truthy (entry_get TEXT t)) eqn:E2; [|discriminate].
  destruct (inert_misc (entry_get MISC t)) eqn:E3; [|discriminate]. cbn [andb].
  intros H. exists ident.
  do 4 (split; [first [reflexivity | assumption]|]).
  destruct (multi_word_token_id ident) as [[a b]|].
  - injection H as <-. left. exists a. reflexivity.
  - destruct (marked (entry_get MISC t)); [|discriminate]. injection H as <-.
    right. auto.
Qed.

Lemma misc_match_inert e :
  inert_misc (entry_get MISC e) = true ->
  Sentence.misc_match e = Ok (marked (entry_get MISC e)).
Proof.
  unfold Sentence.misc_match, inert_misc, marked.
  destruct (entry_get MISC e); try discriminate; reflexivity.
Qed.

Lemma entry_get_id e v : e_id e = Some v -> entry_get ID e = v.
Proof. intros H. unfold entry_get. simpl. rewrite H. reflexivity. Qed.

(** A regular Word entry is a Token of its own... *)
Lemma token_init_regular e idx ws :
  word_index e = Some idx -> Token.init e ws = Ok (token_of e ws).
Proof.
  intros H. destruct (word_index_inv _ _ H) as (ident & I & _ & TI & TT & M & _).
  rewrite <- (entry_get_id _ _ I) in TI.
  destruct (token_init_inert e ws TI TT M) as (a & b & E).
  unfold token_of. rewrite E. reflexivity.
Qed.

Lemma token_init_shell en t en' ws :
  shell_end en t = Some en' -> Token.init t ws = Ok (token_of t ws).
Proof.
  intros H. destruct (shell_end_inv _ _ _ H) as (ident & I & TI & TT & M & _).
  rewrite <- (entry_get_id _ _ I) in TI.
  destruct (token_init_inert t ws TI TT M) as (a & b & E).
  unfold token_of. rewrite E. reflexivity.
Qed.

Lemma step_single i e en s idx :
  word_index e = Some idx -> en < idx ->
  Sentence.step i e en s
  = (Sentence.mk (Sentence.tokens s ++ [token_of e [word_of e]])
                 (Sentence.words s ++ [word_of e])
                 (Sentence.dependencies s) (Sentence.text s), Ok en).
Proof.
  intros H L. pose proof (word_init_regular _ _ H) as W.
  pose proof (token_init_regular e _ [word_of e] H) as K.
  destruct (word_index_inv _ _ H) as (ident & I & Mid & _ & _ & M & Mk & _ & Hz).
  unfold Sentence.step. rewrite I, (entry_get_id _ _ I), Mid.
  rewrite (misc_match_inert _ M), Mk. cbn [orb]. rewrite W, Hz.
  destruct (Z.leb_spec idx en); [lia|]. rewrite K. reflexivity.
Qed.

Lemma append_to_last_snoc w ks k :
  Sentence.append_to_last w (ks ++ [k])
  = Some (ks ++ [Token.set_words (Token.words k ++ [w]) k]).
Proof.
  induction ks as [|k0 ks IH]; [reflexivity|].
  cbn [app Sentence.append_to_last]. rewrite IH.
  destruct (ks ++ [k]) eqn:E; [destruct ks; discriminate | reflexivity].
Qed.

Lemma step_attached i e en s ks k :
  attached en e = true -> Sentence.tokens s = ks ++ [k] ->
  Sentence.step i e en s
  = (Sentence.mk (ks ++ [Token.set_words (Token.words k ++ [word_of e]) k])
                 (Sentence.words s ++ [word_of e])
                 (Sentence.dependencies s) (Sentence.text s), Ok en).
Proof.
  unfold attached. destruct (word_index e) as [idx|] eqn:H; [|discriminate].
  intros L T. apply Z.leb_le in L. pose proof (word_init_regular _ _ H) as W.
  destruct (word_index_inv _ _ H) as (ident & I & Mid & _ & _ & M & Mk & _ & Hz).
  unfold Sentence.step. rewrite I, (entry_get_id _ _ I), Mid.
  rewrite (misc_match_inert _ M), Mk. cbn [orb]. rewrite W, Hz.
  destruct (Z.leb_spec idx en); [|lia].
  cbn [Sentence.tokens Sentence.set_words]. rewrite T, append_to_last_snoc. reflexivity.
Qed.

Lemma step_shell i t en s en' :
  shell_end en t = Some en' ->
  Sentence.step i t en s
  = (Sentence.mk (Sentence.tokens s ++ [token_of t []]) (Sentence.words s)
                 (Sentence.dependencies s) (Sentence.text s), Ok en').
Proof.
  intros H. pose proof (token_init_shell _ _ _ [] H) as K.
  destruct (shell_end_inv _ _ _ H) as (ident & I & _ & _ & M & C).
  unfold Sentence.step. rewrite I, (entry_get_id _ _ I), (misc_match_inert _ M), K.
  destruct C as [(a & ->)|(-> & -> & ->)]; reflexivity.
Qed.

Lemma scan_attached ws : forall rest i en s ks k,
  forallb (attached en) ws = true -> Sentence.tokens s = ks ++ [k] ->
  Sentence.scan i (ws ++ rest) en s
  = Sentence.scan (i + List.length ws) rest en
      (Sentence.mk (ks ++ [Token.set_words (Token.words k ++ map word_of ws) k])
                   (Sentence.words s ++ map word_of ws)
                   (Sentence.dependencies s) (Sentence.text s)).
Proof.
  induction ws as [|e ws IH]; intros rest i en s ks k A T.
  - simpl. rewrite Nat.add_0_r, !app_nil_r.
    replace (Token.set_words (Token.words k) k) with k by (destruct k; reflexivity).
    rewrite <- T. destruct s; reflexivity.
  - simpl in A. apply andb_prop in A. destruct A as [Ae A].
    cbn [app Sentence.scan]. rewrite (step_attached i e en s ks k Ae T).
    rewrite (IH rest (S i) en _ ks (Token.set_words (Token.words k ++ [word_of e]) k) A)
      by reflexivity.
    cbn [Sentence.words Sentence.dependencies Sentence.text Token.words
         Token.set_words List.length map].
    rewrite <- !app_assoc. cbn [app]. rewrite Nat.add_succ_r. reflexivity.
Qed.

Lemma token_of_words en t en' ws :
  shell_end en t = Some en' -> token_of t ws = Token.set_words ws (token_of t []).
Proof.
  intros H. pose proof (token_init_shell _ _ _ [] H) as K.
  unfold token_of at 1. rewrite (token_init_words t [] ws), K. reflexivity.
Qed.

Lemma token_of_words_nil en t en' :
  shell_end en t = Some en' -> Token.words (token_of t []) = [].
Proof.
  intros H. destruct (shell_end_inv _ _ _ H) as (ident & I & TI & TT & M & _).
  rewrite <- (entry_get_id _ _ I) in TI.
  destruct (token_init_inert t [] TI TT M) as (a & b & E).
  unfold token_of. rewrite E. reflexivity.
Qed.

(** The Tokens and Words that the scan of regular groups adds. *)
Lemma scan_regular gs : forall i en s,
  regular en gs = true ->
  Sentence.scan i (flatten gs) en s
  = (Sentence.mk (Sentence.tokens s ++ map token_of_group gs)
                 (Sentence.words s ++ flat_map words_of_group gs)
                 (Sentence.dependencies s) (Sentence.text s), Ok tt).
Proof.
  induction gs as [|g gs IH]; intros i en s R.
  - simpl. rewrite !app_nil_r. destruct s; reflexivity.
  - destruct g as [e|t ws]; cbn [regular] in R.
    + destruct (word_index e) as [idx|] eqn:H; [|discriminate].
      apply andb_prop in R. destruct R as [L R]. apply Z.ltb_lt in L.
      cbn [flatten flat_map entries_of app Sentence.scan].
      rewrite (step_single i e en s idx H L). fold (flatten gs). rewrite (IH _ _ _ R).
      cbn [Sentence.tokens Sentence.words Sentence.dependencies Sentence.text
           map flat_map token_of_group words_of_group].
      rewrite <- !app_assoc. reflexivity.
    + destruct (shell_end en t) as [en'|] eqn:H; [|discriminate].
      apply andb_prop in R. destruct R as [R Rg].
      apply andb_prop in R. destruct R as [_ A].
      cbn [flatten flat_map entries_of app Sentence.scan].
      rewrite (step_shell i t en s en' H). fold (flatten gs).
      rewrite (scan_attached ws (flatten gs) (S i) en' _ (Sentence.tokens s)
                 (token_of t []) A) by reflexivity.
      rewrite (IH _ _ _ Rg).
      cbn [Sentence.tokens Sentence.words Sentence.dependencies Sentence.text
           map flat_map token_of_group words_of_group].
      rewrite (token_of_words _ _ _ (map word_of ws) H), (token_of_words_nil _ _ _ H).
      rewrite <- !app_assoc. reflexivity.
Qed.

Unset Implicit Arguments.
Local Open Scope list_scope.


(** ** Serialising and constructing again *)

Lemma dget_present v : dget (present v) = v.
Proof. destruct v; reflexivity. Qed.

Lemma entry_get_to_dict f w : entry_get f (Word.to_dict w) = Word.getattr f w.
Proof. destruct f; apply dget_present. Qed.

Lemma unless_null_idem v : unless_null (unless_null v) = unless_null v.
Proof. unfold unless_null. destruct (_is_null v) eqn:E; [reflexivity | rewrite E; reflexivity]. Qed.

Lemma normal_head_idem v : normal_head (normal_head v) = normal_head v.
Proof.
  unfold normal_head. destruct (_is_null v); [reflexivity|].
  destruct (py_int v); reflexivity.
Qed.

Lemma normal_lemma_idem t v : normal_lemma t (normal_lemma t v) = normal_lemma t v.
Proof.
  unfold normal_lemma.
  destruct (match t with VStr x => String.eqb x "_" | _ => false end);
    [rewrite !orb_true_r; reflexivity|].
  rewrite !orb_false_r. destruct (_is_null v) eqn:E; simpl; [reflexivity|].
  rewrite E. reflexivity.
Qed.

(** Serialising a constructed Word and constructing it again gives the
    same Word. *)
Lemma word_of_to_dict e : word_of (Word.to_dict (word_of e)) = word_of e.
Proof.
  unfold word_of at 1. rewrite !entry_get_to_dict. cbn [Word.getattr word_of Word.id
    Word.text Word.lemma Word.upos Word.xpos Word.feats Word.head Word.deprel Word.deps
    Word.misc Word.ner].
  rewrite !unless_null_idem, normal_head_idem, normal_lemma_idem. reflexivity.
Qed.

Lemma marked_unless_null v : marked (unless_null v) = marked v.
Proof.
  unfold unless_null. destruct (_is_null v) eqn:E; [|reflexivity].
  destruct v as [|x| |]; try reflexivity. simpl in E.
  apply String.eqb_eq in E. subst x. reflexivity.
Qed.

Lemma head_ok_normal v : head_ok v = true -> head_ok (normal_head v) = true.
Proof.
  unfold head_ok, normal_head. destruct (_is_null v); [reflexivity|]. simpl.
  destruct (py_int v); [reflexivity | discriminate].
Qed.

Lemma word_index_to_dict e idx :
  word_index e = Some idx -> word_index (Word.to_dict (word_of e)) = Some idx.
Proof.
  intros H. destruct (word_index_inv _ _ H) as (ident & I & Mid & _ & TT & M & Mk & HO & Hz).
  unfold word_index. rewrite !entry_get_to_dict.
  cbn [Word.to_dict e_id word_of Word.id Word.getattr Word.text Word.misc Word.head].
  rewrite (entry_get_id _ _ I). cbn [present is_None]. rewrite Mid, TT.
  rewrite (inert_unless_null _ M), marked_unless_null, Mk, (head_ok_normal _ HO).
  exact Hz.
Qed.

Lemma token_of_to_dict e ws : token_of (Word.to_dict (word_of e)) ws = token_of e ws.
Proof.
  unfold token_of. rewrite (token_init_ext (Word.to_dict (word_of e)) e ws);
    [reflexivity | | |]; rewrite entry_get_to_dict; cbn [Word.getattr word_of Word.id
      Word.text Word.misc]; [reflexivity | reflexivity | apply unless_null_idem].
Qed.

Lemma token_of_shape en t en' ws :
  shell_end en t = Some en' ->
  exists a b, token_of t ws
              = Token.mk (entry_get ID t) (entry_get TEXT t)
                         (unless_null (entry_get MISC t)) ws a b.
Proof.
  intros H. destruct (shell_end_inv _ _ _ H) as (ident & I & TI & TT & M & _).
  rewrite <- (entry_get_id _ _ I) in TI.
  destruct (token_init_inert t ws TI TT M) as (a & b & E).
  exists a, b. unfold token_of. rewrite E. reflexivity.
Qed.

Lemma token_of_word_shape e idx ws :
  word_index e = Some idx ->
  exists a b, token_of e ws
              = Token.mk (entry_get ID e) (entry_get TEXT e)
                         (unless_null (entry_get MISC e)) ws a b.
Proof.
  intros H. destruct (word_index_inv _ _ H) as (ident & I & _ & TI & TT & M & _).
  rewrite <- (entry_get_id _ _ I) in TI.
  destruct (token_init_inert e ws TI TT M) as (a & b & E).
  exists a, b. unfold token_of. rewrite E. reflexivity.
Qed.

Lemma entry_get_own_dict k :
  entry_get ID (Token.own_dict k) = Token.id k
  /\ entry_get TEXT (Token.own_dict k) = Token.text k
  /\ entry_get MISC (Token.own_dict k) = Token.misc k.
Proof. repeat split; apply dget_present. Qed.

Lemma shell_end_own_dict en t en' :
  shell_end en t = Some en' ->
  shell_end en (Token.own_dict (token_of t [])) = Some en'.
Proof.
  intros H. destruct (token_of_shape _ _ _ [] H) as (a & b & E).
  destruct (shell_end_inv _ _ _ H) as (ident & I & TI & TT & M & C).
  destruct (entry_get_own_dict (token_of t [])) as (G1 & G2 & G3).
  unfold shell_end. rewrite G2, G3. rewrite E.
  cbn [Token.own_dict e_id Token.id Token.text Token.misc].
  rewrite (entry_get_id _ _ I). cbn [present is_None]. rewrite TI, TT.
  rewrite (inert_unless_null _ M). cbn [andb].
  destruct C as [(x & ->)|(-> & Mk & ->)]; [reflexivity|].
  rewrite marked_unless_null, Mk. reflexivity.
Qed.

Lemma token_of_own_dict en t en' ws :
  shell_end en t = Some en' ->
  token_of (Token.own_dict (token_of t [])) ws = token_of t ws.
Proof.
  intros H. destruct (token_of_shape _ _ _ [] H) as (a & b & E).
  destruct (entry_get_own_dict (token_of t [])) as (G1 & G2 & G3).
  unfold token_of at 1 3.
  rewrite (token_init_ext (Token.own_dict (token_of t [])) t ws); [reflexivity | | |].
  - rewrite G1, E. reflexivity.
  - rewrite G2, E. reflexivity.
  - rewrite G3, E. apply unless_null_idem.
Qed.

Lemma token_to_dict_group en g gs :
  regular en (g :: gs) = true ->
  Token.to_dict (token_of_group g) = entries_of (canon g).
Proof.
  destruct g as [e|t ws]; cbn [regular].
  - destruct (word_index e) as [idx|] eqn:H; [|discriminate]. intros _.
    destruct (token_of_word_shape e idx [word_of e] H) as (a & b & E).
    unfold Token.to_dict. cbn [token_of_group]. rewrite E. reflexivity.
  - destruct (shell_end en t) as [en'|] eqn:H; [|discriminate]. intros R.
    apply andb_prop in R. destruct R as [R _].
    apply andb_prop in R. destruct R as [L _]. apply negb_true_iff in L.
    destruct (token_of_shape _ _ _ (map word_of ws) H) as (a & b & E).
    destruct (token_of_shape _ _ _ [] H) as (a0 & b0 & E0).
    pose proof (token_of_words _ _ _ (map word_of ws) H) as W.
    unfold Token.to_dict. cbn [token_of_group canon entries_of].
    rewrite E. cbn [Token.words]. rewrite length_map, L. cbn [app].
    rewrite map_map. f_equal. rewrite <- E, W, E0. reflexivity.
Qed.

Lemma attached_to_dict en ws :
  forallb (attached en) ws = true ->
  forallb (attached en) (map (fun e => Word.to_dict (word_of e)) ws) = true.
Proof.
  induction ws as [|e ws IH]; simpl; [trivial|]. intros H.
  apply andb_prop in H. destruct H as [He H]. rewrite (IH H), andb_true_r.
  unfold attached in *. destruct (word_index e) as [idx|] eqn:I; [|discriminate].
  rewrite (word_index_to_dict _ _ I). exact He.
Qed.

(** The dictionaries of regular groups are regular groups, and stand for
    the same Tokens and Words. *)
Lemma canon_regular gs : forall en,
  regular en gs = true ->
  regular en (map canon gs) = true
  /\ map token_of_group (map canon gs) = map token_of_group gs
  /\ flat_map words_of_group (map canon gs) = flat_map words_of_group gs
  /\ flat_map Token.to_dict (map token_of_group gs) = flatten (map canon gs).
Proof.
  induction gs as [|g gs IH]; intros en R; [repeat split|].
  pose proof (token_to_dict_group _ _ _ R) as TD.
  destruct g as [e|t ws]; cbn [regular] in R.
  - destruct (word_index e) as [idx|] eqn:H; [|discriminate].
    apply andb_prop in R. destruct R as [L R].
    destruct (IH en R) as (R' & T' & W' & D').
    cbn [map canon regular flat_map words_of_group token_of_group flatten].
    rewrite (word_index_to_dict _ _ H), L, R', word_of_to_dict, token_of_to_dict.
    fold (flatten (map canon gs)).
    rewrite T', W', <- D'. cbn [token_of_group] in TD. rewrite TD. auto.
  - destruct (shell_end en t) as [en'|] eqn:H; [|discriminate].
    apply andb_prop in R. destruct R as [R Rg].
    apply andb_prop in R. destruct R as [L A].
    destruct (IH en' Rg) as (R' & T' & W' & D').
    cbn [map canon regular flat_map words_of_group token_of_group flatten].
    rewrite (shell_end_own_dict _ _ _ H), length_map, L, (attached_to_dict _ _ A), R'.
    rewrite (token_of_own_dict _ _ _ _ H).
    fold (flatten (map canon gs)).
    rewrite T', W', <- D'. cbn [token_of_group] in TD. rewrite TD.
    rewrite !map_map.
    assert (map (fun x => word_of (Word.to_dict (word_of x))) ws = map word_of ws) as E.
    { apply map_ext. intros x. apply word_of_to_dict. }
    rewrite E. auto.
Qed.

Lemma process_tokens_regular gs self :
  regular (-1) gs = true ->
  Sentence._process_tokens (flatten gs) self
  = Sentence._process_tokens (flatten (map canon gs)) self.
Proof.
  intros R. destruct (canon_regular gs (-1) R) as (R' & T' & W' & _).
  unfold Sentence._process_tokens.
  rewrite (scan_regular gs 0 (-1) _ R), (scan_regular (map canon gs) 0 (-1) _ R').
  rewrite T', W'. reflexivity.
Qed.

Lemma process_tokens_tokens gs self s :
  regular (-1) gs = true ->
  Sentence._process_tokens (flatten gs) self = (s, Ok tt) ->
  Sentence.tokens s = map token_of_group gs.
Proof.
  intros R H. destruct (@process_tokens_ok _ _ _ H) as (s0 & en & S & _ & T & _).
  rewrite (scan_regular gs 0 (-1) _ R) in S. injection S as <- _. exact T.
Qed.

(** A Sentence built from regular groups is built again from its own
    dictionaries. *)
Lemma sentence_roundtrip gs s :
  regular (-1) gs = true ->
  Sentence.init (flatten gs) = Ok s ->
  Sentence.init (Sentence.to_dict s) = Ok s.
Proof.
  intros R. unfold Sentence.init.
  destruct (Sentence._process_tokens (flatten gs) Sentence.blank) as [s' [[]|x]] eqn:P;
    [|discriminate].
  intros [= <-]. unfold Sentence.to_dict.
  rewrite (process_tokens_tokens gs _ _ R P).
  destruct (canon_regular gs (-1) R) as (_ & _ & _ & ->).
  rewrite <- (process_tokens_regular gs _ R), P. reflexivity.
Qed.

Lemma with_text_to_dict txt s s' :
  Document.with_text txt s = Ok s' -> Sentence.to_dict s' = Sentence.to_dict s.
Proof.
  intros H. destruct (@with_text_words _ _ _ H) as (_ & T & _).
  unfold Sentence.to_dict. rewrite T. reflexivity.
Qed.

Lemma append_sentences_roundtrip gss : forall d0 d1,
  Forall (fun gs => regular (-1) gs = true) gss ->
  Document.append_sentences (map flatten gss) d0 = (d1, Ok tt) ->
  exists ss,
    d1 = Document.set_sentences (Document.sentences d0 ++ ss) d0
    /\ forall e0, Document.text e0 = Document.text d0 ->
         Document.append_sentences (map Sentence.to_dict ss) e0
         = (Document.set_sentences (Document.sentences e0 ++ ss) e0, Ok tt).
Proof.
  induction gss as [|gs gss IH]; intros d0 d1 F; simpl.
  - intros [= <-]. exists []. split.
    + rewrite app_nil_r. destruct d0; reflexivity.
    + intros e0 _. simpl. rewrite app_nil_r. destruct e0; reflexivity.
  - pose proof (Forall_inv F) as R. pose proof (Forall_inv_tail F) as F'.
    destruct (Sentence.init (flatten gs)) as [s|x] eqn:I; [|discriminate].
    destruct (Document.with_text (Document.text d0) s) as [s'|x] eqn:T; [|discriminate].
    intros H. destruct (IH _ _ F' H) as (ss & -> & K).
    exists (s' :: ss). split.
    + cbn [Document.sentences Document.set_sentences]. rewrite <- app_assoc.
      reflexivity.
    + intros e0 E. cbn [map Document.append_sentences].
      rewrite (with_text_to_dict _ _ _ T), (sentence_roundtrip gs s R I), E, T.
      rewrite (K (Document.set_sentences (Document.sentences e0 ++ [s']) e0))
        by exact E.
      cbn [Document.sentences Document.set_sentences]. rewrite <- app_assoc.
      reflexivity.
Qed.

(** C2, as the code has it.  A Document constructed from regular
    sentences (every Word entry has a numeral for id, no range, an inert
    and unmarked [misc] and an acceptable head; every multi-word token is
    followed by no Word or by several, numbered within its range; every
    other Word has a number beyond the last range) is constructed again
    from its own dictionaries, with the same text, as the very same
    Document: same Sentences, Tokens, Words and field values. *)
Theorem regular_document_roundtrip :
  forall (gss : list (list group)) (txt : option string) (d : Document.t),
    Forall (fun gs => regular (-1) gs = true) gss ->
    Document.init (map flatten gss) txt = Ok d ->
    Document.init (Document.to_dict d) txt = Ok d.
Proof.
  intros gss txt d F. unfold Document.init, Document._process_sentences.
  destruct (Document.append_sentences (map flatten gss) _) as [d1 [[]|x]] eqn:A;
    [|discriminate].
  intros [= <-].
  destruct (append_sentences_roundtrip gss _ _ F A) as (ss & -> & K).
  unfold Document.to_dict.
  cbn [Document.sentences Document.set_sentences Document.set_num_words
       Document.set_ents app].
  rewrite (K (Document.set_sentences [] (Document.mk [] txt 0 []))) by reflexivity.
  reflexivity.
Qed.

Lemma regular_document_roundtrip_witness :
  Document.init
    (Document.to_dict
       (Examples.document_of (map flatten Examples.du_pain_expanded) None)) None
  = Ok (Examples.document_of (map flatten Examples.du_pain_expanded) None).
Proof.
  apply (regular_document_roundtrip Examples.du_pain_expanded).
  - repeat constructor.
  - vm_compute; reflexivity.
Defined.

(** C2, as the specification has it, fails.  When the range of a
    multi-word token lies within that of the token before it and holds one
    Word, [to_dict] leaves the inner token out and the Document built from
    the dictionaries has one Token where the original has two.  When the
    [misc] of a Word says [misc=_], the Word of the original has the [misc]
    ['_'] and the Word built again has none. *)
Lemma roundtrip_changes_the_document :
  let d := Examples.document_of Examples.overlapping_ranges None in
  let d' := Examples.document_of (Document.to_dict d) None in
  let m := Examples.document_of Examples.misc_override None in
  let m' := Examples.document_of (Document.to_dict m) None in
  is_ok (Document.init Examples.overlapping_ranges None) = true
  /\ is_ok (Document.init (Document.to_dict d) None) = true
  /\ Examples.sizes d = (1%nat, 2%nat, 1) /\ Examples.sizes d' = (1%nat, 1%nat, 1)
  /\ is_ok (Document.init Examples.misc_override None) = true
  /\ is_ok (Document.init (Document.to_dict m) None) = true
  /\ Examples.column MISC m = [VStr "_"] /\ Examples.column MISC m' = [VNone].
Proof. vm_compute. repeat split. Qed.

Unset Implicit Arguments.
Local Open Scope list_scope.

(** ** Expanding regular Documents *)

Lemma is_mwt_word_token e idx ws :
  word_index e = Some idx -> Document.is_mwt (token_of e ws) = Ok false.
Proof.
  intros H. destruct (token_of_word_shape e idx ws H) as (a & b & ->).
  destruct (word_index_inv _ _ H) as (ident & I & Mid & _ & _ & M & Mk & _).
  unfold Document.is_mwt. cbn [Token.id Token.misc].
  rewrite (entry_get_id _ _ I), Mid.
  rewrite <- marked_unless_null in Mk. apply inert_unless_null in M.
  destruct (unless_null (entry_get MISC e)); try discriminate; [reflexivity|].
  simpl in Mk. rewrite Mk. reflexivity.
Qed.

Lemma is_mwt_shell_token en t en' ws :
  shell_end en t = Some en' -> Document.is_mwt (token_of t ws) = Ok true.
Proof.
  intros H. destruct (token_of_shape _ _ _ ws H) as (a & b & ->).
  destruct (shell_end_inv _ _ _ H) as (ident & I & _ & _ & M & C).
  unfold Document.is_mwt. cbn [Token.id Token.misc].
  rewrite (entry_get_id _ _ I). apply inert_unless_null in M.
  destruct C as [(x & ->)|(-> & Mk & _)].
  - destruct (unless_null (entry_get MISC t)); try discriminate; reflexivity.
  - rewrite <- marked_unless_null in Mk.
    destruct (unless_null (entry_get MISC t)); try discriminate.
    simpl in Mk. rewrite Mk. reflexivity.
Qed.

Lemma expansion_words_nonempty e :
  Forall (fun x => x <> ""%string) (Document.expansion_words e).
Proof.
  apply Forall_forall. intros x Hx. unfold Document.expansion_words in Hx.
  apply filter_In in Hx. destruct Hx as [_ Hx]. apply negb_true_iff in Hx.
  intros E. subst x. discriminate.
Qed.

Lemma word_index_fresh j x :
  x <> ""%string ->
  word_index (mk_entry (Some (VStr (Str.of_int j))) (Some (VStr x))
                       None None None None None None None None None) = Some j.
Proof.
  intros NE. unfold word_index. cbn [e_id]. rewrite id_of_int_is_no_range.
  unfold entry_get. cbn [entry_lookup e_text e_misc e_head dget truthy inert_misc
    marked head_ok _is_null negb andb orb].
  destruct (String.eqb_spec x ""); [contradiction|]. cbn [negb andb].
  apply to_int_of_int.
Qed.

Lemma fresh_words_regular texts : forall idx,
  Forall (fun x => x <> ""%string) texts ->
  Document.fresh_words idx texts = Ok (map word_of (fresh_entries idx texts)).
Proof.
  induction texts as [|x texts IH]; intros idx F; [reflexivity|].
  pose proof (Forall_inv F) as Fx. pose proof (Forall_inv_tail F) as F'.
  cbn [Document.fresh_words fresh_entries map].
  rewrite (word_init_regular _ _ (word_index_fresh idx x Fx)). cbn [bind].
  rewrite (IH _ F'). reflexivity.
Qed.

Lemma fresh_entries_attached texts : forall idx en,
  Forall (fun x => x <> ""%string) texts ->
  idx + Z.of_nat (List.length texts) - 1 <= en ->
  forallb (attached en) (map (fun e => Word.to_dict (word_of e)) (fresh_entries idx texts))
  = true.
Proof.
  induction texts as [|x texts IH]; intros idx en F L; [reflexivity|].
  pose proof (Forall_inv F) as Fx. pose proof (Forall_inv_tail F) as F'.
  cbn [fresh_entries map forallb]. cbn [List.length] in L.
  rewrite (IH (idx + 1) en F') by lia. rewrite andb_true_r.
  unfold attached.
  rewrite (word_index_to_dict _ _ (word_index_fresh idx x Fx)).
  apply Z.leb_le. lia.
Qed.

Lemma length_fresh_entries texts : forall idx,
  List.length (fresh_entries idx texts) = List.length texts.
Proof. induction texts as [|x texts IH]; intros idx; simpl; [|rewrite IH]; reflexivity. Qed.

Lemma texts_fresh texts : forall idx,
  Document.texts (map word_of (fresh_entries idx texts)) = Ok texts.
Proof.
  induction texts as [|x texts IH]; intros idx; [reflexivity|].
  cbn [fresh_entries map Document.texts word_of Word.text].
  unfold entry_get at 1. cbn [entry_lookup e_text dget]. rewrite IH. reflexivity.
Qed.

Lemma inert_item_empty : inert_item "" = true.
Proof. reflexivity. Qed.

(** The [misc] that an expanded Token is left with is inert if it was. *)
Lemma inert_strip_marker x v :
  inert_misc (VStr x) = true -> Document.strip_marker (VStr x) = Ok v ->
  inert_misc (unless_null v) = true.
Proof.
  intros M. unfold Document.strip_marker.
  destruct (String.eqb x "MWT=Yes"); intros [= <-]; [reflexivity|].
  apply inert_unless_null. cbn [inert_misc] in *.
  set (l := filter (fun i => negb (String.eqb i "MWT=Yes")) (Str.split "|" x)).
  assert (forallb inert_item l = true) as Il.
  { apply forallb_forall. intros i Hi. apply filter_In in Hi. destruct Hi as [Hi _].
    exact (proj1 (forallb_forall _ _) M i Hi). }
  destruct l as [|i l'] eqn:E; [reflexivity|].
  change (String "|" "")%string with (String "|"%char EmptyString).
  rewrite (@split_join "|"%char (i :: l')); [exact Il | discriminate |].
  rewrite <- E. apply Forall_forall. intros y Hy. apply filter_In in Hy.
  destruct Hy as [Hy _].
  exact (proj1 (Forall_forall _ _) (split_items "|"%char x) y Hy).
Qed.

Lemma token_expansions_app ks1 : forall ks2 p1 p2,
  Document.token_expansions ks1 = Ok p1 -> Document.token_expansions ks2 = Ok p2 ->
  Document.token_expansions (ks1 ++ ks2) = Ok (p1 ++ p2).
Proof.
  induction ks1 as [|k ks1 IH]; intros ks2 p1 p2 H1 H2.
  - injection H1 as <-. exact H2.
  - cbn [app Document.token_expansions] in *.
    destruct (Document.is_mwt k) as [[|]|x]; cbn [bind] in *; try discriminate.
    + destruct (Document.texts (Token.words k)) as [xs|x]; cbn [bind] in *;
        [|discriminate].
      destruct (Document.token_expansions ks1) as [r|x] eqn:R; cbn [bind] in *;
        [|discriminate].
      injection H1 as <-. rewrite (IH ks2 r p2 eq_refl H2). reflexivity.
    + apply IH; assumption.
Qed.

Lemma skipn_nth_error {A : Type} (l : list A) : forall i x,
  nth_error l i = Some x -> skipn i l = x :: skipn (S i) l.
Proof.
  induction l as [|a l IH]; intros [|i] x H; simpl in *; try discriminate.
  - injection H as <-. reflexivity.
  - apply IH. exact H.
Qed.

Lemma renumbered_regular e idx iw :
  word_index e = Some idx ->
  word_index (Word.to_dict (Document.renumber iw (word_of e))) = Some iw.
Proof.
  intros H. destruct (word_index_inv _ _ H) as (ident & I & _ & _ & TT & M & Mk & _).
  unfold word_index. rewrite !entry_get_to_dict.
  cbn [Word.to_dict e_id Document.renumber Word.store word_of Word.id Word.text
       Word.lemma Word.upos Word.xpos Word.feats Word.head Word.deprel Word.deps
       Word.misc Word.ner Word.getattr present is_None].
  rewrite id_of_int_is_no_range, TT, (inert_unless_null _ M), marked_unless_null, Mk.
  cbn [andb negb head_ok _is_null orb]. apply to_int_of_int.
Qed.

Lemma expand_token_single exps iw ie e idx :
  word_index e = Some idx ->
  Document.expand_token exps iw ie (token_of e [word_of e])
  = Ok (Document.mk_expanded
          (Token.set_words [Document.renumber iw (word_of e)] (token_of e [word_of e]))
          [Document.renumber iw (word_of e)] iw ie).
Proof.
  intros H. unfold Document.expand_token.
  rewrite (is_mwt_word_token e idx _ H). cbn [bind negb].
  destruct (token_of_word_shape e idx [word_of e] H) as (a & b & ->). reflexivity.
Qed.

Lemma range_id_nonempty a b :
  0 <= a -> 0 <= b -> truthy (VStr (Str.of_int a ++ "-" ++ Str.of_int b)%string) = true.
Proof.
  intros Ha Hb. pose proof (@id_of_range a b Ha Hb) as R.
  unfold truthy. apply negb_true_iff. apply String.eqb_neq.
  intros E. rewrite E in R. discriminate.
Qed.

(** What the loop of [set_mwt_expansions] makes of a regular multi-word
    token: a Token that serialises to a regular multi-word group again,
    whose destination is the expansion, joined. *)
Lemma expand_token_multi exps iw ie en0 t en0' ws r :
  shell_end en0 t = Some en0' -> 1 <= iw ->
  Forall (fun e => List.length (Document.expansion_words e) <> 1%nat) exps ->
  Document.expand_token exps iw ie (token_of t ws) = Ok r ->
  exists e t1 wes,
    nth_error exps ie = Some e
    /\ Document.x_idx_e r = S ie
    /\ Document.x_idx_w r = iw + Z.of_nat (List.length (Document.expansion_words e)) - 1
    /\ Token.to_dict (Document.x_token r) = t1 :: wes
    /\ (forall en, shell_end en t1 = Some (Document.x_idx_w r))
    /\ (List.length wes =? 1)%nat = false
    /\ forallb (attached (Document.x_idx_w r)) wes = true
    /\ Document.token_expansions [token_of t1 (map word_of wes)]
       = Ok [(entry_get TEXT t, joined e)].
Proof.
  intros H Liw F. unfold Document.expand_token.
  rewrite (is_mwt_shell_token _ _ _ ws H). cbn [bind negb].
  destruct (nth_error exps ie) as [e|] eqn:N; [|discriminate].
  destruct (token_of_shape _ _ _ ws H) as (a & b & ->). cbn [Token.misc].
  destruct (shell_end_inv _ _ _ H) as (ident & I & TI & TT & M & _).
  apply inert_unless_null in M.
  destruct (unless_null (entry_get MISC t)) as [|x| |] eqn:U; try discriminate.
  destruct (Document.strip_marker (VStr x)) as [v|y] eqn:S; [|discriminate].
  cbn [bind].
  pose proof (expansion_words_nonempty e) as NE.
  rewrite (fresh_words_regular _ iw NE). cbn [bind].
  intros [= <-]. cbn [Document.x_idx_e Document.x_idx_w Document.x_token].
  set (n := List.length (Document.expansion_words e)) in *.
  set (fes := fresh_entries iw (Document.expansion_words e)).
  assert (n <> 1%nat) as N1.
  { apply (proj1 (Forall_forall _ _) F e). apply nth_error_In with ie. exact N. }
  assert (0 <= iw + Z.of_nat n - 1) as Hb by lia.
  assert (0 <= iw) as Ha by lia.
  exists e.
  exists (Token.own_dict
            (Token.set_words (map word_of fes)
               (Token.set_id (VStr (Str.of_int iw ++ "-" ++ Str.of_int (iw + Z.of_nat n - 1))%string)
                  (Token.set_misc v
                     (Token.mk (entry_get ID t) (entry_get TEXT t) (VStr x) ws a b))))).
  exists (map (fun e0 => Word.to_dict (word_of e0)) fes).
  assert ((List.length (map word_of fes) =? 1)%nat = false) as L1.
  { unfold fes. rewrite length_map, length_fresh_entries. apply Nat.eqb_neq. exact N1. }
  assert (forall en,
    shell_end en
      (Token.own_dict
         (Token.set_words (map word_of fes)
            (Token.set_id (VStr (Str.of_int iw ++ "-" ++ Str.of_int (iw + Z.of_nat n - 1))%string)
               (Token.set_misc v
                  (Token.mk (entry_get ID t) (entry_get TEXT t) (VStr x) ws a b)))))
    = Some (iw + Z.of_nat n - 1)) as SE.
  { intros en. unfold shell_end.
    destruct (entry_get_own_dict
      (Token.set_words (map word_of fes)
         (Token.set_id (VStr (Str.of_int iw ++ "-" ++ Str.of_int (iw + Z.of_nat n - 1))%string)
            (Token.set_misc v
               (Token.mk (entry_get ID t) (entry_get TEXT t) (VStr x) ws a b)))))
      as (_ & G2 & G3).
    rewrite G2, G3.
    cbn [Token.own_dict e_id Token.set_words Token.set_id Token.set_misc
         Token.store_misc Token.id Token.text Token.misc present is_None].
    rewrite (range_id_nonempty _ _ Ha Hb), TT, (inert_strip_marker x v M S).
    cbn [andb]. rewrite (@id_of_range _ _ Ha Hb). reflexivity. }
  split; [reflexivity|]. split; [reflexivity|]. split; [reflexivity|].
  split.
  { unfold Token.to_dict. cbn [Token.words Token.set_words]. rewrite L1.
    cbn [app]. rewrite map_map. reflexivity. }
  split; [exact SE|].
  split.
  { rewrite length_map. unfold fes. rewrite length_fresh_entries.
    apply Nat.eqb_neq. exact N1. }
  split.
  { apply fresh_entries_attached; [exact NE | fold n; lia]. }
  cbn [Document.token_expansions].
  rewrite (is_mwt_shell_token _ _ _ _ (SE 0)). cbn [bind].
  destruct (token_of_shape _ _ _
             (map word_of (map (fun e0 => Word.to_dict (word_of e0)) fes)) (SE 0))
    as (a' & b' & ->).
  cbn [Token.words Token.text].
  rewrite map_map.
  assert (map (fun x0 => word_of (Word.to_dict (word_of x0))) fes = map word_of fes) as E.
  { apply map_ext. intros x0. apply word_of_to_dict. }
  rewrite E. unfold fes. rewrite texts_fresh. cbn [bind].
  destruct (entry_get_own_dict
      (Token.set_words (map word_of (fresh_entries iw (Document.expansion_words e)))
         (Token.set_id (VStr (Str.of_int iw ++ "-" ++ Str.of_int (iw + Z.of_nat n - 1))%string)
            (Token.set_misc v
               (Token.mk (entry_get ID t) (entry_get TEXT t) (VStr x) ws a b)))))
      as (_ & G2 & _).
  fold fes in G2 |- *. rewrite G2. reflexivity.
Qed.

Section Expansion.

Variable exps : list string.
Hypothesis several :
  Forall (fun e => List.length (Document.expansion_words e) <> 1%nat) exps.

Lemma expand_tokens_regular gs : forall en0 iw ie en ks ws e',
  regular en0 gs = true -> en <= iw -> 0 <= iw ->
  Document.expand_tokens exps iw ie (map token_of_group gs) = (ks, ws, e', Ok tt) ->
  exists gs' consumed pairs,
    flat_map Token.to_dict ks = flatten gs'
    /\ regular en gs' = true
    /\ skipn ie exps = consumed ++ skipn e' exps
    /\ Document.token_expansions (map token_of_group gs') = Ok pairs
    /\ map snd pairs = map joined consumed
    /\ map fst pairs = sources gs.
Proof.
  induction gs as [|g gs IH]; intros en0 iw ie en ks ws e' R L P.
  - cbn [map Document.expand_tokens]. intros [= <- <- <-].
    exists [], [], []. repeat split.
  - destruct g as [e|t ws0]; cbn [regular] in R.
    + destruct (word_index e) as [idx|] eqn:H; [|discriminate].
      apply andb_prop in R. destruct R as [_ R].
      cbn [map token_of_group Document.expand_tokens].
      rewrite (expand_token_single exps (iw + 1) ie e idx H).
      cbn [Document.x_idx_w Document.x_idx_e Document.x_token Document.x_old_words].
      destruct (Document.expand_tokens exps (iw + 1) ie (map token_of_group gs))
        as [[[ks1 ws1] e1] out] eqn:E.
      intros [= <- <- <- ->].
      destruct (IH en0 (iw + 1) ie en ks1 ws1 e1 R ltac:(lia) ltac:(lia) E)
        as (gs' & consumed & pairs & D & R' & K & T & S1 & S2).
      exists (Single (Word.to_dict (Document.renumber (iw + 1) (word_of e))) :: gs').
      exists consumed, pairs.
      pose proof (renumbered_regular e idx (iw + 1) H) as W.
      split; [|split; [|split; [exact K|split; [|split; [exact S1|exact S2]]]]].
      * cbn [flat_map flatten entries_of]. fold (flatten gs'). rewrite <- D. reflexivity.
      * cbn [regular]. rewrite W, R'. destruct (Z.ltb_spec en (iw + 1)); [reflexivity | lia].
      * cbn [map token_of_group Document.token_expansions].
        rewrite (is_mwt_word_token _ _ _ W). cbn [bind]. exact T.
    + destruct (shell_end en0 t) as [en0'|] eqn:H; [|discriminate].
      apply andb_prop in R. destruct R as [_ R].
      cbn [map token_of_group Document.expand_tokens].
      destruct (Document.expand_token exps (iw + 1) ie (token_of t (map word_of ws0)))
        as [r|x] eqn:X; [|discriminate].
      destruct (expand_token_multi exps (iw + 1) ie en0 t en0' _ r H ltac:(lia) several X)
        as (e & t1 & wes & N & Xe & Xw & TD & SE & L1 & A & TE).
      destruct (Document.expand_tokens exps (Document.x_idx_w r) (Document.x_idx_e r)
                  (map token_of_group gs)) as [[[ks1 ws1] e1] out] eqn:E.
      intros [= <- <- <- ->].
      destruct (IH en0' (Document.x_idx_w r) (Document.x_idx_e r) (Document.x_idx_w r)
                  ks1 ws1 e1 R ltac:(lia) ltac:(lia) E)
        as (gs' & consumed & pairs & D & R' & K & T & S1 & S2).
      exists (Multi t1 wes :: gs'), (e :: consumed), ((entry_get TEXT t, joined e) :: pairs).
      split; [|split; [|split; [|split; [|split]]]].
      * cbn [flat_map flatten entries_of]. fold (flatten gs'). rewrite <- D, TD. reflexivity.
      * cbn [regular]. rewrite (SE en), L1, A, R'. reflexivity.
      * rewrite (skipn_nth_error exps ie e N). rewrite Xe in K. rewrite K. reflexivity.
      * cbn [map token_of_group].
        apply (token_expansions_app [token_of t1 (map word_of wes)] _ _ _ TE T).
      * cbn [map snd]. rewrite S1. reflexivity.
      * cbn [map fst sources flat_map app]. fold (sources gs). rewrite S2. reflexivity.
Qed.

Lemma expand_sentence_regular gs s ie s2 e' :
  holds s gs ->
  Document.expand_sentence exps ie s = (s2, e', Ok tt) ->
  exists gs' consumed pairs,
    holds s2 gs'
    /\ skipn ie exps = consumed ++ skipn e' exps
    /\ Document.token_expansions (Sentence.tokens s2) = Ok pairs
    /\ map snd pairs = map joined consumed
    /\ map fst pairs = sources gs.
Proof.
  intros [R T]. unfold Document.expand_sentence. rewrite T.
  destruct (Document.expand_tokens exps 0 ie (map token_of_group gs))
    as [[[ks ws] e1] [[]|x]] eqn:E; [|discriminate].
  destruct (expand_tokens_regular gs (-1) 0 ie (-1) ks ws e1 R ltac:(lia) ltac:(lia) E)
    as (gs' & consumed & pairs & D & R' & K & TE & S1 & S2).
  unfold Sentence.to_dict. cbn [Sentence.tokens Sentence.set_tokens Sentence.set_words].
  rewrite D.
  destruct (Sentence._process_tokens (flatten gs') _) as [s3 out] eqn:P.
  intros [= <- <- ->].
  pose proof (process_tokens_tokens gs' _ _ R' P) as T3.
  exists gs', consumed, pairs. rewrite T3. repeat split; assumption.
Qed.

Lemma expand_sentences_regular ss : forall gss ie ss2 e',
  Forall2 holds ss gss ->
  Document.expand_sentences exps ie ss = (ss2, e', Ok tt) ->
  exists gss' consumed pairs,
    Forall2 holds ss2 gss'
    /\ skipn ie exps = consumed ++ skipn e' exps
    /\ Document.token_expansions (flat_map Sentence.tokens ss2) = Ok pairs
    /\ map snd pairs = map joined consumed
    /\ map fst pairs = flat_map sources gss.
Proof.
  induction ss as [|s ss IH]; intros gss ie ss2 e' F.
  - inversion F; subst. cbn [Document.expand_sentences]. intros [= <- <-].
    exists [], [], []. repeat split. constructor.
  - inversion F as [|? gs ? gss0 Hs F']; subst. cbn [Document.expand_sentences].
    destruct (Document.expand_sentence exps ie s) as [[s1 e1] [[]|x]] eqn:E;
      [|discriminate].
    destruct (expand_sentence_regular gs s ie s1 e1 Hs E)
      as (gs' & c1 & p1 & H1 & K1 & T1 & A1 & B1).
    destruct (Document.expand_sentences exps e1 ss) as [[ss1 e2] out] eqn:R.
    intros [= <- <- ->].
    destruct (IH gss0 e1 ss1 e2 F' R) as (gss' & c2 & p2 & H2 & K2 & T2 & A2 & B2).
    exists (gs' :: gss'), (c1 ++ c2), (p1 ++ p2).
    split; [constructor; assumption|].
    split; [rewrite K1, K2, app_assoc; reflexivity|].
    split; [cbn [flat_map]; apply token_expansions_app; assumption|].
    split; [rewrite !map_app, A1, A2; reflexivity|].
    cbn [flat_map]. rewrite map_app, B1, B2. reflexivity.
Qed.

End Expansion.

Unset Implicit Arguments.
Local Open Scope list_scope.

(** ** Expansions read back *)

Lemma sentence_init_holds gs s :
  regular (-1) gs = true -> Sentence.init (flatten gs) = Ok s -> holds s gs.
Proof.
  intros R. unfold Sentence.init.
  destruct (Sentence._process_tokens (flatten gs) Sentence.blank) as [s' [[]|x]] eqn:P;
    [|discriminate].
  intros [= <-]. split; [exact R|]. exact (process_tokens_tokens gs _ _ R P).
Qed.

Lemma with_text_holds txt s s' gs :
  Document.with_text txt s = Ok s' -> holds s gs -> holds s' gs.
Proof.
  intros H [R T]. destruct (@with_text_words _ _ _ H) as (_ & T' & _).
  split; [exact R | rewrite T'; exact T].
Qed.

Lemma sentence_init_to_dict_holds gs s s' :
  holds s gs -> Sentence.init (Sentence.to_dict s) = Ok s' -> holds s' gs.
Proof.
  intros [R T] H. destruct (canon_regular gs (-1) R) as (R' & T' & _ & D').
  unfold Sentence.to_dict in H. rewrite T, D' in H.
  destruct (sentence_init_holds (map canon gs) s' R' H) as [_ T2].
  split; [exact R | rewrite T2; exact T'].
Qed.

Lemma append_sentences_holds gss : forall d0 d1,
  Forall (fun gs => regular (-1) gs = true) gss ->
  Document.append_sentences (map flatten gss) d0 = (d1, Ok tt) ->
  exists ss, Document.sentences d1 = Document.sentences d0 ++ ss
             /\ Forall2 holds ss gss.
Proof.
  induction gss as [|gs gss IH]; intros d0 d1 F; cbn [map Document.append_sentences].
  - intros [= <-]. exists []. rewrite app_nil_r. split; [reflexivity | constructor].
  - pose proof (Forall_inv F) as R. pose proof (Forall_inv_tail F) as F'.
    destruct (Sentence.init (flatten gs)) as [s|x] eqn:I; [|discriminate].
    destruct (Document.with_text (Document.text d0) s) as [s'|x] eqn:T; [|discriminate].
    intros H. destruct (IH _ _ F' H) as (ss & E & H2).
    exists (s' :: ss). cbn [Document.sentences Document.set_sentences] in E.
    rewrite E, <- app_assoc. split; [reflexivity|]. constructor; [|exact H2].
    exact (with_text_holds _ _ _ _ T (sentence_init_holds gs s R I)).
Qed.

Lemma append_to_dict_holds ss : forall gss d0 d1,
  Forall2 holds ss gss ->
  Document.append_sentences (map Sentence.to_dict ss) d0 = (d1, Ok tt) ->
  exists ss', Document.sentences d1 = Document.sentences d0 ++ ss'
              /\ map Sentence.tokens ss' = map Sentence.tokens ss.
Proof.
  induction ss as [|s ss IH]; intros gss d0 d1 F; cbn [map Document.append_sentences].
  - intros [= <-]. exists []. rewrite app_nil_r. split; reflexivity.
  - inversion F as [|? gs ? gss0 Hs F']; subst.
    destruct (Sentence.init (Sentence.to_dict s)) as [s0|x] eqn:I; [|discriminate].
    destruct (Document.with_text (Document.text d0) s0) as [s'|x] eqn:T; [|discriminate].
    intros H. destruct (IH _ _ _ F' H) as (ss' & E & M).
    exists (s' :: ss'). cbn [Document.sentences Document.set_sentences] in E.
    rewrite E, <- app_assoc. split; [reflexivity|]. cbn [map]. rewrite M. f_equal.
    destruct (with_text_holds _ _ _ _ T (sentence_init_to_dict_holds gs s s0 Hs I))
      as [_ T1].
    destruct Hs as [_ T2]. rewrite T1, T2. reflexivity.
Qed.

Lemma flat_map_tokens ss ss' :
  map Sentence.tokens ss' = map Sentence.tokens ss ->
  flat_map Sentence.tokens ss' = flat_map Sentence.tokens ss.
Proof. intros H. rewrite !flat_map_concat_map, H. reflexivity. Qed.

(** C8, as the code has it.  For a Document constructed from regular
    sentences and a list of expansions that [set_mwt_expansions] accepts,
    none of them made of exactly one word, [get_mwt_expansions] afterwards
    returns one pair for each multi-word token, in document order: the
    sources are the texts of these tokens and the destinations are the
    expansions supplied, each split at the spaces and joined with single
    spaces. *)
Theorem expansions_are_read_back :
  forall (gss : list (list group)) (txt : option string) (d d' : Document.t)
         (exps : list string),
    Forall (fun gs => regular (-1) gs = true) gss ->
    Document.init (map flatten gss) txt = Ok d ->
    Forall (fun e => List.length (Document.expansion_words e) <> 1%nat) exps ->
    Document.set_mwt_expansions exps d = (d', Ok tt) ->
    exists pairs,
      Document.get_mwt_expansions d' = Ok pairs
      /\ map snd pairs = map joined exps
      /\ map fst pairs = flat_map sources gss.
Proof.
  intros gss txt d d' exps F I several H.
  assert (Forall2 holds (Document.sentences d) gss) as Hd.
  { revert I. unfold Document.init, Document._process_sentences.
    destruct (Document.append_sentences (map flatten gss) _) as [d1 [[]|x]] eqn:A;
      [|discriminate].
    intros [= <-]. destruct (append_sentences_holds gss _ _ F A) as (ss & E & H2).
    cbn [Document.sentences Document.set_sentences Document.set_num_words
         Document.set_ents app] in *.
    rewrite E. exact H2. }
  revert H. unfold Document.set_mwt_expansions.
  destruct (Document.expand_sentences exps 0 (Document.sentences d))
    as [[ss e'] [[]|x]] eqn:X; [|discriminate].
  destruct (expand_sentences_regular exps several _ _ _ _ _ Hd X)
    as (gss' & consumed & pairs & H2 & K & T & S1 & S2).
  unfold Document._process_sentences, Document.to_dict.
  cbn [Document.sentences Document.set_sentences].
  destruct (Document.append_sentences (map Sentence.to_dict ss) _) as [d2 [[]|x]] eqn:A;
    [|discriminate].
  destruct (e' =? List.length exps)%nat eqn:L; [|discriminate].
  intros [= <-]. apply Nat.eqb_eq in L. subst e'.
  destruct (append_to_dict_holds ss gss' _ _ H2 A) as (ss' & E & M).
  cbn [Document.sentences Document.set_sentences app] in E.
  exists pairs. unfold Document.get_mwt_expansions.
  cbn [Document.sentences Document.set_num_words]. rewrite E.
  rewrite (flat_map_tokens ss ss' M).
  split; [exact T|]. split; [|exact S2].
  rewrite S1. f_equal. cbn [skipn] in K. rewrite skipn_all, app_nil_r in K.
  symmetry. exact K.
Qed.

Lemma expansions_are_read_back_witness :
  exists pairs,
    Document.get_mwt_expansions
      (fst (Document.set_mwt_expansions ["de  le"%string] Examples.du_pain)) = Ok pairs
    /\ map snd pairs = map joined ["de  le"%string]
    /\ map fst pairs = flat_map sources Examples.du_pain_groups.
Proof.
  apply (expansions_are_read_back Examples.du_pain_groups None Examples.du_pain).
  - repeat constructor.
  - vm_compute; reflexivity.
  - repeat constructor; vm_compute; discriminate.
  - vm_compute; reflexivity.
Defined.

(** C8, as the specification has it, fails: an expansion of one word is
    accepted, but the Token then holds one Word, [to_dict] writes the Word
    alone, and the Token built from it is no multi-word token any more, so
    that no pair is returned for it. *)
Lemma one_word_expansion_is_not_read_back :
  let d' := fst (Document.set_mwt_expansions ["du"%string] Examples.du_pain) in
  snd (Document.set_mwt_expansions ["du"%string] Examples.du_pain) = Ok tt
  /\ Document.get_mwt_expansions d' = Ok []
  /\ map joined ["du"%string] = ["du"%string]
  /\ Examples.outline d'
     = ([([VStr "1"; VStr "2"], [VNone; VNone],
          [(VStr "1", VNone, VNone); (VStr "2", VNone, VNone)])], 2).
Proof. vm_compute. repeat split. Qed.

Unset Implicit Arguments.
Local Open Scope list_scope.

(** * Further properties of the code *)

(** ** What construction establishes *)

Lemma token_init_keeps_words e ws k : Token.init e ws = Ok k -> Token.words k = ws.
Proof.
  rewrite (token_init_words e [] ws).
  destruct (Token.init e []) as [k0|x]; [|discriminate].
  intros [= <-]. reflexivity.
Qed.

Lemma append_to_last_words w ks ks' :
  Sentence.append_to_last w ks = Some ks' ->
  flat_map Token.words ks' = flat_map Token.words ks ++ [w].
Proof.
  revert ks'; induction ks as [|k ks IH]; intros ks'; [discriminate|].
  cbn [Sentence.append_to_last]. destruct ks as [|k1 ks1].
  - intros [= <-]. cbn. rewrite !app_nil_r. reflexivity.
  - destruct (Sentence.append_to_last w (k1 :: ks1)) as [r|] eqn:E; [|discriminate].
    cbn [option_map]. intros [= <-]. cbn [flat_map].
    rewrite (IH r eq_refl). cbn [flat_map]. rewrite app_assoc. reflexivity.
Qed.

Lemma step_consistent i e en s s' en' :
  consistent s -> Sentence.step i e en s = (s', Ok en') -> consistent s'.
Proof.
  unfold consistent, Sentence.step. intros C.
  destruct (entry_get ID _) as [|ident| |]; try discriminate.
  destruct (Sentence.misc_match _) as [n|x]; [|discriminate].
  destruct (_ || n).
  - destruct (Token.init _ []) as [k|x] eqn:K; [|discriminate].
    intros [= <- _]. cbn [Sentence.words Sentence.tokens Sentence.set_tokens].
    rewrite flat_map_app. cbn [flat_map]. rewrite (token_init_keeps_words _ _ _ K).
    rewrite !app_nil_r. exact C.
  - destruct (Word.init _) as [w|x]; [|discriminate].
    destruct (Str.to_int ident) as [idx|]; [|discriminate].
    destruct (idx <=? en).
    + destruct (Sentence.append_to_last _ _) as [ks|] eqn:A; [|discriminate].
      intros [= <- _]. cbn [Sentence.words Sentence.tokens Sentence.set_tokens
                            Sentence.set_words] in *.
      rewrite (append_to_last_words _ _ _ A), C. reflexivity.
    + destruct (Token.init _ [w]) as [k|x] eqn:K; [|discriminate].
      intros [= <- _]. cbn [Sentence.words Sentence.tokens Sentence.set_tokens
                            Sentence.set_words].
      rewrite flat_map_app. cbn [flat_map]. rewrite (token_init_keeps_words _ _ _ K).
      rewrite app_nil_r, C. reflexivity.
Qed.

Lemma scan_consistent es : forall i en s s' u,
  consistent s -> Sentence.scan i es en s = (s', Ok u) -> consistent s'.
Proof.
  induction es as [|e es IH]; intros i en s s' u C; cbn [Sentence.scan].
  - intros [= <-]. exact C.
  - destruct (Sentence.step i e en s) as [s1 [en1|x]] eqn:S; [|discriminate].
    apply IH. exact (step_consistent _ _ _ _ _ _ C S).
Qed.

Lemma process_tokens_consistent es self s :
  Sentence._process_tokens es self = (s, Ok tt) -> consistent s.
Proof.
  intros H. destruct (@process_tokens_ok _ _ _ H) as (s0 & u & S & W & T & _).
  unfold consistent. rewrite W, T. destruct u.
  apply (scan_consistent es 0 (-1) (Sentence.set_words [] (Sentence.set_tokens [] self)) s0 tt);
    [reflexivity | exact S].
Qed.

Lemma sentence_init_consistent es s : Sentence.init es = Ok s -> consistent s.
Proof.
  unfold Sentence.init.
  destruct (Sentence._process_tokens es Sentence.blank) as [s' [[]|x]] eqn:P;
    [|discriminate].
  intros [= <-]. exact (process_tokens_consistent _ _ _ P).
Qed.

(** X1. In a Sentence that the constructor returns for entries of which
    no [misc] has an item with the key [words], the list of Words is the
    concatenation of the Word lists of its Tokens, in Token order.  (An
    item [words=x] replaces the list of a Token by the string [x]; the
    property is not stated there.) *)
Theorem constructed_sentence_is_consistent :
  forall (es : list entry) (s : Sentence.t),
    forallb keeps_word_list es = true ->
    Sentence.init es = Ok s ->
    Sentence.words s = flat_map Token.words (Sentence.tokens s).
Proof.
  intros es s _. unfold Sentence.init.
  destruct (Sentence._process_tokens es Sentence.blank) as [s' [[]|x]] eqn:P;
    [|discriminate].
  intros [= <-]. exact (process_tokens_consistent _ _ _ P).
Qed.

Lemma constructed_sentence_is_consistent_witness :
  let es := [Examples.with_misc "1-2" "du" "start_char=0|end_char=2";
             Examples.plain "1" "de"; Examples.plain "2" "le";
             Examples.with_misc "3" "pain" "start_char=3|end_char=7"] in
  Sentence.words (Examples.sentence_of es)
  = flat_map Token.words (Sentence.tokens (Examples.sentence_of es))
  /\ List.length (Sentence.words (Examples.sentence_of es)) = 3%nat
  /\ List.length (Sentence.tokens (Examples.sentence_of es)) = 2%nat.
Proof.
  intros es. split.
  - apply (constructed_sentence_is_consistent es).
    + vm_compute; reflexivity.
    + vm_compute; reflexivity.
  - split; vm_compute; reflexivity.
Defined.

Lemma sentence_init_text es s : Sentence.init es = Ok s -> Sentence.text s = None.
Proof.
  unfold Sentence.init.
  destruct (Sentence._process_tokens es Sentence.blank) as [s' [[]|x]] eqn:P;
    [|discriminate].
  intros [= <-]. destruct (@process_tokens_ok _ _ _ P) as (s0 & u & S & _ & _ & T & _).
  rewrite T. destruct (@scan_keeps _ _ _ _ _ _ S) as [_ E]. exact E.
Qed.

Lemma with_text_sliced txt s s' :
  Sentence.text s = None -> Document.with_text txt s = Ok s' ->
  Sentence.text s' = sliced txt s'.
Proof.
  intros N. unfold Document.with_text.
  destruct (Sentence.tokens s) as [|k0 ks] eqn:T; [discriminate|].
  destruct (py_last (k0 :: ks)) as [k1|] eqn:L; [|discriminate].
  assert (forall x, Sentence.tokens (Sentence.set_text x s) = k0 :: ks) as T'.
  { intros x. exact T. }
  destruct txt as [x|].
  - destruct (Token.start_char k0) as [a|] eqn:A.
    + destruct (Token.end_char k1) as [b|] eqn:B; intros [= <-]; unfold sliced.
      * rewrite T', L, A, B. reflexivity.
      * rewrite T, L, A, B. exact N.
    + intros [= <-]. unfold sliced. rewrite T, L, A. exact N.
  - intros [= <-]. exact N.
Qed.

Lemma append_sentences_inv ess : forall d d',
  Document.append_sentences ess d = (d', Ok tt) ->
  Document.text d' = Document.text d
  /\ Document.ents d' = Document.ents d
  /\ exists ss, Document.sentences d' = Document.sentences d ++ ss
                /\ List.length ss = List.length ess
                /\ Forall (fun s => consistent s
                                    /\ Sentence.text s = sliced (Document.text d) s) ss.
Proof.
  induction ess as [|es ess IH]; intros d d'; cbn [Document.append_sentences].
  - intros [= <-]. split; [reflexivity|]. split; [reflexivity|].
    exists []. rewrite app_nil_r. repeat split. constructor.
  - destruct (Sentence.init es) as [s|x] eqn:I; [|discriminate].
    destruct (Document.with_text (Document.text d) s) as [s'|x] eqn:T; [|discriminate].
    intros H. destruct (IH _ _ H) as (E1 & E2 & ss & E3 & L & F).
    cbn [Document.text Document.ents Document.sentences Document.set_sentences] in *.
    split; [exact E1|]. split; [exact E2|].
    exists (s' :: ss). rewrite E3, <- app_assoc. split; [reflexivity|].
    split; [cbn [List.length]; rewrite L; reflexivity|].
    constructor; [|exact F]. split.
    + destruct (@with_text_words _ _ _ T) as (W & K & _).
      unfold consistent. rewrite W, K.
      exact (sentence_init_consistent es s I).
    + exact (with_text_sliced _ _ _ (sentence_init_text _ _ I) T).
Qed.

Lemma length_iter_words ss :
  Z.of_nat (List.length (flat_map Sentence.words ss)) = Document.count_words ss.
Proof.
  induction ss as [|s ss IH]; [reflexivity|].
  cbn [flat_map Document.count_words fold_right]. rewrite length_app, Nat2Z.inj_add.
  unfold Document.count_words in IH. rewrite IH. reflexivity.
Qed.

(** X2. A Document that the constructor returns for entries of which no
    [misc] has an item with the key [words] has as many Sentences as it
    was given lists of entries, no entity yet, and [num_words] equal to
    the number of Words that [iter_words] yields; every Sentence is
    consistent and has for text the raw text sliced from the start of its
    first Token to the end of its last Token, when the raw text and both
    offsets are there, and no text otherwise.  (An item [words=x] replaces
    the list of a Token by the string [x]; the property is not stated
    there.) *)
Theorem constructed_document_is_counted :
  forall (ess : list (list entry)) (txt : option string) (d : Document.t),
    Forall (fun es => forallb keeps_word_list es = true) ess ->
    Document.init ess txt = Ok d ->
    Document.text d = txt
    /\ Document.ents d = []
    /\ List.length (Document.sentences d) = List.length ess
    /\ Document.num_words d = Z.of_nat (List.length (Document.iter_words d))
    /\ Forall (fun s => consistent s /\ Sentence.text s = sliced txt s)
              (Document.sentences d).
Proof.
  intros ess txt d _. unfold Document.init, Document._process_sentences.
  destruct (Document.append_sentences ess _) as [d1 [[]|x]] eqn:A; [|discriminate].
  intros [= <-]. destruct (append_sentences_inv _ _ _ A) as (E1 & _ & ss & E3 & L & F).
  unfold Document.iter_words.
  cbn [Document.text Document.ents Document.sentences Document.set_sentences
       Document.set_num_words Document.set_ents Document.num_words app] in *.
  rewrite E3, length_iter_words.
  split; [exact E1|]. split; [reflexivity|]. split; [exact L|].
  split; [reflexivity | exact F].
Qed.

Lemma constructed_document_is_counted_witness :
  Document.num_words Examples.two_sentences_LOC
  = Z.of_nat (List.length (Document.iter_words Examples.two_sentences_LOC)).
Proof.
  refine (proj1 (proj2 (proj2 (proj2
    (constructed_document_is_counted
       [[Examples.tagged "1" "in" "O"; Examples.tagged "2" "Paris" "I-LOC"];
        [Examples.tagged "1" "Texas" "I-LOC"; Examples.tagged "2" "wins" "O"]]
       (Some "in Paris Texas wins"%string) Examples.two_sentences_LOC _ _))))).
  - repeat constructor.
  - vm_compute; reflexivity.
Defined.

Unset Implicit Arguments.
Local Open Scope list_scope.

(** ** Reading fields *)

Lemma concat_map_map {A B : Type} (f : A -> B) (g : Sentence.t -> list A) ss :
  List.concat (map (fun s => map f (g s)) ss) = map f (flat_map g ss).
Proof.
  induction ss as [|s ss IH]; [reflexivity|].
  cbn [map List.concat flat_map]. rewrite map_app, IH. reflexivity.
Qed.

Lemma get_words d fs :
  fs <> [] ->
  Document.get fs d = Ok (map (Document.project fs) (Document.iter_words d)).
Proof.
  intros NE. unfold Document.get, Document.get_as_sentences, Document.iter_words.
  destruct fs as [|f fs]; [contradiction|].
  cbn [List.length Nat.leb bind]. rewrite concat_map_map. reflexivity.
Qed.

(** X3. For a non-empty field list, [get] returns one entry for each Word
    that [iter_words] yields, in that order; so for a Document whose
    [num_words] is up to date the result has [num_words] entries. *)
Theorem get_has_one_entry_per_word :
  forall (d : Document.t) (fs : list field),
    fs <> [] ->
    Document.get fs d = Ok (map (Document.project fs) (Document.iter_words d))
    /\ (Document.num_words d = Z.of_nat (List.length (Document.iter_words d)) ->
        exists l, Document.get fs d = Ok l
                  /\ Z.of_nat (List.length l) = Document.num_words d).
Proof.
  intros d fs NE.
  pose proof (get_words d fs NE) as G.
  split; [exact G|]. intros C. eexists. split; [exact G|].
  rewrite length_map. symmetry. exact C.
Qed.

Lemma get_has_one_entry_per_word_witness :
  Document.get [TEXT; HEAD] Examples.she_reads
  = Ok (map (Document.project [TEXT; HEAD]) (Document.iter_words Examples.she_reads)).
Proof.
  apply (proj1 (get_has_one_entry_per_word Examples.she_reads [TEXT; HEAD] ltac:(discriminate))).
Defined.

(** ** The dependency graph *)

(** X4. A Sentence constructed from entries of which one lacks the head or
    the relation has no dependency graph at all: [dependencies] is empty. *)
Theorem incomplete_sentence_has_no_graph :
  forall (es : list entry) (s : Sentence.t),
    Sentence.init es = Ok s ->
    forallb Sentence.has_dependency (Sentence.words s) = false ->
    Sentence.dependencies s = [].
Proof.
  intros es s. unfold Sentence.init.
  destruct (Sentence._process_tokens es Sentence.blank) as [s' [[]|x]] eqn:P;
    [|discriminate].
  intros [= <-] H. exact (@process_tokens_incomplete es Sentence.blank s' P H).
Qed.

Lemma incomplete_sentence_has_no_graph_witness :
  Sentence.dependencies
    (Examples.sentence_of [Examples.parsed "1" "She" 2 "nsubj"; Examples.plain "2" "reads"])
  = [].
Proof.
  apply (incomplete_sentence_has_no_graph
           [Examples.parsed "1" "She" 2 "nsubj"; Examples.plain "2" "reads"]);
    vm_compute; reflexivity.
Defined.

(** X5. Processing a Sentence again does not touch [dependencies] when a
    Word lacks the head or the relation: the call returns normally and the
    list is the one the Sentence had before, whatever Words it described. *)
Theorem reprocessing_without_heads_keeps_dependencies :
  forall (es : list entry) (self s : Sentence.t),
    Sentence._process_tokens es self = (s, Ok tt) ->
    forallb Sentence.has_dependency (Sentence.words s) = false ->
    Sentence.dependencies s = Sentence.dependencies self.
Proof. intros es self s. apply process_tokens_incomplete. Qed.

Lemma reprocessing_without_heads_keeps_dependencies_witness :
  Sentence.dependencies
    (fst (Sentence._process_tokens Examples.unparsed_go
            (Examples.sentence_of Examples.parsed_go)))
  = Sentence.dependencies (Examples.sentence_of Examples.parsed_go).
Proof.
  apply (reprocessing_without_heads_keeps_dependencies Examples.unparsed_go);
    vm_compute; reflexivity.
Defined.

Lemma governor_spec ws w g :
  Sentence.governor ws w = Ok g ->
  (py_int (Word.head w) = Ok 0 /\ g = Sentence.ROOT)
  \/ (exists h, py_int (Word.head w) = Ok h /\ h <> 0
                /\ py_index ws (h - 1) = Some g /\ py_int (Word.id g) = Ok h).
Proof.
  unfold Sentence.governor.
  destruct (py_int (Word.head w)) as [h|x] eqn:Hh; [|discriminate]. cbn [bind].
  destruct (Z.eqb_spec h 0) as [->|NZ].
  - intros H. left. split; [reflexivity|].
    change (Word.init Sentence.root_entry) with (Ok Sentence.ROOT) in H.
    injection H as <-. reflexivity.
  - destruct (py_index ws (h - 1)) as [g'|] eqn:Hg; [|discriminate].
    destruct (py_int (Word.id g')) as [i|x] eqn:Hi; [|discriminate]. cbn [bind].
    destruct (Z.eqb_spec h i) as [<-|]; [|discriminate].
    intros [= <-]. right. exists h. repeat split; assumption.
Qed.

Lemma build_from_edges todo : forall s s',
  Sentence.build_from todo s = (s', Ok tt) ->
  exists edges,
    Sentence.dependencies s' = Sentence.dependencies s ++ edges
    /\ Forall2 (edge_of (Sentence.words s)) todo edges.
Proof.
  induction todo as [|w todo IH]; intros s s'; cbn [Sentence.build_from].
  - intros [= <-]. exists []. rewrite app_nil_r. split; [reflexivity | constructor].
  - destruct (Sentence.governor (Sentence.words s) w) as [g|x] eqn:G; [|discriminate].
    intros H. destruct (IH _ _ H) as (edges & E & F).
    cbn [Sentence.dependencies Sentence.words Sentence.set_dependencies] in *.
    exists ((g, Word.deprel w, w) :: edges). rewrite E, <- app_assoc.
    split; [reflexivity|]. constructor; [|exact F].
    split; [reflexivity|]. split; [reflexivity|]. exact (governor_spec _ _ _ G).
Qed.

(** X6. When [build_dependencies] returns, the Words, the Tokens and the
    text of the Sentence are unchanged and the graph has exactly one edge
    for each Word, in the order of the Words: the dependent is the Word,
    the relation is its [deprel], and the governor is the synthetic ROOT
    when the head is 0 and otherwise the Word at position [head - 1], whose
    id is the head. *)
Theorem graph_has_one_edge_per_word :
  forall (s s' : Sentence.t),
    Sentence.build_dependencies s = (s', Ok tt) ->
    Sentence.words s' = Sentence.words s
    /\ Sentence.tokens s' = Sentence.tokens s
    /\ Sentence.text s' = Sentence.text s
    /\ Forall2 (edge_of (Sentence.words s)) (Sentence.words s) (Sentence.dependencies s').
Proof.
  intros s s' H.
  destruct (@build_dependencies_keeps s s' (Ok tt) H) as (W & T & X).
  split; [exact W|]. split; [exact T|]. split; [exact X|].
  unfold Sentence.build_dependencies in H.
  destruct (build_from_edges _ _ _ H) as (edges & E & F).
  cbn [Sentence.dependencies Sentence.words Sentence.set_dependencies app] in *.
  rewrite E. exact F.
Qed.

Lemma graph_has_one_edge_per_word_witness :
  let s := Examples.sentence_of Examples.she_reads_books in
  Forall2 (edge_of (Sentence.words s)) (Sentence.words s)
          (Sentence.dependencies (fst (Sentence.build_dependencies s))).
Proof.
  intros s.
  apply (proj2 (proj2 (proj2
           (graph_has_one_edge_per_word s (fst (Sentence.build_dependencies s))
              ltac:(vm_compute; reflexivity))))).
Defined.

Unset Implicit Arguments.
Local Open Scope list_scope.

(** ** Writing fields *)

Lemma setattr_stores f v w w' :
  Word.setattr f v w = Ok w' -> exists u, w' = Word.store f u w.
Proof.
  unfold Word.setattr. destruct f; try (intros [= <-]; eexists; reflexivity).
  destruct (_is_null v); [intros [= <-]; eexists; reflexivity|].
  destruct (py_int v) as [z|x]; [|discriminate]. cbn [bind].
  intros [= <-]. eexists; reflexivity.
Qed.

Lemma setattr_frame f g v w w' :
  Word.setattr f v w = Ok w' -> field_eqb g f = false ->
  Word.getattr g w' = Word.getattr g w.
Proof.
  intros H N. destruct (setattr_stores _ _ _ _ H) as (u & ->).
  apply getattr_store_other. rewrite field_eqb_sym. exact N.
Qed.

Lemma write_pairs_frame g fcs : forall w w',
  (forall p, In p fcs -> field_eqb g (fst p) = false) ->
  Document.write_pairs fcs w = Ok w' ->
  Word.getattr g w' = Word.getattr g w.
Proof.
  induction fcs as [|[f c] fcs IH]; intros w w' N; cbn [Document.write_pairs].
  - intros [= <-]. reflexivity.
  - destruct (Word.setattr f c w) as [w1|x] eqn:S; [|discriminate]. cbn [bind].
    intros H. rewrite (IH w1 w' (fun p Hp => N p (or_intror Hp)) H).
    exact (setattr_frame _ _ _ _ _ S (N (f, c) (or_introl eq_refl))).
Qed.

Lemma existsb_field_false g fs f :
  existsb (field_eqb g) fs = false -> In f fs -> field_eqb g f = false.
Proof.
  intros E Hin. destruct (field_eqb g f) eqn:F; [|reflexivity].
  assert (existsb (field_eqb g) fs = true) as T.
  { apply existsb_exists. exists f. split; assumption. }
  rewrite T in E. discriminate.
Qed.

Lemma write_frame g fs c w w' :
  existsb (field_eqb g) fs = false ->
  Document.write fs c w = Ok w' -> Word.getattr g w' = Word.getattr g w.
Proof.
  intros E. unfold Document.write.
  assert (forall cs, Document.write_pairs (combine fs cs) w = Ok w' ->
                     Word.getattr g w' = Word.getattr g w) as K.
  { intros cs. apply write_pairs_frame. intros [f v] Hp. cbn [fst].
    apply (existsb_field_false g fs f E). exact (in_combine_l _ _ _ _ Hp). }
  destruct fs as [|f [|f' fs']].
  - destruct (Document.iterate c) as [cs|x]; [|discriminate]. apply K.
  - intros H. apply (setattr_frame _ _ _ _ _ H).
    apply (existsb_field_false g [f] f E). left. reflexivity.
  - destruct (Document.iterate c) as [cs|x]; [|discriminate]. apply K.
Qed.

Lemma write_words_frame g fs : forall ws cs ws' rest,
  existsb (field_eqb g) fs = false ->
  Document.write_words fs cs ws = Ok (ws', rest) ->
  map (Word.getattr g) ws' = map (Word.getattr g) ws.
Proof.
  induction ws as [|w ws IH]; intros cs ws' rest E; cbn [Document.write_words].
  - intros [= <- _]. reflexivity.
  - destruct cs as [|c cs]; [discriminate|].
    destruct (Document.write fs c w) as [w1|x] eqn:W; [|discriminate]. cbn [bind].
    destruct (Document.write_words fs cs ws) as [[ws1 r1]|x] eqn:R; [|discriminate].
    cbn [bind fst snd]. intros [= <- _]. cbn [map].
    rewrite (write_frame g fs c w w1 E W), (IH cs ws1 r1 E R). reflexivity.
Qed.

Lemma write_sentences_frame g fs : forall ss cs ss',
  existsb (field_eqb g) fs = false ->
  Document.write_sentences fs cs ss = Ok ss' ->
  map (fun s => map (Word.getattr g) (Sentence.words s)) ss'
  = map (fun s => map (Word.getattr g) (Sentence.words s)) ss.
Proof.
  induction ss as [|s ss IH]; intros cs ss' E; cbn [Document.write_sentences].
  - intros [= <-]. reflexivity.
  - destruct (Document.write_words fs cs (Sentence.words s)) as [[ws1 r1]|x] eqn:W;
      [|discriminate]. cbn [bind fst snd].
    destruct (Document.write_sentences fs r1 ss) as [ss1|x] eqn:R; [|discriminate].
    cbn [bind]. intros [= <-]. cbn [map Sentence.words Sentence.set_tokens
                                         Sentence.set_words].
    rewrite (write_words_frame g fs _ _ _ _ E W), (IH _ _ E R). reflexivity.
Qed.

(** X7. [set] writes the named fields only: after a call that returned,
    every field that is not in the field list reads, for every Word, as it
    did before. *)
Theorem set_leaves_other_fields :
  forall (d d' : Document.t) (fs : list field) (cs : list value) (g : field),
    Document.set fs cs d = Ok d' ->
    existsb (field_eqb g) fs = false ->
    Document.get [g] d' = Document.get [g] d.
Proof.
  intros d d' fs cs g. unfold Document.set.
  destruct (1 <=? List.length fs)%nat; [|discriminate].
  destruct (Document.num_words d =? _); [|discriminate].
  destruct (Document.write_sentences fs cs (Document.sentences d)) as [ss|x] eqn:W;
    [|discriminate]. cbn [bind].
  intros [= <-] E. unfold Document.get, Document.get_as_sentences.
  cbn [List.length Nat.leb bind Document.sentences Document.set_sentences].
  change (Document.project [g]) with (Word.getattr g).
  rewrite (write_sentences_frame g fs _ _ _ E W). reflexivity.
Qed.

Lemma set_leaves_other_fields_witness :
  Document.get [TEXT]
    (Examples.after_set [UPOS; HEAD]
       [VSeq [VStr "PRON"; VInt 2]; VSeq [VStr "VERB"; VInt 0]; VSeq [VStr "NOUN"; VNone]]
       Examples.she_reads)
  = Document.get [TEXT] Examples.she_reads.
Proof.
  apply (set_leaves_other_fields Examples.she_reads _ [UPOS; HEAD]
           [VSeq [VStr "PRON"; VInt 2]; VSeq [VStr "VERB"; VInt 0];
            VSeq [VStr "NOUN"; VNone]]);
    vm_compute; reflexivity.
Defined.

Section SingleField.

(** Writing one field [f] whose setter, on the values in [P], stores [g v]
    for [v]. *)
Variable f : field.
Variable g : value -> value.
Variable P : value -> Prop.
Hypothesis setter :
  forall v w, P v -> Word.setattr f v w = Ok (Word.store f (g v) w).

Lemma write_words_single : forall ws cs,
  (List.length ws <= List.length cs)%nat -> Forall P cs ->
  exists ws', Document.write_words [f] cs ws = Ok (ws', skipn (List.length ws) cs)
              /\ map (Word.getattr f) ws' = map g (firstn (List.length ws) cs).
Proof.
  induction ws as [|w ws IH]; intros cs L F.
  - exists []. split; reflexivity.
  - destruct cs as [|c cs]; [cbn in L; lia|]. cbn [List.length] in L.
    pose proof (Forall_inv F) as Fc. pose proof (Forall_inv_tail F) as F'.
    destruct (IH cs ltac:(lia) F') as (ws' & E & M).
    exists (Word.store f (g c) w :: ws').
    cbn [Document.write_words Document.write]. rewrite (setter c w Fc). cbn [bind].
    rewrite E. cbn [bind fst snd List.length skipn firstn map].
    rewrite getattr_store_same, M. split; reflexivity.
Qed.

Lemma write_sentences_single : forall ss cs,
  Document.count_words ss = Z.of_nat (List.length cs) -> Forall P cs ->
  exists ss', Document.write_sentences [f] cs ss = Ok ss'
              /\ map (Word.getattr f) (flat_map Sentence.words ss') = map g cs.
Proof.
  induction ss as [|s ss IH]; intros cs C F.
  - cbn in C. destruct cs; [|cbn in C; lia]. exists []. split; reflexivity.
  - cbn [Document.count_words fold_right] in C. fold (Document.count_words ss) in C.
    pose proof (count_words_nonneg ss) as N.
    destruct (write_words_single (Sentence.words s) cs ltac:(lia) F) as (ws' & E & M).
    assert (Forall P (skipn (List.length (Sentence.words s)) cs)) as F'.
    { apply Forall_forall. intros c Hc. apply (proj1 (Forall_forall _ _) F).
      rewrite <- (firstn_skipn (List.length (Sentence.words s)) cs).
      apply in_or_app. right. exact Hc. }
    destruct (IH (skipn (List.length (Sentence.words s)) cs)) as (ss' & E' & M').
    { rewrite length_skipn. lia. }
    { exact F'. }
    cbn [Document.write_sentences]. rewrite E. cbn [bind fst snd]. rewrite E'.
    cbn [bind]. eexists. split; [reflexivity|].
    cbn [flat_map Sentence.words Sentence.set_tokens Sentence.set_words].
    rewrite map_app, M, M', <- map_app, firstn_skipn. reflexivity.
Qed.

Lemma set_single d cs :
  counted d -> Document.num_words d = Z.of_nat (List.length cs) -> Forall P cs ->
  exists d', Document.set [f] cs d = Ok d' /\ Document.get [f] d' = Ok (map g cs).
Proof.
  intros C L F. unfold counted in C.
  destruct (write_sentences_single (Document.sentences d) cs) as (ss' & E & M).
  { rewrite <- C. exact L. }
  { exact F. }
  exists (Document.set_sentences ss' d). split.
  - unfold Document.set. cbn [List.length Nat.leb]. rewrite L, Z.eqb_refl, E. reflexivity.
  - rewrite (get_words (Document.set_sentences ss' d) [f] ltac:(discriminate)). unfold Document.iter_words. cbn [Document.sentences Document.set_sentences].
    change (Document.project [f]) with (Word.getattr f). rewrite M. reflexivity.
Qed.

End SingleField.

(** X8. Written to one of the fields upos, xpos, feats, deprel, deps, misc
    and ner of every Word, any list of contents of the right length is
    accepted, and what [get] then returns is the list with every
    placeholder ['_'] replaced by [None] and every other value unchanged. *)
Theorem optional_field_reads_back_without_placeholder :
  forall (d : Document.t) (f : field) (cs : list value),
    optional f = true ->
    counted d ->
    Document.num_words d = Z.of_nat (List.length cs) ->
    exists d', Document.set [f] cs d = Ok d'
               /\ Document.get [f] d' = Ok (map unless_null cs).
Proof.
  intros d f cs O C L.
  apply (set_single f unless_null (fun _ => True)); try assumption.
  - intros v w _. destruct f; try discriminate; reflexivity.
  - apply Forall_forall. intros; exact I.
Qed.

Lemma optional_field_reads_back_without_placeholder_witness :
  exists d', Document.set [NER] [VStr "_"; VStr "O"; VNone] Examples.she_reads = Ok d'
             /\ Document.get [NER] d' = Ok (map unless_null [VStr "_"; VStr "O"; VNone]).
Proof.
  apply optional_field_reads_back_without_placeholder.
  - reflexivity.
  - vm_compute; reflexivity.
  - vm_compute; reflexivity.
Defined.

Lemma setattr_head_ok v w :
  head_ok v = true -> Word.setattr HEAD v w = Ok (Word.store HEAD (normal_head v) w).
Proof.
  unfold head_ok, normal_head, Word.setattr.
  destruct (_is_null v); [reflexivity|]. cbn [orb].
  destruct (py_int v); [reflexivity | discriminate].
Qed.

Lemma setattr_head_fails v w :
  head_ok v = false -> is_ok (Word.setattr HEAD v w) = false.
Proof.
  unfold head_ok, Word.setattr.
  destruct (_is_null v); [discriminate|]. cbn [orb].
  destruct (py_int v); [discriminate | reflexivity].
Qed.

Lemma write_words_head_ok : forall ws cs r,
  Document.write_words [HEAD] cs ws = Ok r ->
  forallb head_ok (firstn (List.length ws) cs) = true
  /\ snd r = skipn (List.length ws) cs.
Proof.
  induction ws as [|w ws IH]; intros cs r; cbn [Document.write_words].
  - intros [= <-]. split; reflexivity.
  - destruct cs as [|c cs]; [discriminate|]. cbn [Document.write].
    destruct (head_ok c) eqn:H.
    + rewrite (setattr_head_ok c w H). cbn [bind].
      destruct (Document.write_words [HEAD] cs ws) as [r1|x] eqn:R; [|discriminate].
      cbn [bind]. intros [= <-]. destruct (IH cs r1 R) as [A B].
      cbn [List.length firstn skipn forallb snd]. rewrite H, A. split; [reflexivity | exact B].
    + pose proof (setattr_head_fails c w H) as K.
      destruct (Word.setattr HEAD c w); [discriminate | discriminate].
Qed.

Lemma write_sentences_head_ok : forall ss cs ss',
  Document.count_words ss = Z.of_nat (List.length cs) ->
  Document.write_sentences [HEAD] cs ss = Ok ss' ->
  forallb head_ok cs = true.
Proof.
  induction ss as [|s ss IH]; intros cs ss' C; cbn [Document.write_sentences].
  - cbn in C. destruct cs; [reflexivity | cbn in C; lia].
  - cbn [Document.count_words fold_right] in C. fold (Document.count_words ss) in C.
    pose proof (count_words_nonneg ss) as N.
    destruct (Document.write_words [HEAD] cs (Sentence.words s)) as [r|x] eqn:W;
      [|discriminate]. cbn [bind].
    destruct (write_words_head_ok _ _ _ W) as [A B].
    destruct (Document.write_sentences [HEAD] (snd r) ss) as [ss1|x] eqn:R;
      [|discriminate].
    intros _. rewrite B in R.
    assert (forallb head_ok (skipn (List.length (Sentence.words s)) cs) = true) as A'.
    { apply (IH _ ss1); [rewrite length_skipn; lia | exact R]. }
    rewrite <- (firstn_skipn (List.length (Sentence.words s)) cs), forallb_app, A, A'.
    reflexivity.
Qed.

(** X9. A head is stored as an integer.  Written to the field head of
    every Word of a Document whose [num_words] is up to date, a list of
    contents of the right length is accepted exactly when every content is
    [None], the placeholder, or something [int()] accepts; [get] then
    returns [None] for the first two and the integer for the others. *)
Theorem head_is_stored_as_an_integer :
  forall (d : Document.t) (cs : list value),
    counted d ->
    Document.num_words d = Z.of_nat (List.length cs) ->
    (is_ok (Document.set [HEAD] cs d) = forallb head_ok cs)
    /\ (forall d', Document.set [HEAD] cs d = Ok d' ->
                   Document.get [HEAD] d' = Ok (map normal_head cs)).
Proof.
  intros d cs C L.
  destruct (forallb head_ok cs) eqn:A.
  - destruct (set_single HEAD normal_head (fun v => head_ok v = true)
                (fun v w H => setattr_head_ok v w H) d cs C L) as (d' & E & G).
    { apply Forall_forall. intros c Hc. exact (proj1 (forallb_forall _ _) A c Hc). }
    rewrite E. split; [reflexivity|]. intros d'' [= <-]. exact G.
  - assert (is_ok (Document.set [HEAD] cs d) = false) as K.
    { unfold Document.set. cbn [List.length Nat.leb]. rewrite L, Z.eqb_refl.
      destruct (Document.write_sentences [HEAD] cs (Document.sentences d)) as [ss|x] eqn:W;
        [|reflexivity].
      unfold counted in C. rewrite C in L.
      rewrite (write_sentences_head_ok _ _ _ L W) in A. discriminate. }
    split; [exact K|]. intros d' E. rewrite E in K. discriminate.
Qed.

Lemma head_is_stored_as_an_integer_witness :
  is_ok (Document.set [HEAD] [VStr " 2"; VStr "_"; VStr "two"] Examples.she_reads)
  = forallb head_ok [VStr " 2"; VStr "_"; VStr "two"].
Proof.
  apply (proj1 (head_is_stored_as_an_integer Examples.she_reads
                  [VStr " 2"; VStr "_"; VStr "two"]
                  ltac:(vm_compute; reflexivity) ltac:(vm_compute; reflexivity))).
Defined.

Unset Implicit Arguments.
Local Open Scope list_scope.

(** ** Entities are rebuilt from nothing, and need the raw text *)

(** X10. [build_ents] starts from an empty list of entities: what it
    leaves and returns does not depend on the entities that the Document
    held before, so that calling it twice gives what calling it once
    gives. *)
Theorem build_ents_starts_afresh :
  forall (d : Document.t) (es : list Span.t),
    Document.build_ents (Document.set_ents es d) = Document.build_ents d
    /\ Document.build_ents (fst (Document.build_ents d)) = Document.build_ents d.
Proof.
  intros d es. split.
  - destruct d as [ss txt n e]. reflexivity.
  - unfold Document.build_ents at 2.
    destruct (Document.tag_sentences _ _ _ _) as [st [u|x]];
      destruct d as [ss txt n e]; reflexivity.
Qed.

Lemma flush_without_text st : fst (Document.flush None st) = st.
Proof.
  unfold Document.flush. destruct (Document.ent_words st) as [|w ws]; [reflexivity|].
  destruct (Span.init (w :: ws) (Document.cur_type st) None) as [sp|x] eqn:S;
    [|reflexivity].
  exfalso. unfold Span.init in S.
  destruct (Document.cur_type st); cbn [bind] in S; [|discriminate].
  destruct (py_last (w :: ws)); discriminate.
Qed.

Lemma flush_then_without_text st k :
  (forall st1, Document.found (fst (k st1)) = Document.found st1) ->
  Document.found (fst (Document.flush_then None st k)) = Document.found st.
Proof.
  intros K. unfold Document.flush_then.
  pose proof (flush_without_text st) as F.
  destruct (Document.flush None st) as [st' [u|x]]; cbn [fst] in F; subst st';
    [apply K | reflexivity].
Qed.

Lemma tag_without_text w st :
  Document.found (fst (Document.tag None w st)) = Document.found st.
Proof.
  unfold Document.tag.
  destruct (Word.ner (l_word w)) as [|ner|z|l]; try reflexivity.
  destruct (String.eqb ner "O").
  { apply flush_then_without_text. reflexivity. }
  destruct (Str.startswith "B-" ner).
  { apply flush_then_without_text. reflexivity. }
  destruct (Str.startswith "I-" ner); [reflexivity|].
  destruct (Str.startswith "E-" ner).
  { rewrite flush_then_without_text; reflexivity. }
  destruct (Str.startswith "S-" ner); [|reflexivity].
  apply flush_then_without_text. intros st1.
  rewrite flush_then_without_text; reflexivity.
Qed.

Lemma tag_words_without_text ws : forall st,
  Document.found (fst (Document.tag_words None ws st)) = Document.found st.
Proof.
  induction ws as [|w ws IH]; intros st; [reflexivity|].
  cbn [Document.tag_words]. pose proof (tag_without_text w st) as T.
  destruct (Document.tag None w st) as [st' [u|x]]; cbn [fst] in T.
  - rewrite IH. exact T.
  - exact T.
Qed.

Lemma tag_sentence_without_text si s st :
  Document.found (fst (Document.tag_sentence None si s st)) = Document.found st.
Proof.
  unfold Document.tag_sentence. destruct (Document.locate si s) as [ws|x]; [|reflexivity].
  pose proof (tag_words_without_text ws st) as T.
  destruct (Document.tag_words None ws st) as [st' [u|x]]; cbn [fst] in T.
  - rewrite flush_then_without_text; [exact T | reflexivity].
  - exact T.
Qed.

Lemma tag_sentences_without_text ss : forall si st,
  Document.found (fst (Document.tag_sentences None si ss st)) = Document.found st.
Proof.
  induction ss as [|s ss IH]; intros si st; [reflexivity|].
  cbn [Document.tag_sentences]. pose proof (tag_sentence_without_text si s st) as T.
  destruct (Document.tag_sentence None si s st) as [st' [u|x]]; cbn [fst] in T.
  - rewrite IH. exact T.
  - exact T.
Qed.

(** X11. A Span takes its text from the raw text of the Document.  On a
    Document that has no raw text, [build_ents] never records an entity:
    it leaves an empty list, and when it returns it returns 0. *)
Theorem no_entity_without_raw_text :
  forall (d : Document.t),
    Document.text d = None ->
    Document.ents (fst (Document.build_ents d)) = []
    /\ (forall n, snd (Document.build_ents d) = Ok n -> n = 0).
Proof.
  intros d T. unfold Document.build_ents. rewrite T.
  pose proof (tag_sentences_without_text (Document.sentences d) 0
                (Document.mk_scan [] [] None)) as F.
  destruct (Document.tag_sentences None 0 (Document.sentences d) _) as [st [u|x]];
    cbn [fst Document.found] in F; cbn [fst snd]; destruct d as [ss txt k e];
    cbn [Document.set_ents Document.ents]; rewrite F.
  - split; [reflexivity|]. intros n [= <-]. reflexivity.
  - split; [reflexivity|]. intros n [=].
Qed.

Lemma no_entity_without_raw_text_witness :
  Document.ents
    (fst (Document.build_ents
            (Examples.document_of [[Examples.tagged "1" "Paris" "S-LOC"]] None))) = [].
Proof.
  apply (proj1 (no_entity_without_raw_text
                  (Examples.document_of [[Examples.tagged "1" "Paris" "S-LOC"]] None)
                  ltac:(vm_compute; reflexivity))).
Defined.

(** ** Words and their dictionaries *)

(** X12. For a regular Word entry (a numeral for id, a text, a [misc]
    that overrides nothing and carries no marker, a head that the setter
    accepts) the constructor returns a Word, and the dictionary of that
    Word builds the same Word again. *)
Theorem word_roundtrip :
  forall (e : entry) (idx : Z),
    word_index e = Some idx ->
    exists w, Word.init e = Ok w /\ Word.init (Word.to_dict w) = Ok w.
Proof.
  intros e idx I. exists (word_of e). split.
  - exact (word_init_regular e idx I).
  - rewrite (word_init_regular _ idx (word_index_to_dict e idx I)).
    rewrite word_of_to_dict. reflexivity.
Qed.

Lemma word_roundtrip_witness :
  exists w, Word.init (Examples.parsed "2" "reads" 1 "_") = Ok w
            /\ Word.init (Word.to_dict w) = Ok w.
Proof.
  apply (word_roundtrip (Examples.parsed "2" "reads" 1 "_") 2).
  vm_compute; reflexivity.
Defined.

Lemma init_items_last_word pre item : forall w w',
  Word.init_items (pre ++ [item]) w = Ok w' ->
  exists w1, Word.init_items pre w = Ok w1 /\ Word.init_item item w1 = Ok w'.
Proof.
  induction pre as [|i pre IH]; intros w w'; cbn [app Word.init_items].
  - destruct (Word.init_item item w) as [w1|x] eqn:E; [|discriminate].
    cbn [bind]. intros [= <-]. exists w. split; [reflexivity | exact E].
  - destruct (Word.init_item i w) as [w1|x]; [|discriminate]. cbn [bind].
    apply IH.
Qed.

(** X13. The items of a [misc] string are written to the attributes of
    the Word past the setters.  When the last item of the [misc] of an
    entry is [key=val] and [key] names a field, the Word that the
    constructor returns holds the string [val] in that field, whatever the
    entry gave for it: no placeholder is replaced and a head is not made
    an integer. *)
Theorem misc_item_overrides_the_entry :
  forall (e : entry) (m : string) (pre : list string) (item key val : string)
         (f : field) (w : Word.t),
    entry_get MISC e = VStr m ->
    Str.split "|" m = pre ++ [item] ->
    parse_item item = Pair key val ->
    Word.attr_of_key key = Some f ->
    Word.init e = Ok w ->
    Word.getattr f w = VStr val.
Proof.
  intros e m pre item key val f w M S P A. unfold Word.init.
  destruct (truthy (entry_get ID e) && truthy (entry_get TEXT e)); [|discriminate].
  cbn [bind].
  destruct (Word.assign e Word.all_fields Word.blank) as [w0|x] eqn:W; [|discriminate].
  cbn [bind]. pose proof (@word_assign_misc e w0 W) as K. rewrite M in K.
  unfold unless_null, _is_null in K.
  destruct (String.eqb m "_") eqn:U.
  - apply String.eqb_eq in U. subst m. destruct pre as [|i [|j pre]]; cbn in S.
    + injection S as <-. discriminate.
    + discriminate.
    + discriminate.
  - rewrite K. cbn [is_None]. unfold Word.init_from_misc. rewrite K, S.
    intros I. destruct (init_items_last_word _ _ _ _ I) as (w1 & _ & L).
    unfold Word.init_item in L. rewrite P, A in L. injection L as <-.
    apply getattr_store_same.
Qed.

Lemma misc_item_overrides_the_entry_witness :
  Word.getattr HEAD
    (match Word.init (Examples.with_misc "1" "go" "SpaceAfter=No|head=3") with
     | Ok w => w | Raise _ => Word.blank end) = VStr "3".
Proof.
  apply (misc_item_overrides_the_entry
           (Examples.with_misc "1" "go" "SpaceAfter=No|head=3")
           "SpaceAfter=No|head=3" ["SpaceAfter=No"] "head=3" "head" "3" HEAD);
    vm_compute; reflexivity.
Defined.

(** ** Identifiers and offsets *)

Lemma fresh_entries_ids texts : forall idx,
  Forall (fun w => exists j, Word.id w = VStr (Str.of_int j)
                              /\ multi_word_token_id (Str.of_int j) = None)
         (map word_of (fresh_entries idx texts)).
Proof.
  induction texts as [|x texts IH]; intros idx; cbn [fresh_entries map]; constructor.
  - exists idx. split; [reflexivity | apply id_of_int_is_no_range].
  - apply IH.
Qed.

(** X14. What [set_mwt_expansions] does to one multi-word Token: the id
    it writes is one that the pattern of multi-word ids reads as the pair
    of the number of the first Word and the number of the last, and each
    Word it creates has for id a numeral that the pattern rejects. *)
Theorem expanded_token_has_a_range_id :
  forall (exps : list string) (iw : Z) (ie : nat) (k : Token.t)
         (r : Document.expanded),
    1 <= iw ->
    Document.is_mwt k = Ok true ->
    Document.expand_token exps iw ie k = Ok r ->
    (exists ident, Token.id (Document.x_token r) = VStr ident
                   /\ multi_word_token_id ident = Some (iw, Document.x_idx_w r))
    /\ Forall (fun w => exists j, Word.id w = VStr (Str.of_int j)
                                  /\ multi_word_token_id (Str.of_int j) = None)
              (Token.words (Document.x_token r)).
Proof.
  intros exps iw ie k r I M. unfold Document.expand_token. rewrite M.
  cbn [bind negb]. destruct (nth_error exps ie) as [e|]; [|discriminate].
  destruct (Document.strip_marker (Token.misc k)) as [misc'|x]; [|discriminate].
  cbn [bind].
  rewrite (fresh_words_regular _ iw (expansion_words_nonempty e)). cbn [bind].
  intros [= <-]. cbn [Document.x_token Document.x_idx_w Token.set_words Token.set_id
                        Token.id Token.words].
  split.
  - eexists. split; [reflexivity|]. apply (@id_of_range iw); lia.
  - apply fresh_entries_ids.
Qed.

Lemma expanded_token_has_a_range_id_witness :
  exists ident,
    Token.id (Document.x_token
                (Document.mk_expanded
                   (Token.mk (VStr "1-2") (VStr "du") VNone
                      (map word_of (fresh_entries 1 ["de"; "le"])) None None)
                   [] 2 1)) = VStr ident
    /\ multi_word_token_id ident = Some (1, 2).
Proof.
  apply (proj1 (expanded_token_has_a_range_id ["de le"] 1 0
                  (Token.mk (VStr "1") (VStr "du") (VStr "MWT=Yes") [] None None)
                  (Document.mk_expanded
                     (Token.mk (VStr "1-2") (VStr "du") VNone
                        (map word_of (fresh_entries 1 ["de"; "le"])) None None)
                     [] 2 1)
                  ltac:(lia) ltac:(vm_compute; reflexivity)
                  ltac:(vm_compute; reflexivity))).
Defined.

Lemma count_all_chars (p : ascii -> bool) c s :
  all_chars p s = true -> p c = false -> Str.count c s = O.
Proof.
  intros A C. induction s as [|a s IH]; [reflexivity|].
  cbn [all_chars] in A. apply andb_true_iff in A. destruct A as [Pa A].
  cbn [Str.count]. rewrite (IH A).
  destruct (Ascii.eqb a c) eqn:E; [|reflexivity].
  apply Ascii.eqb_eq in E. subst a. rewrite Pa in C. discriminate.
Qed.

Lemma count_of_int c z :
  0 <= z -> Str.is_digit c = false -> Str.count c (Str.of_int z) = O.
Proof.
  intros Z C. destruct (@of_int_nonneg z Z) as (u & _ & E & _). rewrite E.
  apply (count_all_chars Str.is_digit); [apply all_digits_string_of_uint | exact C].
Qed.

Lemma parse_offset key z :
  0 <= z -> Str.count "=" key = O ->
  parse_item (key ++ "=" ++ Str.of_int z)%string = Pair key (Str.of_int z).
Proof.
  intros Z K. unfold parse_item.
  change (key ++ "=" ++ Str.of_int z)%string
    with (Str.join (String "=" "") [key; Str.of_int z]).
  rewrite (@split_join "=" [key; Str.of_int z]); [reflexivity | discriminate|].
  constructor; [exact K|]. constructor; [|constructor].
  apply count_of_int; [exact Z | reflexivity].
Qed.

(** X15. The offsets of a Token come from its [misc].  A Token entry with
    an id, a text and the [misc] [start_char=a|end_char=b], as the
    tokenizer writes it for offsets [a] and [b], builds a Token that holds
    the id, the text, the [misc] and the Words it was given, and the two
    offsets as integers. *)
Theorem token_offsets_are_read_from_misc :
  forall (e : entry) (ws : list Word.t) (a b : Z),
    0 <= a -> 0 <= b ->
    truthy (entry_get ID e) = true ->
    truthy (entry_get TEXT e) = true ->
    entry_get MISC e
    = VStr ("start_char=" ++ Str.of_int a ++ "|end_char=" ++ Str.of_int b)%string ->
    Token.init e ws
    = Ok (Token.mk (entry_get ID e) (entry_get TEXT e) (entry_get MISC e) ws
            (Some a) (Some b)).
Proof.
  intros e ws a b A B I T M. unfold Token.init. rewrite I, T, M. cbn [andb bind].
  change (unless_null (VStr ("start_char=" ++ Str.of_int a ++ "|end_char=" ++ Str.of_int b)%string))
    with (VStr ("start_char=" ++ Str.of_int a ++ "|end_char=" ++ Str.of_int b)%string).
  cbn [Token.misc is_None]. unfold Token.init_from_misc. cbn [Token.misc].
  change ("start_char=" ++ Str.of_int a ++ "|end_char=" ++ Str.of_int b)%string
    with (Str.join (String "|" "")
            [("start_char" ++ "=" ++ Str.of_int a)%string;
             ("end_char" ++ "=" ++ Str.of_int b)%string]) at 1.
  rewrite (@split_join "|"); [|discriminate|].
  - cbn [Token.init_items]. unfold Token.init_item.
    rewrite (parse_offset "start_char" a A eq_refl). cbn [String.eqb Ascii.eqb Bool.eqb].
    unfold py_int. rewrite to_int_of_int. cbn [bind].
    rewrite (parse_offset "end_char" b B eq_refl).
    change (String.eqb "end_char" "start_char") with false.
    change (String.eqb "end_char" "end_char") with true. cbv iota.
    rewrite to_int_of_int. reflexivity.
  - constructor; [|constructor; [|constructor]].
    + change ("start_char" ++ "=" ++ Str.of_int a)%string
        with ("start_char=" ++ Str.of_int a)%string.
      rewrite count_app. rewrite (count_of_int "|" a A eq_refl). reflexivity.
    + change ("end_char" ++ "=" ++ Str.of_int b)%string
        with ("end_char=" ++ Str.of_int b)%string.
      rewrite count_app. rewrite (count_of_int "|" b B eq_refl). reflexivity.
Qed.

Lemma token_offsets_are_read_from_misc_witness :
  Token.init (Examples.with_misc "1" "Paris" "start_char=0|end_char=5") []
  = Ok (Token.mk (VStr "1") (VStr "Paris") (VStr "start_char=0|end_char=5") []
          (Some 0) (Some 5)).
Proof.
  apply (token_offsets_are_read_from_misc
           (Examples.with_misc "1" "Paris" "start_char=0|end_char=5") [] 0 5);
    solve [lia | vm_compute; reflexivity].
Defined.

(** ** Entries without id *)

Lemma step_number i e en s :
  Sentence.step i e en s = Sentence.step i (number i e) en s.
Proof.
  unfold Sentence.step, number. destruct (e_id e) eqn:E.
  - rewrite E. reflexivity.
  - reflexivity.
Qed.

Lemma scan_numbered es : forall i en s,
  Sentence.scan i es en s = Sentence.scan i (numbered i es) en s.
Proof.
  induction es as [|e es IH]; intros i en s; [reflexivity|].
  cbn [Sentence.scan numbered]. rewrite <- step_number.
  destruct (Sentence.step i e en s) as [s' [en'|x]]; [apply IH | reflexivity].
Qed.

Lemma word_index_number i e :
  anonymous e = true -> word_index (number i e) = Some (Z.of_nat i + 1).
Proof.
  unfold anonymous, number. destruct (e_id e) eqn:E; [discriminate|].
  intros A. unfold word_index. cbn [e_id entry_set_id].
  rewrite id_of_int_is_no_range.
  change (entry_get TEXT (entry_set_id (VStr (Str.of_int (Z.of_nat i + 1))) e))
    with (entry_get TEXT e).
  change (entry_get MISC (entry_set_id (VStr (Str.of_int (Z.of_nat i + 1))) e))
    with (entry_get MISC e).
  change (entry_get HEAD (entry_set_id (VStr (Str.of_int (Z.of_nat i + 1))) e))
    with (entry_get HEAD e).
  rewrite A. apply to_int_of_int.
Qed.

Lemma regular_numbered es : forall i en,
  forallb anonymous es = true -> en < Z.of_nat i + 1 ->
  regular en (map Single (numbered i es)) = true.
Proof.
  induction es as [|e es IH]; intros i en A L; [reflexivity|].
  cbn [forallb] in A. apply andb_true_iff in A. destruct A as [Ae A].
  cbn [numbered map regular]. rewrite (word_index_number i e Ae).
  rewrite (proj2 (Z.ltb_lt _ _) L). cbn [andb]. apply IH; [exact A | lia].
Qed.

Lemma flatten_singles es : flatten (map Single es) = es.
Proof. induction es as [|e es IH]; [reflexivity|]. cbn. f_equal. exact IH. Qed.

Lemma numbered_ids es : forall i,
  forallb anonymous es = true ->
  map (fun e => Word.id (word_of e)) (numbered i es)
  = map (fun j => VStr (Str.of_int (Z.of_nat j + 1))) (seq i (List.length es)).
Proof.
  induction es as [|e es IH]; intros i A; [reflexivity|].
  cbn [forallb] in A. apply andb_true_iff in A. destruct A as [Ae A].
  cbn [numbered map List.length seq]. rewrite (IH (S i) A). f_equal.
  unfold anonymous in Ae. unfold number. destruct (e_id e); [discriminate | reflexivity].
Qed.

(** X16. An entry without id is read as if its id were its position in
    the list, counted from 1.  For a list of Word entries that give no id
    (each with a text, a [misc] that overrides nothing and carries no
    marker, and an acceptable head), the Sentence that the constructor
    returns holds one Word and one Token for each entry, in order, and the
    ids of the Words are ['1'], ['2'], and so on. *)
Theorem missing_ids_are_positions :
  forall (es : list entry) (s : Sentence.t),
    forallb anonymous es = true ->
    Sentence.init es = Ok s ->
    Sentence.words s = map word_of (numbered 0 es)
    /\ Sentence.tokens s = map (fun e => token_of e [word_of e]) (numbered 0 es)
    /\ map Word.id (Sentence.words s)
       = map (fun j => VStr (Str.of_int (Z.of_nat j + 1))) (seq 0 (List.length es)).
Proof.
  intros es s A. unfold Sentence.init.
  destruct (Sentence._process_tokens es Sentence.blank) as [s' [[]|x]] eqn:P;
    [|discriminate].
  intros [= <-]. destruct (@process_tokens_ok _ _ _ P) as (s0 & en & S & W & T & _).
  rewrite scan_numbered in S.
  rewrite <- (flatten_singles (numbered 0 es)) in S.
  rewrite (scan_regular _ 0%nat (-1) _ (regular_numbered es 0 (-1) A ltac:(lia))) in S.
  injection S as <- _. cbn [Sentence.words Sentence.tokens Sentence.set_words
                              Sentence.set_tokens Sentence.blank app] in W, T.
  assert (Sentence.words s' = map word_of (numbered 0 es)) as W'.
  { rewrite W. generalize (numbered 0 es). intros l.
    induction l as [|e l IH]; [reflexivity|]. cbn. f_equal. exact IH. }
  split; [exact W'|]. split.
  - rewrite T, map_map. reflexivity.
  - rewrite W', map_map. apply numbered_ids. exact A.
Qed.

Lemma missing_ids_are_positions_witness :
  map Word.id (Sentence.words (Examples.sentence_of [Examples.bare "She"; Examples.bare "reads"]))
  = map (fun j => VStr (Str.of_int (Z.of_nat j + 1))) (seq 0 2).
Proof.
  apply (proj2 (proj2 (missing_ids_are_positions
                         [Examples.bare "She"; Examples.bare "reads"]
                         (Examples.sentence_of [Examples.bare "She"; Examples.bare "reads"])
                         ltac:(vm_compute; reflexivity) ltac:(vm_compute; reflexivity)))).
Defined.

Unset Implicit Arguments.
Local Open Scope list_scope.

(** ** Rows shorter than the field list *)

Lemma in_combine_firstn {A B : Type} (fs : list A) : forall (row : list B) f v,
  In (f, v) (combine fs row) -> In f (firstn (List.length row) fs).
Proof.
  induction fs as [|g fs IH]; intros row f v H; [destruct H|].
  destruct row as [|c row]; [destruct H|].
  cbn [combine List.length firstn] in *. destruct H as [E|H].
  - injection E as <- _. left. reflexivity.
  - right. exact (IH row f v H).
Qed.

Lemma in_firstn_le {A : Type} (l : list A) : forall n m x,
  (n <= m)%nat -> In x (firstn n l) -> In x (firstn m l).
Proof.
  induction l as [|a l IH]; intros n m x L H.
  - rewrite firstn_nil in H. destruct H.
  - destruct n as [|n]; [destruct H|]. destruct m as [|m]; [lia|].
    cbn [firstn] in *. destruct H as [E|H]; [left; exact E | right].
    apply (IH n m x); [lia | exact H].
Qed.

Lemma write_short g fs n c w w' :
  (2 <= List.length fs)%nat -> short n c ->
  existsb (field_eqb g) (firstn n fs) = false ->
  Document.write fs c w = Ok w' -> Word.getattr g w' = Word.getattr g w.
Proof.
  intros L (row & I & R) E. unfold Document.write.
  destruct fs as [|f [|f' fs']]; [cbn in L; lia | cbn in L; lia |].
  rewrite I. cbn [bind]. apply write_pairs_frame. intros [h v] Hp. cbn [fst].
  apply (existsb_field_false g (firstn n (f :: f' :: fs')) h E).
  apply (in_firstn_le _ (List.length row) n h R).
  exact (in_combine_firstn _ _ _ _ Hp).
Qed.

Lemma write_words_short g fs n : forall ws cs ws' rest,
  (2 <= List.length fs)%nat -> Forall (short n) cs ->
  existsb (field_eqb g) (firstn n fs) = false ->
  Document.write_words fs cs ws = Ok (ws', rest) ->
  map (Word.getattr g) ws' = map (Word.getattr g) ws /\ Forall (short n) rest.
Proof.
  induction ws as [|w ws IH]; intros cs ws' rest L F E; cbn [Document.write_words].
  - intros [= <- <-]. split; [reflexivity | exact F].
  - destruct cs as [|c cs]; [discriminate|].
    destruct (Document.write fs c w) as [w1|x] eqn:W; [|discriminate]. cbn [bind].
    destruct (Document.write_words fs cs ws) as [[ws1 r1]|x] eqn:R; [|discriminate].
    cbn [bind fst snd]. intros [= <- <-].
    destruct (IH cs ws1 r1 L (Forall_inv_tail F) E R) as [M F'].
    split; [|exact F']. cbn [map]. rewrite M.
    rewrite (write_short g fs n c w w1 L (Forall_inv F) E W). reflexivity.
Qed.

Lemma write_sentences_short g fs n : forall ss cs ss',
  (2 <= List.length fs)%nat -> Forall (short n) cs ->
  existsb (field_eqb g) (firstn n fs) = false ->
  Document.write_sentences fs cs ss = Ok ss' ->
  map (fun s => map (Word.getattr g) (Sentence.words s)) ss'
  = map (fun s => map (Word.getattr g) (Sentence.words s)) ss.
Proof.
  induction ss as [|s ss IH]; intros cs ss' L F E; cbn [Document.write_sentences].
  - intros [= <-]. reflexivity.
  - destruct (Document.write_words fs cs (Sentence.words s)) as [[ws1 r1]|x] eqn:W;
      [|discriminate]. cbn [bind fst snd].
    destruct (Document.write_sentences fs r1 ss) as [ss1|x] eqn:R; [|discriminate].
    cbn [bind]. intros [= <-].
    destruct (write_words_short g fs n _ _ _ _ L F E W) as [M F'].
    cbn [map Sentence.words Sentence.set_tokens Sentence.set_words].
    rewrite M, (IH _ _ L F' E R). reflexivity.
Qed.

(** X17. With several fields, [set] pairs the fields with the values of
    each content by [zip], which stops at the shorter of the two: a
    content with fewer values than there are fields is not refused.  When
    every content has at most [n] values, a call that returned has left
    every field that is not among the first [n] fields as it was. *)
Theorem short_rows_leave_the_last_fields :
  forall (d d' : Document.t) (fs : list field) (cs : list value) (n : nat)
         (g : field),
    (2 <= List.length fs)%nat ->
    Forall (short n) cs ->
    existsb (field_eqb g) (firstn n fs) = false ->
    Document.set fs cs d = Ok d' ->
    Document.get [g] d' = Document.get [g] d.
Proof.
  intros d d' fs cs n g L F E. unfold Document.set.
  destruct (1 <=? List.length fs)%nat; [|discriminate].
  destruct (Document.num_words d =? _); [|discriminate].
  destruct (Document.write_sentences fs cs (Document.sentences d)) as [ss|x] eqn:W;
    [|discriminate]. cbn [bind].
  intros [= <-]. unfold Document.get, Document.get_as_sentences.
  cbn [List.length Nat.leb bind Document.sentences Document.set_sentences].
  change (Document.project [g]) with (Word.getattr g).
  rewrite (write_sentences_short g fs n _ _ _ L F E W). reflexivity.
Qed.

Lemma short_rows_leave_the_last_fields_witness :
  Document.get [HEAD]
    (Examples.after_set [UPOS; HEAD]
       [VSeq [VStr "PRON"]; VSeq [VStr "VERB"]; VSeq [VStr "NOUN"]]
       Examples.she_reads)
  = Document.get [HEAD] Examples.she_reads.
Proof.
  apply (short_rows_leave_the_last_fields Examples.she_reads _ [UPOS; HEAD]
           [VSeq [VStr "PRON"]; VSeq [VStr "VERB"]; VSeq [VStr "NOUN"]] 1 HEAD).
  - cbn; lia.
  - repeat constructor; eexists; (split; [reflexivity | cbn; lia]).
  - reflexivity.
  - vm_compute; reflexivity.
Defined.

(** ** The type of an entity *)

Lemma py_last_snoc {A : Type} (l : list A) x : py_last (l ++ [x]) = Some x.
Proof.
  induction l as [|a l IH]; [reflexivity|].
  cbn [app py_last]. destruct (l ++ [x]) eqn:E; [|exact IH].
  destruct l; discriminate.
Qed.

Lemma py_last_map {A B : Type} (f : A -> B) (l : list A) :
  py_last (map f l) = option_map f (py_last l).
Proof.
  induction l as [|a l IH]; [reflexivity|].
  destruct l as [|b l]; [reflexivity|]. exact IH.
Qed.

Lemma py_last_In {A : Type} (l : list A) x : py_last l = Some x -> In x l.
Proof.
  induction l as [|a l IH]; [discriminate|].
  destruct l as [|b l].
  - intros [= <-]. left. reflexivity.
  - intros H. right. exact (IH H).
Qed.

Lemma span_init_type ws ty txt sp :
  Span.init ws ty txt = Ok sp -> ty = Some (Span.type sp).
Proof.
  unfold Span.init. destruct ty as [ty|]; [|discriminate].
  destruct ws as [|w ws]; [discriminate|].
  destruct (py_last (w :: ws)); [|discriminate].
  destruct txt; [|discriminate]. intros [= <-]. reflexivity.
Qed.

Lemma flush_typed d txt st :
  scan_typed d st -> scan_typed d (fst (Document.flush txt st)).
Proof.
  intros I. unfold Document.flush.
  destruct (Document.ent_words st) as [|w0 ws0] eqn:W; [exact I|].
  destruct (Span.init (w0 :: ws0) (Document.cur_type st) txt) as [sp|x] eqn:S;
    [|exact I].
  destruct I as (F & E & T). cbn [fst]. rewrite <- W in S |- *.
  destruct (@span_init_words _ _ _ _ S) as [SW NE].
  pose proof (span_init_type _ _ _ _ S) as ST.
  split; [|split]; cbn [Document.found Document.ent_words Document.cur_type];
    [| exact E | exact T].
  apply Forall_app. split; [exact F|]. constructor; [|constructor].
  split.
  - rewrite SW. apply Forall_forall. intros r Hr.
    apply in_map_iff in Hr. destruct Hr as (w & <- & Hw).
    destruct (proj1 (Forall_forall _ _) E w Hw) as (G & ty & C).
    exists (l_word w), ty. split; assumption.
  - destruct (py_last (Document.ent_words st)) as [w|] eqn:L.
    + exists (l_ref w), (l_word w).
      destruct (proj1 (Forall_forall _ _) E w (py_last_In _ _ L)) as (G & _).
      split; [rewrite SW, py_last_map, L; reflexivity|].
      split; [exact G|]. rewrite <- (T w eq_refl). exact ST.
    + apply py_last_None in L. contradiction.
Qed.

Lemma flush_then_typed d txt st k :
  scan_typed d st ->
  (forall st1, scan_typed d st1 -> scan_typed d (fst (k st1))) ->
  scan_typed d (fst (Document.flush_then txt st k)).
Proof.
  intros I K. unfold Document.flush_then.
  pose proof (flush_typed d txt st I) as F.
  destruct (Document.flush txt st) as [st' [u|x]]; cbn [fst] in F;
    [apply K; exact F | exact F].
Qed.

Lemma typed_reset d st :
  scan_typed d st -> scan_typed d (Document.set_ent_words [] st).
Proof.
  intros (F & _ & _). split; [exact F|]. split; [constructor|].
  intros w L. discriminate.
Qed.

Lemma typed_start d st w ty :
  scan_typed d st -> word_at d (l_ref w) = Some (l_word w) ->
  chunk_type (l_word w) = Some ty ->
  scan_typed d (Document.set_cur_type ty (Document.set_ent_words [w] st)).
Proof.
  intros (F & _ & _) G C. split; [exact F|]. split.
  - constructor; [|constructor]. split; [exact G | exists ty; exact C].
  - intros w' [= <-]. symmetry. exact C.
Qed.

Lemma typed_extend d st w ty :
  scan_typed d st -> word_at d (l_ref w) = Some (l_word w) ->
  chunk_type (l_word w) = Some ty ->
  scan_typed d (Document.set_cur_type ty
                  (Document.set_ent_words (Document.ent_words st ++ [w]) st)).
Proof.
  intros (F & E & _) G C. split; [exact F|]. split.
  - apply Forall_app. split; [exact E|].
    constructor; [|constructor]. split; [exact G | exists ty; exact C].
  - cbn [Document.set_cur_type Document.set_ent_words Document.ent_words
         Document.cur_type Document.found].
    intros w' L. rewrite py_last_snoc in L. injection L as <-. symmetry. exact C.
Qed.

Lemma tag_typed d txt w st :
  scan_typed d st -> word_at d (l_ref w) = Some (l_word w) ->
  scan_typed d (fst (Document.tag txt w st)).
Proof.
  intros I G. unfold Document.tag.
  destruct (Word.ner (l_word w)) as [|ner|z|l] eqn:N; try exact I.
  destruct (String.eqb ner "O") eqn:O.
  { apply flush_then_typed; [exact I|]. intros st1 I1. exact (typed_reset d st1 I1). }
  destruct (Str.startswith "B-" ner) eqn:B.
  { apply flush_then_typed; [exact I|]. intros st1 I1.
    apply typed_start; [exact I1 | exact G|].
    unfold chunk_type. rewrite N, O, B. reflexivity. }
  destruct (Str.startswith "I-" ner) eqn:Ic.
  { apply typed_extend; [exact I | exact G|].
    unfold chunk_type. rewrite N, O, B, Ic. reflexivity. }
  destruct (Str.startswith "E-" ner) eqn:Ec.
  { apply flush_then_typed.
    - apply typed_extend; [exact I | exact G|].
      unfold chunk_type. rewrite N, O, B, Ic, Ec. reflexivity.
    - intros st1 I1. exact (typed_reset d st1 I1). }
  destruct (Str.startswith "S-" ner) eqn:Sc; [|exact I].
  apply flush_then_typed; [exact I|]. intros st1 I1.
  apply flush_then_typed.
  - apply typed_start; [exact I1 | exact G|].
    unfold chunk_type. rewrite N, O, B, Ic, Ec, Sc. reflexivity.
  - intros st2 I2. exact (typed_reset d st2 I2).
Qed.

Lemma tag_words_typed d txt ws : forall st,
  scan_typed d st -> Forall (fun w => word_at d (l_ref w) = Some (l_word w)) ws ->
  scan_typed d (fst (Document.tag_words txt ws st)).
Proof.
  induction ws as [|w ws IH]; intros st I F; [exact I|].
  cbn [Document.tag_words].
  pose proof (tag_typed d txt w st I (Forall_inv F)) as T.
  destruct (Document.tag txt w st) as [st' [u|x]]; cbn [fst] in T;
    [apply IH; [exact T | exact (Forall_inv_tail F)] | exact T].
Qed.

Lemma in_combine_seq {A : Type} (l : list A) : forall a n i y,
  In (i, y) (combine (seq a n) l) -> (a <= i)%nat /\ nth_error l (i - a) = Some y.
Proof.
  induction l as [|x l IH]; intros a n i y H.
  - destruct (seq a n); destruct H.
  - destruct n as [|n]; [destruct H|]. cbn [seq combine] in H. destruct H as [E|H].
    + injection E as <- <-. split; [lia|]. rewrite Nat.sub_diag. reflexivity.
    + destruct (IH (S a) n i y H) as [L N]. split; [lia|].
      replace (i - a)%nat with (S (i - S a)) by lia. exact N.
Qed.

Lemma nth_error_combine_l {A B : Type} (l : list A) : forall (m : list B) i x y,
  nth_error (combine l m) i = Some (x, y) -> nth_error l i = Some x.
Proof.
  induction l as [|a l IH]; intros m i x y H.
  - destruct i; discriminate.
  - destruct m as [|b m]; [destruct i; discriminate|].
    destruct i as [|i]; cbn [combine nth_error] in *.
    + injection H as <- _. reflexivity.
    + exact (IH m i x y H).
Qed.

Lemma locate_at d si s ws :
  nth_error (Document.sentences d) si = Some s ->
  Document.locate si s = Ok ws ->
  Forall (fun w => word_at d (l_ref w) = Some (l_word w)) ws.
Proof.
  intros S. unfold Document.locate. destruct (_ =? _)%nat; [|discriminate].
  intros [= <-]. apply Forall_forall. intros w Hin.
  apply in_map_iff in Hin. destruct Hin as ([i [x p]] & <- & Hin).
  cbn [l_ref l_word fst snd]. unfold word_at. cbn [fst snd]. rewrite S.
  destruct (in_combine_seq _ _ _ _ _ Hin) as [_ N]. rewrite Nat.sub_0_r in N.
  exact (nth_error_combine_l _ _ _ _ _ N).
Qed.

Lemma tag_sentence_typed d txt si s st :
  nth_error (Document.sentences d) si = Some s ->
  scan_typed d st -> scan_typed d (fst (Document.tag_sentence txt si s st)).
Proof.
  intros S I. unfold Document.tag_sentence.
  destruct (Document.locate si s) as [ws|x] eqn:L; [|exact I].
  pose proof (tag_words_typed d txt ws st I (locate_at d si s ws S L)) as T.
  destruct (Document.tag_words txt ws st) as [st' [u|x]]; cbn [fst] in T; [|exact T].
  apply flush_then_typed; [exact T|]. intros st1 I1. exact (typed_reset d st1 I1).
Qed.

Lemma tag_sentences_typed d txt ss : forall si st,
  (forall j s, nth_error ss j = Some s ->
               nth_error (Document.sentences d) (si + j) = Some s) ->
  scan_typed d st -> scan_typed d (fst (Document.tag_sentences txt si ss st)).
Proof.
  induction ss as [|s ss IH]; intros si st N I; [exact I|].
  cbn [Document.tag_sentences].
  assert (nth_error (Document.sentences d) si = Some s) as Hs.
  { rewrite <- (Nat.add_0_r si). apply N. reflexivity. }
  pose proof (tag_sentence_typed d txt si s st Hs I) as T.
  destruct (Document.tag_sentence txt si s st) as [st' [u|x]]; cbn [fst] in T;
    [|exact T].
  apply IH; [|exact T]. intros j s' H.
  replace (S si + j)%nat with (si + S j)%nat by lia. apply N. exact H.
Qed.

(** X18. The type of an entity is the type of its last Word.  After
    [build_ents], also when it raised, every Word of every entity carries
    a tag that starts with [B-], [I-], [E-] or [S-], and the type of the
    entity is what follows the prefix in the tag of its last Word,
    whatever the tags of the Words before it name. *)
Theorem entity_type_is_the_type_of_its_last_word :
  forall (d : Document.t),
    Forall (typed_by_last d) (Document.ents (fst (Document.build_ents d))).
Proof.
  intros d. unfold Document.build_ents.
  pose proof (tag_sentences_typed d (Document.text d) (Document.sentences d) 0
                (Document.mk_scan [] [] None) (fun j s H => H)) as T.
  assert (scan_typed d (Document.mk_scan [] [] None)) as I0.
  { split; [constructor|]. split; [constructor|]. intros w L. discriminate. }
  specialize (T I0).
  destruct (Document.tag_sentences _ _ _ _) as [st [u|x]]; cbn [fst] in *;
    destruct d as [ss txt n e]; exact (proj1 T).
Qed.

Unset Implicit Arguments.
Local Open Scope list_scope.

(** ** Expansion deletes the dependency information *)

Lemma fresh_headless texts : forall idx,
  Forall headless (map word_of (fresh_entries idx texts)).
Proof.
  induction texts as [|x texts IH]; intros idx; cbn [fresh_entries map]; constructor.
  - split; reflexivity.
  - apply IH.
Qed.

Lemma expand_token_headless exps iw ie k r :
  Document.expand_token exps iw ie k = Ok r ->
  Forall headless (Token.words (Document.x_token r)).
Proof.
  unfold Document.expand_token.
  destruct (Document.is_mwt k) as [[|]|x]; [| |discriminate]; cbn [bind negb].
  - destruct (nth_error exps ie) as [e|]; [|discriminate].
    destruct (Document.strip_marker (Token.misc k)) as [misc'|x]; [|discriminate].
    cbn [bind].
    rewrite (fresh_words_regular _ iw (expansion_words_nonempty e)). cbn [bind].
    intros [= <-]. cbn [Document.x_token Token.set_words Token.words].
    apply fresh_headless.
  - intros [= <-]. cbn [Document.x_token Token.set_words Token.words].
    apply Forall_forall. intros w Hw. apply in_map_iff in Hw.
    destruct Hw as (w0 & <- & _). destruct w0. split; reflexivity.
Qed.

Lemma expand_tokens_headless exps ks0 : forall iw ie ks ws e',
  Document.expand_tokens exps iw ie ks0 = (ks, ws, e', Ok tt) ->
  Forall (fun k => Forall headless (Token.words k)) ks.
Proof.
  induction ks0 as [|k ks0 IH]; intros iw ie ks ws e'; cbn [Document.expand_tokens].
  - intros [= <- _ _]. constructor.
  - destruct (Document.expand_token exps (iw + 1) ie k) as [r|x] eqn:E; [|discriminate].
    destruct (Document.expand_tokens exps (Document.x_idx_w r) (Document.x_idx_e r) ks0)
      as [[[ks1 ws1] e1] out] eqn:R.
    intros [= <- _ _ ->]. constructor.
    + exact (expand_token_headless _ _ _ _ _ E).
    + exact (IH _ _ _ _ _ R).
Qed.

Lemma to_dict_bare k :
  Forall headless (Token.words k) -> Forall bare_entry (Token.to_dict k).
Proof.
  intros F. unfold Token.to_dict. apply Forall_app. split.
  - destruct (_ =? _)%nat; constructor; [split; reflexivity | constructor].
  - apply Forall_forall. intros e He. apply in_map_iff in He.
    destruct He as (w & <- & Hw).
    destruct (proj1 (Forall_forall _ _) F w Hw) as [H D].
    unfold bare_entry, Word.to_dict, entry_get. cbn [entry_lookup e_head e_deprel].
    rewrite H, D. split; reflexivity.
Qed.

Lemma flat_to_dict_bare ks :
  Forall (fun k => Forall headless (Token.words k)) ks ->
  Forall bare_entry (flat_map Token.to_dict ks).
Proof.
  induction ks as [|k ks IH]; intros F; [constructor|].
  cbn [flat_map]. apply Forall_app. split.
  - exact (to_dict_bare k (Forall_inv F)).
  - exact (IH (Forall_inv_tail F)).
Qed.

Lemma token_of_keeps_words e ws : Token.words (token_of e ws) = ws.
Proof.
  unfold token_of. destruct (Token.init e ws) as [k|x] eqn:I; [|reflexivity].
  exact (token_init_keeps_words _ _ _ I).
Qed.

Lemma group_headless g :
  Forall bare_entry (entries_of g) ->
  Forall headless (Token.words (token_of_group g)).
Proof.
  assert (forall e, bare_entry e -> headless (word_of e)) as K.
  { intros e [H D]. unfold headless, word_of. cbn [Word.head Word.deprel].
    rewrite H, D. split; reflexivity. }
  destruct g as [e|t ws]; cbn [entries_of token_of_group]; intros F;
    rewrite token_of_keeps_words.
  - constructor; [exact (K e (Forall_inv F)) | constructor].
  - apply Forall_forall. intros w Hw. apply in_map_iff in Hw.
    destruct Hw as (e & <- & He). apply K.
    exact (proj1 (Forall_forall _ _) (Forall_inv_tail F) e He).
Qed.

Lemma groups_headless gs :
  Forall bare_entry (flatten gs) ->
  Forall headless (flat_map Token.words (map token_of_group gs)).
Proof.
  induction gs as [|g gs IH]; intros F; [constructor|].
  unfold flatten in F. cbn [flat_map] in F. apply Forall_app in F. destruct F as [Fg F].
  cbn [map flat_map]. apply Forall_app. split; [exact (group_headless g Fg) | exact (IH F)].
Qed.

Section Headless.

Variable exps : list string.
Hypothesis several :
  Forall (fun e => List.length (Document.expansion_words e) <> 1%nat) exps.

Lemma expand_sentence_bare gs s ie s2 e' :
  holds s gs ->
  Document.expand_sentence exps ie s = (s2, e', Ok tt) ->
  exists gs', holds s2 gs' /\ Forall bare_entry (flatten gs').
Proof.
  intros [R T]. unfold Document.expand_sentence. rewrite T.
  destruct (Document.expand_tokens exps 0 ie (map token_of_group gs))
    as [[[ks ws] e1] [[]|x]] eqn:E; [|discriminate].
  destruct (expand_tokens_regular exps several gs (-1) 0 ie (-1) ks ws e1 R
              ltac:(lia) ltac:(lia) E)
    as (gs' & consumed & pairs & D & R' & _).
  pose proof (flat_to_dict_bare ks (expand_tokens_headless _ _ _ _ _ _ _ E)) as B.
  unfold Sentence.to_dict. cbn [Sentence.tokens Sentence.set_tokens Sentence.set_words].
  rewrite D in B |- *.
  destruct (Sentence._process_tokens (flatten gs') _) as [s3 out] eqn:P.
  intros [= <- <- ->].
  pose proof (process_tokens_tokens gs' _ _ R' P) as T3.
  exists gs'. split; [split; assumption | exact B].
Qed.

Lemma expand_sentences_bare ss : forall gss ie ss2 e',
  Forall2 holds ss gss ->
  Document.expand_sentences exps ie ss = (ss2, e', Ok tt) ->
  exists gss', Forall2 holds ss2 gss'
               /\ Forall (fun gs => Forall bare_entry (flatten gs)) gss'.
Proof.
  induction ss as [|s ss IH]; intros gss ie ss2 e' F.
  - inversion F; subst. cbn [Document.expand_sentences]. intros [= <- <-].
    exists []. split; constructor.
  - inversion F as [|? gs ? gss0 Hs F']; subst. cbn [Document.expand_sentences].
    destruct (Document.expand_sentence exps ie s) as [[s1 e1] [[]|x]] eqn:E;
      [|discriminate].
    destruct (expand_sentence_bare gs s ie s1 e1 Hs E) as (gs' & H1 & B1).
    destruct (Document.expand_sentences exps e1 ss) as [[ss1 e2] out] eqn:R.
    intros [= <- <- ->].
    destruct (IH gss0 e1 ss1 e2 F' R) as (gss' & H2 & B2).
    exists (gs' :: gss'). split; constructor; assumption.
Qed.

End Headless.

Lemma sentences_headless ss : forall gss ss',
  Forall2 holds ss gss ->
  Forall (fun gs => Forall bare_entry (flatten gs)) gss ->
  map Sentence.tokens ss' = map Sentence.tokens ss ->
  Forall consistent ss' ->
  Forall headless (flat_map Sentence.words ss').
Proof.
  induction ss as [|s ss IH]; intros gss ss' F B M C.
  - destruct ss'; [constructor | discriminate].
  - destruct ss' as [|s' ss']; [discriminate|]. cbn [map] in M.
    injection M as M1 M2.
    inversion F as [|? gs ? gss0 [_ T] F']; subst.
    cbn [flat_map]. apply Forall_app. split.
    + rewrite (Forall_inv C), M1, T. apply groups_headless. exact (Forall_inv B).
    + exact (IH gss0 ss' F' (Forall_inv_tail B) M2 (Forall_inv_tail C)).
Qed.

(** X19. [set_mwt_expansions] deletes the dependency information.  For a
    Document constructed from regular sentences and a list of expansions
    that the call accepts, none of them made of exactly one word, every
    Word of the Document afterwards has no head and no relation. *)
Theorem expansion_deletes_heads_and_relations :
  forall (gss : list (list group)) (txt : option string) (d d' : Document.t)
         (exps : list string),
    Forall (fun gs => regular (-1) gs = true) gss ->
    Document.init (map flatten gss) txt = Ok d ->
    Forall (fun e => List.length (Document.expansion_words e) <> 1%nat) exps ->
    Document.set_mwt_expansions exps d = (d', Ok tt) ->
    Forall headless (Document.iter_words d').
Proof.
  intros gss txt d d' exps F I several H.
  assert (Forall2 holds (Document.sentences d) gss) as Hd.
  { revert I. unfold Document.init, Document._process_sentences.
    destruct (Document.append_sentences (map flatten gss) _) as [d1 [[]|x]] eqn:A;
      [|discriminate].
    intros [= <-]. destruct (append_sentences_holds gss _ _ F A) as (ss & E & H2).
    cbn [Document.sentences Document.set_sentences Document.set_num_words
         Document.set_ents app] in *.
    rewrite E. exact H2. }
  revert H. unfold Document.set_mwt_expansions.
  destruct (Document.expand_sentences exps 0 (Document.sentences d))
    as [[ss e'] [[]|x]] eqn:X; [|discriminate].
  destruct (expand_sentences_bare exps several _ _ _ _ _ Hd X) as (gss' & H2 & B).
  unfold Document._process_sentences, Document.to_dict.
  cbn [Document.sentences Document.set_sentences].
  destruct (Document.append_sentences (map Sentence.to_dict ss) _) as [d2 [[]|x]] eqn:A;
    [|discriminate].
  destruct (e' =? List.length exps)%nat; [|discriminate].
  intros [= <-].
  destruct (append_to_dict_holds ss gss' _ _ H2 A) as (ss' & E & M).
  destruct (append_sentences_inv _ _ _ A) as (_ & _ & ss'' & E' & _ & C).
  cbn [Document.sentences Document.set_sentences app] in E, E'.
  unfold Document.iter_words. cbn [Document.sentences Document.set_num_words].
  rewrite E. rewrite E' in E. subst ss''.
  apply (sentences_headless ss gss' ss' H2 B M).
  apply Forall_forall. intros s Hs. exact (proj1 (proj1 (Forall_forall _ _) C s Hs)).
Qed.

Lemma expansion_deletes_heads_and_relations_witness :
  Forall headless
    (Document.iter_words
       (fst (Document.set_mwt_expansions ["de le"%string] Examples.go_then_du_pain))).
Proof.
  apply (expansion_deletes_heads_and_relations
           [[Single (Examples.parsed "1" "Go" 0 "root")];
            [Multi (Examples.with_misc "1" "du" "MWT=Yes") [];
             Single (Examples.plain "2" "pain")]]
           None Examples.go_then_du_pain _ ["de le"%string]).
  - repeat constructor.
  - vm_compute; reflexivity.
  - repeat constructor; vm_compute; discriminate.
  - vm_compute; reflexivity.
Defined.
